(** * Makeable: the agentic generation loop and the image pipeline

    A shallow embedding of [src/agent/createApp.ts]:
    [compressImage], [validateImageSize], [processMessageContent] and
    [createApp] with its tool-use loop.

    Conventions of the embedding.
    - A JavaScript string is a [string]; [s.length] is [String.length s].
    - A value that may be [undefined] is an [option]; JavaScript truthiness
      is written out ([truthy_string], [truthy_number]).
    - An [async] function that may [throw] returns a [Result]; [try]/[catch]
      is a match on it.
    - The [Map<string, string>] of generated files is an insertion-ordered
      association list ([FileMap]) with the update-in-place behaviour of
      [Map.prototype.set].
    - The Anthropic client and the [sharp] codec are external: they are
      parameters of the development.  Every call made to the client is
      recorded in a log that is threaded through the loop, so that round
      trips can be counted; every call of [compressImage] made by
      [processMessageContent] is recorded the same way.
    - [console.log] and [console.error] are not modelled.

    The file comes in two revisions.  They have the same image helpers
    and the same loop; the later one has a longer system prompt for new
    apps, asks for 16000 tokens instead of 8192, and builds the first user
    message from the uploaded files.  The embedding follows the first;
    the later [createApp] is embedded next to it, as [createApp_uploads],
    for what it sends of the uploads.

    The server and the user storage come after.  A method of the storage
    whose [await] leaves room for another call between a check and the
    write that relies on it ([createUser]) is embedded in two halves, the
    part before the [await] and the part after it. *)

From Stdlib Require Import List String Ascii ZArith Bool Arith Lia.
From Stdlib Require Import DecimalString.
Import ListNotations.

Local Open Scope string_scope.
Local Open Scope list_scope.

Set Implicit Arguments.

(* ------------------------------------------------------------------ *)
(** ** Errors and results *)

(** The errors thrown in [createApp.ts], one constructor per [throw] site,
    and the errors raised by the Anthropic client. *)
Inductive Error : Type :=
| ApiKeyNotSet            (* 'ANTHROPIC_API_KEY environment variable is not set' *)
| NoFilesGenerated        (* 'No files were generated. Please try again ...' *)
| FailedToCompress        (* 'Failed to compress image' *)
| OverSizeLimit           (* 'Image could not be compressed below ...MB limit' *)
| SharpError (msg : string)      (* thrown inside sharp *)
| UpstreamError (msg : string).  (* thrown by client.messages.create *)

Inductive Result (A : Type) : Type :=
| Ok (a : A)
| Throw (e : Error).

Arguments Ok {A} a.
Arguments Throw {A} e.

Definition bind {A B : Type} (r : Result A) (k : A -> Result B) : Result B :=
  match r with
  | Ok a => k a
  | Throw e => Throw e
  end.

Notation "'let*' x ':=' r 'in' k" := (bind r (fun x => k))
  (at level 10, x pattern, r at level 100, k at level 200, only parsing).

(** [try { body } catch (error) { handler }] *)
Definition try_catch {A : Type} (body : Result A) (handler : Error -> Result A)
  : Result A :=
  match body with
  | Ok a => Ok a
  | Throw e => handler e
  end.

(* ------------------------------------------------------------------ *)
(** ** JavaScript truthiness *)

Definition truthy_string (s : string) : bool := negb (s =? "").

Definition truthy (s : option string) : bool :=
  match s with
  | Some s => truthy_string s
  | None => false
  end.

Definition truthy_number (n : option Z) : bool :=
  match n with
  | Some z => negb (z =? 0)%Z
  | None => false
  end.

(** Template-literal rendering of a length. *)
Definition string_of_nat (n : nat) : string :=
  NilEmpty.string_of_uint (Nat.to_uint n).

(* ------------------------------------------------------------------ *)
(** ** Data model *)

Record GeneratedFile : Type := mkFile {
  path : string;
  content : string
}.

Record AppGenerationResult : Type := mkResult {
  files : list GeneratedFile
}.

(** *** [Map<string, string>] *)

Definition FileMap : Type := list (string * string).

Definition map_empty : FileMap := [].

(** [m.set(k, v)]: an existing key keeps its position and takes the new
    value, a new key is appended. *)
Fixpoint map_set (k v : string) (m : FileMap) : FileMap :=
  match m with
  | [] => [(k, v)]
  | (k', v') :: m' =>
      if k' =? k then (k', v) :: m' else (k', v') :: map_set k v m'
  end.

(** [m.get(k)] *)
Fixpoint map_get (k : string) (m : FileMap) : option string :=
  match m with
  | [] => None
  | (k', v') :: m' => if k' =? k then Some v' else map_get k m'
  end.

(** [Array.from(m.keys())] and [Array.from(m.entries())] *)
Definition map_keys (m : FileMap) : list string := map fst m.
Definition map_entries (m : FileMap) : list (string * string) := m.

(** *** Content blocks of an assistant response *)

(** [block.input as { path?: string; content?: string }] *)
Record WriteFileInput : Type := mkInput {
  input_path : option string;
  input_content : option string
}.

(** The SDK's [ContentBlock] union, as the loop sees it: it tells the
    ['tool_use'] blocks from all the others by [block.type];
    [OtherBlock] stands for a member that is neither text nor tool use. *)
Inductive ContentBlock : Type :=
| TextBlock (text : string)
| ToolUseBlock (id : string) (name : string) (input : WriteFileInput)
| OtherBlock.

Definition is_tool_use (block : ContentBlock) : bool :=
  match block with
  | ToolUseBlock _ _ _ => true
  | _ => false
  end.

(** [Anthropic.ToolResultBlockParam] *)
Record ToolResultBlockParam : Type := mkToolResult {
  tool_use_id : string;
  result_content : string;
  is_error : bool
}.

(** *** Items of a user message *)

(** [data] is [undefined] when the caller had no payload to put there
    (the second field of a data URL without a comma, for one). *)
Record ImageSource : Type := mkSource {
  source_type : string;
  media_type : string;
  data : option string
}.

Record ContentItem : Type := mkItem {
  item_type : string;
  item_text : option string;
  item_source : option ImageSource
}.

(** The [content] of a message: a plain string, an array of items, the
    blocks of an assistant response, the tool results sent back, or any
    other value. *)
Inductive MessageContent : Type :=
| ContentString (s : string)
| ContentArray (items : list ContentItem)
| ContentBlocks (blocks : list ContentBlock)
| ContentToolResults (results : list ToolResultBlockParam)
| ContentOther.

Inductive Role : Type := user | assistant.

Record MessageParam : Type := mkMessage {
  role : Role;
  msg_content : MessageContent
}.

(** The request sent by [client.messages.create] and its response. *)
Record Request : Type := mkRequest {
  model : string;
  max_tokens : Z;
  system : string;
  tools : list string;
  messages : list MessageParam
}.

Record Response : Type := mkResponse {
  response_content : list ContentBlock
}.

(* ------------------------------------------------------------------ *)
(** ** The image pipeline *)

(** [Math.round(a / b)] for integers [a >= 0] and [b > 0]: the nearest
    integer, a tie going up, that is [floor (a/b + 1/2)].  Where it is
    used below the quotient is at most 1024 and, when it is not a
    half-integer, at least [1/(2b)] away from the nearest one, which is
    more than half a unit in the last place of a double for any [b] below
    [2^43]: the rounding of the double division cannot reach a
    half-integer, and the integer formula is the value JavaScript
    computes. *)
Definition Math_round_div (a b : Z) : Z := ((2 * a + b) / (2 * b))%Z.

Definition maxDimension : Z := 1024.

(** Lines 21-37 of [compressImage]: the dimensions handed to
    [resize(width, height)]. *)
Definition target_dimensions (width height : option Z) : option Z * option Z :=
  match width, height with
  | Some w, Some h =>
      if truthy_number width && truthy_number height then
        if (w >? h)%Z then
          if (w >? maxDimension)%Z
          then (Some maxDimension, Some (Math_round_div (h * maxDimension) w))
          else (width, height)
        else
          if (h >? maxDimension)%Z
          then (Some (Math_round_div (w * maxDimension) h), Some maxDimension)
          else (width, height)
      else (width, height)
  | _, _ => (width, height)
  end.

(** The default value of [maxSizeMB]. *)
Definition defaultMaxSizeMB : Z := 5.

(** Node's [Buffer], seen through [buffer.length] and the base64 codec
    ([Buffer.from(s, 'base64')], [b.toString('base64')]), and the two
    [sharp] pipelines the source runs: [sharp(b).metadata()], which gives
    the width and the height when it knows them, and
    [sharp(b).resize(w, h).jpeg({ quality }).toBuffer()]. *)
Record Sharp : Type := mkSharp {
  Buffer : Type;
  byteLength : Buffer -> Z;
  metadata : Buffer -> Result (option Z * option Z);
  resize_jpeg : Buffer -> option Z -> option Z -> Z -> Result Buffer;
  from_base64 : string -> Buffer;
  to_base64 : Buffer -> string
}.

Section ImagePipeline.

Variable sharp : Sharp.

Local Abbreviation Buffer := (Buffer sharp).
Local Abbreviation byteLength := (byteLength sharp).
Local Abbreviation metadata := (metadata sharp).
Local Abbreviation resize_jpeg := (resize_jpeg sharp).
Local Abbreviation from_base64 := (from_base64 sharp).
Local Abbreviation to_base64 := (to_base64 sharp).

(** [validateImageSize] *)
Definition validateImageSize (buffer : Buffer) (maxSizeMB : Z) : bool :=
  let maxSizeBytes := (maxSizeMB * 1024 * 1024)%Z in
  (byteLength buffer <=? maxSizeBytes)%Z.

(** The [while] loop of [compressImage], lines 47-53.  [fuel] bounds the
    number of iterations; [None] means that the fuel ran out. *)
Fixpoint reduce_quality (fuel : nat) (imageBuffer : Buffer)
    (width height : option Z) (maxSizeBytes : Z)
    (quality : Z) (compressedBuffer : Buffer)
  : option (Result (Z * Buffer)) :=
  if ((byteLength compressedBuffer >? maxSizeBytes) && (quality >? 10))%Z then
    match fuel with
    | O => None
    | S fuel' =>
        let quality := (quality - 10)%Z in
        match resize_jpeg imageBuffer width height quality with
        | Throw e => Some (Throw e)
        | Ok compressedBuffer =>
            reduce_quality fuel' imageBuffer width height maxSizeBytes
              quality compressedBuffer
        end
    end
  else Some (Ok (quality, compressedBuffer)).

(** The body of the [try] block of [compressImage]; the result carries
    the last quality used next to the buffer. *)
Definition compressImage_body (fuel : nat) (imageBuffer : Buffer)
    (maxSizeMB : Z) : option (Result (Z * Buffer)) :=
  let maxSizeBytes := (maxSizeMB * 1024 * 1024)%Z in
  match metadata imageBuffer with
  | Throw e => Some (Throw e)
  | Ok (width, height) =>
      let '(width, height) := target_dimensions width height in
      let quality := 80%Z in
      match resize_jpeg imageBuffer width height quality with
      | Throw e => Some (Throw e)
      | Ok compressedBuffer =>
          match reduce_quality fuel imageBuffer width height maxSizeBytes
                  quality compressedBuffer with
          | None => None
          | Some (Throw e) => Some (Throw e)
          | Some (Ok (quality, compressedBuffer)) =>
              if (byteLength compressedBuffer >? maxSizeBytes)%Z
              then Some (Throw OverSizeLimit)
              else Some (Ok (quality, compressedBuffer))
          end
      end
  end.

(** Seven decrements take the quality from 80 to 10. *)
Definition quality_fuel : nat := 7.

(** [compressImage]: whatever is thrown inside is caught and replaced by
    'Failed to compress image'.  The fuel never runs out
    ([compressImage_body_spec] below), so the [None] branch is dead. *)
Definition compressImage (imageBuffer : Buffer) (maxSizeMB : Z)
  : Result Buffer :=
  match compressImage_body quality_fuel imageBuffer maxSizeMB with
  | Some body =>
      try_catch (let* r := body in Ok (snd r))
                (fun _ => Throw FailedToCompress)
  | None => Throw FailedToCompress
  end.

(** [processMessageContent], the loop body for one [item]: the items
    pushed to [processedContent] and the buffers [compressImage] was
    called on.  [Buffer.from(undefined, 'base64')] throws a [TypeError],
    which the [catch] turns into skipping the item, as it does with a
    failure of [compressImage]. *)
Definition process_item (item : ContentItem)
    (processedContent : list ContentItem) (calls : list Buffer)
  : list ContentItem * list Buffer :=
  match item_source item with
  | Some source =>
      if (item_type item =? "image") && (source_type source =? "base64") then
        match data source with
        | None => (processedContent, calls)
        | Some encoded =>
            let imageBuffer := from_base64 encoded in
            if negb (validateImageSize imageBuffer defaultMaxSizeMB) then
              match compressImage imageBuffer defaultMaxSizeMB with
              | Ok compressedBuffer =>
                  let compressedBase64 := to_base64 compressedBuffer in
                  (processedContent ++
                     [ {| item_type := item_type item;
                          item_text := item_text item;
                          item_source :=
                            Some {| source_type := source_type source;
                                    media_type := media_type source;
                                    data := Some compressedBase64 |} |} ],
                   calls ++ [imageBuffer])
              | Throw _ =>
                  (* catch: skip the image *)
                  (processedContent, calls ++ [imageBuffer])
              end
            else (processedContent ++ [item], calls)
        end
      else (processedContent ++ [item], calls)
  | None => (processedContent ++ [item], calls)
  end.

Fixpoint process_items (content : list ContentItem)
    (processedContent : list ContentItem) (calls : list Buffer)
  : list ContentItem * list Buffer :=
  match content with
  | [] => (processedContent, calls)
  | item :: rest =>
      let '(processedContent, calls) :=
        process_item item processedContent calls in
      process_items rest processedContent calls
  end.

(** [processMessageContent]: the processed content and the log of the
    calls of [compressImage].  A string is returned as it is; so is any
    other content, none of whose parts is an image item. *)
Definition processMessageContent (content : MessageContent)
  : MessageContent * list Buffer :=
  match content with
  | ContentString s => (ContentString s, [])
  | ContentArray items =>
      let '(processedContent, calls) := process_items items [] [] in
      (ContentArray processedContent, calls)
  | other => (other, [])
  end.

End ImagePipeline.

(* ------------------------------------------------------------------ *)
(** ** The agentic loop *)

(** The Anthropic client: [client.messages.create(request)] answers with
    a response or throws an error of its own. *)
Inductive Reply : Type :=
| Answered (response : Response)
| Rejected (msg : string).

Record Anthropic : Type := mkClient {
  messages_create : Request -> Reply
}.

Definition nl : string := String (ascii_of_nat 10) "".

Definition updateSystemPrompt : string :=
"You are an expert web developer. You are updating an existing web application based on the user's modification request.

IMPORTANT INSTRUCTIONS FOR UPDATES:
- The user has an EXISTING app and wants to make SPECIFIC CHANGES to it
- You will be provided with the current files of the app
- ONLY modify the parts that need to change based on the user's request
- Keep all other functionality and styling exactly as they are
- Use the write_file tool to write the UPDATED versions of files
- Only write files that actually need to be changed
- Make minimal, targeted changes - don't rewrite the entire app unless necessary

The user wants to make specific changes to their existing app. Be surgical and precise.".

Definition createSystemPrompt : string :=
"You are an expert web developer. Your task is to create a complete, working web application based on the user's description.

IMPORTANT INSTRUCTIONS:
- Generate a complete, self-contained web application
- Always create at least an index.html file
- Include all necessary CSS and JavaScript inline in the HTML for simplicity
- Make the app visually appealing and functional with modern design
- Use modern web standards (HTML5, CSS3, ES6+)
- Use the write_file tool to create each file needed
- Make sure the app is fully functional and ready to use

Create a fully functional app that matches the user's request.".

(** The loop bound of [for (let i = 0; i < 10; i++)]. *)
Definition maxTurns : nat := 10.

(** [existingFiles && existingFiles.length > 0] *)
Definition isUpdate (existingFiles : option (list GeneratedFile)) : bool :=
  match existingFiles with
  | Some fs => (0 <? List.length fs)%nat
  | None => false
  end.

(** Lines 146-153: the map pre-populated with the existing files. *)
Definition prepopulate (existingFiles : option (list GeneratedFile)) : FileMap :=
  match existingFiles with
  | Some fs =>
      if (0 <? List.length fs)%nat
      then fold_left (fun generatedFiles file =>
                        map_set (path file) (content file) generatedFiles)
                     fs map_empty
      else map_empty
  | None => map_empty
  end.

(** Lines 184-193: the text of the first user message. *)
Definition filesContext (existingFiles : list GeneratedFile) : string :=
  String.concat (nl ++ nl)%string
    (map (fun file =>
            ("File: " ++ path file ++ nl ++ "```" ++ nl ++
             content file ++ nl ++ "```")%string)
         existingFiles).

Definition userMessage (prompt : string)
    (existingFiles : option (list GeneratedFile)) : string :=
  match existingFiles with
  | Some fs =>
      if isUpdate existingFiles then
        ("Here are the current files of the app:" ++ nl ++ nl ++
         filesContext fs ++ nl ++ nl ++
         "User's modification request: " ++ prompt)%string
      else prompt
  | None => prompt
  end.

(** The two tool results of lines 239-243 and 246-251. *)
Definition success_result (id p c : string) : ToolResultBlockParam :=
  {| tool_use_id := id;
     result_content :=
       ("File " ++ p ++ " created successfully with " ++
        string_of_nat (String.length c) ++ " characters")%string;
     is_error := false |}.

Definition error_result (id : string) : ToolResultBlockParam :=
  {| tool_use_id := id;
     result_content :=
       "Error: Incomplete file data. Please try again with a simpler request.";
     is_error := true |}.

(** Lines 234-252: one [write_file] invocation. *)
Definition write_file (id : string) (input : WriteFileInput)
    (generatedFiles : FileMap) (toolResults : list ToolResultBlockParam)
  : FileMap * list ToolResultBlockParam :=
  match input_path input, input_content input with
  | Some p, Some c =>
      if truthy_string p && truthy_string c
      then (map_set p c generatedFiles, toolResults ++ [success_result id p c])
      else (generatedFiles, toolResults ++ [error_result id])
  | _, _ => (generatedFiles, toolResults ++ [error_result id])
  end.

(** Lines 231-254: the body of [for (const block of response.content)]. *)
Definition handle_block (block : ContentBlock)
    (generatedFiles : FileMap) (toolResults : list ToolResultBlockParam)
  : FileMap * list ToolResultBlockParam :=
  match block with
  | ToolUseBlock id name input =>
      if name =? "write_file"
      then write_file id input generatedFiles toolResults
      else (generatedFiles, toolResults)
  | _ => (generatedFiles, toolResults)
  end.

Fixpoint handle_blocks (blocks : list ContentBlock)
    (generatedFiles : FileMap) (toolResults : list ToolResultBlockParam)
  : FileMap * list ToolResultBlockParam :=
  match blocks with
  | [] => (generatedFiles, toolResults)
  | block :: rest =>
      let '(generatedFiles, toolResults) :=
        handle_block block generatedFiles toolResults in
      handle_blocks rest generatedFiles toolResults
  end.

(** Lines 257-263: the tool results go back as one user message, when
    there are any. *)
Definition push_tool_results (messages : list MessageParam)
    (toolResults : list ToolResultBlockParam) : list MessageParam :=
  if (0 <? List.length toolResults)%nat
  then messages ++ [ {| role := user; msg_content := ContentToolResults toolResults |} ]
  else messages.

(** The state the loop works on: the conversation, the map of generated
    files, and the log of the requests sent to the client so far. *)
Record LoopState : Type := mkState {
  conversation : list MessageParam;
  generatedFiles : FileMap;
  requests : list Request
}.

(** How the [for] loop was left: by [break], by running out of turns, or
    by an exception of the client. *)
Inductive LoopExit : Type :=
| Break
| TurnsExhausted
| Thrown (e : Error).

(** What one iteration does: go on to the next one, or leave the loop. *)
Inductive TurnOutcome : Type :=
| Continue (st : LoopState)
| Leave (exit : LoopExit) (st : LoopState).

Definition assistant_message (response : Response) : MessageParam :=
  {| role := assistant;
     msg_content := ContentBlocks (response_content response) |}.

Section CreateApp.

Variable sharp : Sharp.
Variable client : Anthropic.

Definition request (systemPrompt : string) (messages : list MessageParam)
  : Request :=
  {| model := "claude-sonnet-4-20250514";
     max_tokens := 8192;
     system := systemPrompt;
     tools := ["write_file"];
     messages := messages |}.

(** Lines 207-267: the body of the [for] loop. *)
Definition turn (systemPrompt : string) (st : LoopState) : TurnOutcome :=
  let req := request systemPrompt (conversation st) in
  let requests := requests st ++ [req] in
  match messages_create client req with
  | Rejected msg =>
      Leave (Thrown (UpstreamError msg))
            {| conversation := conversation st;
               generatedFiles := generatedFiles st;
               requests := requests |}
  | Answered response =>
      let hasToolUse := existsb is_tool_use (response_content response) in
      let messages := conversation st ++ [assistant_message response] in
      if hasToolUse then
        let '(generatedFiles, toolResults) :=
          handle_blocks (response_content response) (generatedFiles st) [] in
        Continue {| conversation := push_tool_results messages toolResults;
                    generatedFiles := generatedFiles;
                    requests := requests |}
      else
        Leave Break {| conversation := messages;
                       generatedFiles := generatedFiles st;
                       requests := requests |}
  end.

(** Lines 206-268: [for (let i = 0; i < 10; i++)], with [turns] the
    number of iterations still allowed, [10 - i]. *)
Fixpoint agentic_loop (turns : nat) (systemPrompt : string) (st : LoopState)
  : LoopExit * LoopState :=
  match turns with
  | O => (TurnsExhausted, st)
  | S turns' =>
      match turn systemPrompt st with
      | Continue st' => agentic_loop turns' systemPrompt st'
      | Leave exit st' => (exit, st')
      end
  end.

(** Lines 270-281: what [createApp] returns once the loop is over. *)
Definition collect_files (generatedFiles : FileMap)
  : Result AppGenerationResult :=
  let files :=
    map (fun '(path, content) => {| path := path; content := content |})
        (map_entries generatedFiles) in
  if (List.length files =? 0)%nat
  then Throw NoFilesGenerated
  else Ok {| files := files |}.

Definition systemPrompt (existingFiles : option (list GeneratedFile)) : string :=
  if isUpdate existingFiles then updateSystemPrompt else createSystemPrompt.

(** The state in which the loop is entered. *)
Definition initial_state (prompt : string)
    (existingFiles : option (list GeneratedFile)) : LoopState :=
  let processedContent :=
    fst (processMessageContent sharp
           (ContentString (userMessage prompt existingFiles))) in
  {| conversation := [ {| role := user; msg_content := processedContent |} ];
     generatedFiles := prepopulate existingFiles;
     requests := [] |}.

(** The first request of a run. *)
Definition first_request (prompt : string)
    (existingFiles : option (list GeneratedFile)) : Request :=
  request (systemPrompt existingFiles)
    (conversation (initial_state prompt existingFiles)).

(** The loop as [createApp] runs it. *)
Definition run_loop (prompt : string)
    (existingFiles : option (list GeneratedFile)) : LoopExit * LoopState :=
  agentic_loop maxTurns (systemPrompt existingFiles)
    (initial_state prompt existingFiles).

(** [createApp(prompt, existingFiles)], with [apiKey] the value of
    [process.env.ANTHROPIC_API_KEY]; the second component is the log of
    the requests sent to the client. *)
Definition createApp (apiKey : option string) (prompt : string)
    (existingFiles : option (list GeneratedFile))
  : Result AppGenerationResult * list Request :=
  if negb (truthy apiKey) then (Throw ApiKeyNotSet, [])
  else
    match run_loop prompt existingFiles with
    | (Thrown e, st) => (Throw e, requests st)
    | (_, st) => (collect_files (generatedFiles st), requests st)
    end.

End CreateApp.

(* ------------------------------------------------------------------ *)
(** ** Stubs

    A [sharp] whose buffers are their own byte counts, and scripted
    clients, to run the definitions on concrete inputs. *)

(** The encoder of the stub: [quality] percent of the input size. *)
Definition stub_sharp : Sharp :=
  {| Buffer := Z;
     byteLength := fun b => b;
     metadata := fun _ => Ok (Some 4000%Z, Some 3000%Z);
     resize_jpeg := fun b _ _ quality => Ok (b * quality / 100)%Z;
     from_base64 := fun s => (Z.of_nat (String.length s) * 3000000)%Z;
     to_base64 := fun _ => "compressed" |}.

(** The number of assistant turns of a conversation. *)
Definition assistant_turns (messages : list MessageParam) : nat :=
  List.length
    (filter (fun m => match role m with assistant => true | user => false end)
            messages).

(** A client that answers its n-th request with the n-th entry of
    [script], and with a plain text once the script is over. *)
Definition scripted_client (script : list (list ContentBlock)) : Anthropic :=
  {| messages_create := fun req =>
       Answered
         {| response_content :=
              nth (assistant_turns (messages req)) script [TextBlock "Done."] |} |}.

(** A client that never calls a tool. *)
Definition silent_client : Anthropic := scripted_client [].

(** A client that writes the same file on every turn. *)
Definition eager_client : Anthropic :=
  {| messages_create := fun _ =>
       Answered
         {| response_content :=
              [ToolUseBlock "toolu_1" "write_file"
                 {| input_path := Some "index.html";
                    input_content := Some "<html></html>" |}] |} |}.

(** A client whose transport fails. *)
Definition failing_client : Anthropic :=
  {| messages_create := fun _ => Rejected "overloaded" |}.

(* ------------------------------------------------------------------ *)
(** ** The normalizer as the specification words it

    Section 4.1 of the specification: read the dimensions, compute the
    target dimensions, re-encode at quality 80 and then in steps of 10
    down to 10, keep the first encoding that is within the ceiling, and
    fail when there is none. *)

Definition qualities : list Z := [80; 70; 60; 50; 40; 30; 20; 10]%Z.

(** The qualities below [q], in steps of 10. *)
Fixpoint descending (n : nat) (q : Z) : list Z :=
  match n with
  | O => []
  | S n' => (q - 10)%Z :: descending n' (q - 10)%Z
  end.

(** The ceiling [processMessageContent] works with, in bytes. *)
Definition sizeCeiling : Z := (defaultMaxSizeMB * 1024 * 1024)%Z.

Section NormalizeSpec.

Variable sharp : Sharp.

Fixpoint first_fitting (encode : Z -> Result (Buffer sharp)) (maxBytes : Z)
    (qs : list Z) : Result (Z * Buffer sharp) :=
  match qs with
  | [] => Throw FailedToCompress
  | q :: qs' =>
      match encode q with
      | Throw _ => Throw FailedToCompress
      | Ok b =>
          if (byteLength sharp b <=? maxBytes)%Z then Ok (q, b)
          else first_fitting encode maxBytes qs'
      end
  end.

Definition normalize_spec (buffer : Buffer sharp) (maxBytes : Z)
  : Result (Z * Buffer sharp) :=
  match metadata sharp buffer with
  | Throw _ => Throw FailedToCompress
  | Ok (width, height) =>
      let '(width, height) := target_dimensions width height in
      first_fitting (resize_jpeg sharp buffer width height) maxBytes qualities
  end.

(** The check of lines 55-57, and the [catch] of lines 60-63. *)
Definition size_check (maxBytes : Z) (r : Result (Z * Buffer sharp))
  : Result (Z * Buffer sharp) :=
  match r with
  | Throw e => Throw FailedToCompress
  | Ok (q, b) =>
      if (byteLength sharp b >? maxBytes)%Z then Throw FailedToCompress
      else Ok (q, b)
  end.

(** What [processMessageContent] emits for one item, and the buffers it
    calls [compressImage] on for it. *)
Definition emitted (item : ContentItem) : list ContentItem :=
  fst (process_item sharp item [] []).

Definition normalized (item : ContentItem) : list (Buffer sharp) :=
  snd (process_item sharp item [] []).

(** An inline image block: [item.type === 'image'] with a base64 source. *)
Definition is_inline_image (item : ContentItem) : bool :=
  match item_source item with
  | Some source =>
      (item_type item =? "image") && (source_type source =? "base64")
  | None => false
  end.

(** The decoded payload of an inline image block, when it has data. *)
Definition payload (item : ContentItem) : option (Buffer sharp) :=
  match item_source item with
  | Some source =>
      if (item_type item =? "image") && (source_type source =? "base64")
      then option_map (from_base64 sharp) (data source)
      else None
  | None => None
  end.

(** [{ ...item, source: { ...item.source, data } }] *)
Definition with_data (item : ContentItem) (data : string) : ContentItem :=
  {| item_type := item_type item;
     item_text := item_text item;
     item_source :=
       match item_source item with
       | Some source =>
           Some {| source_type := source_type source;
                   media_type := media_type source;
                   data := Some data |}
       | None => None
       end |}.

End NormalizeSpec.

(* ------------------------------------------------------------------ *)
(** ** Reading a conversation

    The tool invocations of a run are the blocks of the assistant turns of
    its conversation. *)

Definition assistant_blocks (messages : list MessageParam) : list ContentBlock :=
  flat_map (fun m =>
              match role m, msg_content m with
              | assistant, ContentBlocks blocks => blocks
              | _, _ => []
              end)
           messages.

(** The tool results a conversation carries. *)
Definition tool_results (messages : list MessageParam)
  : list ToolResultBlockParam :=
  flat_map (fun m =>
              match msg_content m with
              | ContentToolResults results => results
              | _ => []
              end)
           messages.

(** The ids of the tool invocations of a response, and of those among
    them that name [write_file]. *)
Definition tool_use_ids (blocks : list ContentBlock) : list string :=
  flat_map (fun block =>
              match block with
              | ToolUseBlock id _ _ => [id]
              | _ => []
              end)
           blocks.

Definition write_file_ids (blocks : list ContentBlock) : list string :=
  flat_map (fun block =>
              match block with
              | ToolUseBlock id name _ =>
                  if name =? "write_file" then [id] else []
              | _ => []
              end)
           blocks.

(** A block is a complete write when it invokes [write_file] with a
    non-empty path and a non-empty content. *)
Definition complete_write (block : ContentBlock) : option (string * string) :=
  match block with
  | ToolUseBlock _ name input =>
      if name =? "write_file" then
        match input_path input, input_content input with
        | Some p, Some c =>
            if truthy_string p && truthy_string c then Some (p, c) else None
        | _, _ => None
        end
      else None
  | _ => None
  end.

Definition complete_writes (blocks : list ContentBlock)
  : list (string * string) :=
  flat_map (fun block =>
              match complete_write block with
              | Some w => [w]
              | None => []
              end)
           blocks.

(** The tool results the loop synthesizes for one block. *)
Definition results_for (block : ContentBlock) : list ToolResultBlockParam :=
  match block with
  | ToolUseBlock id name _ =>
      if name =? "write_file" then
        match complete_write block with
        | Some (p, c) => [success_result id p c]
        | None => [error_result id]
        end
      else []
  | _ => []
  end.

(** The state an iteration leaves behind. *)
Definition outcome_state (outcome : TurnOutcome) : LoopState :=
  match outcome with
  | Continue st => st
  | Leave _ st => st
  end.

(** The loop is over, as opposed to interrupted by an exception. *)
Definition loop_ended (exit : LoopExit) : bool :=
  match exit with
  | Break | TurnsExhausted => true
  | Thrown _ => false
  end.

(** Committing a list of writes to the map, in order. *)
Definition commit (writes : list (string * string)) (m : FileMap) : FileMap :=
  fold_left (fun m w => map_set (fst w) (snd w) m) writes m.

Definition file_of (entry : string * string) : GeneratedFile :=
  {| path := fst entry; content := snd entry |}.

(* ------------------------------------------------------------------ *)
(** ** The first user message of the later revision

    Lines 513-581 of the later revision of [createApp]: the content of
    the first user message is built from the prompt and the uploaded
    files and then goes through [processMessageContent]. *)

(** [Array<{ name: string; type: string; data: string; url?: string }>] *)
Record UploadedFile : Type := mkUpload {
  upload_name : string;
  upload_type : string;
  upload_data : string;
  upload_url : option string
}.

(** [s.startsWith(p)] and [s.includes(needle)] *)
Definition startsWith (p s : string) : bool := String.prefix p s.

Fixpoint includes (needle s : string) : bool :=
  String.prefix needle s ||
  match s with
  | EmptyString => false
  | String _ s' => includes needle s'
  end.

(** [s.split(sep)] for a one-character separator: the fields between
    the separators, of which there is always at least one. *)
Fixpoint split_char (sep : ascii) (s : string) : list string :=
  match s with
  | EmptyString => [EmptyString]
  | String c s' =>
      if Ascii.eqb c sep then EmptyString :: split_char sep s'
      else
        match split_char sep s' with
        | field :: fields => String c field :: fields
        | [] => [String c EmptyString]
        end
  end.

(** [file.data.split(',')[1]], which is [undefined] when the data holds
    no comma. *)
Definition base64Data (file : UploadedFile) : option string :=
  nth_error (split_char "," (upload_data file)) 1.

(** Lines 527-530 (and 543-546): the media type of an image block. *)
Definition mediaType (file : UploadedFile) : string :=
  if includes "png" (upload_type file) then "image/png"
  else if includes "gif" (upload_type file) then "image/gif"
  else if includes "webp" (upload_type file) then "image/webp"
  else "image/jpeg".

(** The image block pushed for an image file, with or without a URL. *)
Definition image_block (file : UploadedFile) : ContentItem :=
  {| item_type := "image";
     item_text := None;
     item_source :=
       Some {| source_type := "base64";
               media_type := mediaType file;
               data := base64Data file |} |}.

Definition text_block (text : string) : ContentItem :=
  {| item_type := "text"; item_text := Some text; item_source := None |}.

(** [messageContent[0].text += s] *)
Definition append_text (s : string) (messageContent : list ContentItem)
  : list ContentItem :=
  match messageContent with
  | [] => []
  | first :: rest =>
      {| item_type := item_type first;
         item_text :=
           match item_text first with
           | Some text => Some (text ++ s)%string
           | None => None
           end;
         item_source := item_source first |} :: rest
  end.

(** Lines 520-561: the body of [for (const file of uploadedFiles)], on
    the pair of [messageContent] and [imageUrls]. *)
Definition add_upload (file : UploadedFile)
    (st : list ContentItem * list string) : list ContentItem * list string :=
  let '(messageContent, imageUrls) := st in
  if startsWith "image/" (upload_type file) then
    if truthy (upload_url file) then
      match upload_url file with
      | Some url => (messageContent ++ [image_block file], imageUrls ++ [url])
      | None => (messageContent ++ [image_block file], imageUrls)
      end
    else (messageContent ++ [image_block file], imageUrls)
  else
    (append_text (nl ++ nl ++ "[User provided file: " ++ upload_name file ++ "]")%string
       messageContent,
     imageUrls).

Fixpoint add_uploads (uploadedFiles : list UploadedFile)
    (st : list ContentItem * list string) : list ContentItem * list string :=
  match uploadedFiles with
  | [] => st
  | file :: rest => add_uploads rest (add_upload file st)
  end.

Definition dq : string := String (ascii_of_nat 34) "".

(** The two characters-in-disguise the source has around CRITICAL. *)
Definition siren : string := "ðŸš¨".

(** [imageUrls.map((url, i) => `Image ${i + 1}: ${url}`)] from index [i]. *)
Fixpoint image_lines (i : nat) (imageUrls : list string) : list string :=
  match imageUrls with
  | [] => []
  | url :: rest =>
      ("Image " ++ string_of_nat (i + 1) ++ ": " ++ url)%string ::
      image_lines (S i) rest
  end.

(** Lines 565-576: the instruction appended when some image has a URL;
    [first] is [imageUrls[0]]. *)
Definition url_instruction (imageUrls : list string) (first : string) : string :=
  let count := string_of_nat (List.length imageUrls) in
  (nl ++ nl ++ siren ++ " CRITICAL - " ++ count ++ " IMAGE(S) PROVIDED " ++
   siren ++ nl ++ nl ++
   "You can see " ++ count ++ " image(s) above in the message content." ++
   nl ++ nl ++
   "YOU MUST embed these images directly in your HTML using these exact URLs:" ++
   nl ++ nl ++
   String.concat nl (image_lines 0 imageUrls) ++ nl ++ nl ++
   "Use <img> tags like this:" ++ nl ++
   "<img src=" ++ dq ++ first ++ dq ++ " alt=" ++ dq ++ "User provided image" ++
   dq ++ " style=" ++ dq ++ "max-width: 100%; height: auto;" ++ dq ++ ">" ++
   nl ++ nl ++
   "DO NOT use base64 data URIs - use the URLs provided above!")%string.

(** Lines 513-578: [messageContent]. *)
Definition buildMessageContent (prompt : string)
    (existingFiles : option (list GeneratedFile))
    (uploadedFiles : option (list UploadedFile)) : list ContentItem :=
  let messageContent := [text_block (userMessage prompt existingFiles)] in
  match uploadedFiles with
  | Some files =>
      if (0 <? List.length files)%nat then
        let '(messageContent, imageUrls) :=
          add_uploads files (messageContent, []) in
        match imageUrls with
        | first :: _ =>
            append_text (url_instruction imageUrls first) messageContent
        | [] => messageContent
        end
      else messageContent
  | None => messageContent
  end.

(** Lines 580-588: the content of the first user message, and the
    buffers [compressImage] was called on to get it. *)
Definition firstMessageContent (sharp : Sharp) (prompt : string)
    (existingFiles : option (list GeneratedFile))
    (uploadedFiles : option (list UploadedFile))
  : MessageContent * list (Buffer sharp) :=
  processMessageContent sharp
    (ContentArray (buildMessageContent prompt existingFiles uploadedFiles)).

(** What the source's loop over the uploads amounts to: the image
    blocks, the notes on the other files, and the URLs. *)
Definition is_image_upload (file : UploadedFile) : bool :=
  startsWith "image/" (upload_type file).

Definition upload_notes (uploadedFiles : list UploadedFile) : string :=
  String.concat ""
    (map (fun file =>
            (nl ++ nl ++ "[User provided file: " ++ upload_name file ++ "]")%string)
         (filter (fun file => negb (is_image_upload file)) uploadedFiles)).

Definition upload_urls (uploadedFiles : list UploadedFile) : list string :=
  flat_map (fun file =>
              if is_image_upload file && truthy (upload_url file) then
                match upload_url file with
                | Some url => [url]
                | None => []
                end
              else [])
           uploadedFiles.

(** A [sharp] whose buffers are their base64 texts, one character
    standing for a megabyte; its encoder keeps [quality] percent of the
    text. *)
Definition text_sharp : Sharp :=
  {| Buffer := string;
     byteLength := fun b => (Z.of_nat (String.length b) * 1024 * 1024)%Z;
     metadata := fun _ => Ok (Some 2000%Z, Some 1000%Z);
     resize_jpeg := fun b _ _ quality =>
       Ok (String.substring 0
             (Z.to_nat (Z.of_nat (String.length b) * quality / 100)) b);
     from_base64 := fun s => s;
     to_base64 := fun b => b |}.

(* ------------------------------------------------------------------ *)
(** ** The later revision of [createApp]

    Lines 425-672: [createApp(prompt, existingFiles, uploadedFiles)].
    It differs from the first revision in its third parameter, in the
    system prompt for a new app (lines 461-499), in the first user
    message, which is built from the uploads (lines 513-581, above), and
    in [max_tokens] (line 594).  The loop of lines 591-653 is the loop of
    lines 206-268 written a second time, and so it is here. *)

Definition createSystemPrompt_uploads : string :=
"You are an expert web developer creating professional, production-ready web applications.

DESIGN GUIDELINES:
- Create clean, professional, modern designs suitable for business and professional use
- Use neutral, professional color schemes: whites, grays, subtle blues/greens
- Avoid playful, toy-like, or overly colorful aesthetics
- Focus on usability, accessibility, and readability
- Use professional typography (System fonts like -apple-system, BlinkMacSystemFont, 'Segoe UI', Roboto)
- Base font size should be at least 16px for optimal readability
- Implement proper spacing and visual hierarchy (use 8px grid system)
- Add subtle shadows (0 1px 3px rgba(0,0,0,0.1)) and borders (#e5e7eb) for depth
- Ensure responsive design that works on all screen sizes
- Use subtle animations only (hover effects with 0.2s transitions)

RECOMMENDED COLOR PALETTE:
- Primary Action: #2563eb (professional blue) or #059669 (professional green)
- Background: #ffffff (white), #f9fafb (light gray), #f3f4f6 (gray)
- Text: #111827 (dark), #6b7280 (medium gray), #9ca3af (light gray)
- Borders: #e5e7eb (light), #d1d5db (medium)
- Success: #059669, Warning: #d97706, Error: #dc2626
- Use accent colors sparingly and only where needed

COMPONENT STYLING:
- Buttons: solid backgrounds, 6-8px border-radius, padding 0.75rem 1.5rem, clear hover states
- Inputs: 2px border, 6px radius, proper labels above, focus states with subtle ring
- Cards: white background, 8px radius, subtle shadow, padding 1.5-2rem
- Typography: clear hierarchy with h1 (2rem), h2 (1.5rem), body (1rem)
- Spacing: consistent margins and padding using multiples of 8px (0.5rem, 1rem, 1.5rem, 2rem)

TECHNICAL REQUIREMENTS:
- Generate a complete, self-contained web application
- Always create at least an index.html file
- Include all necessary CSS and JavaScript inline in the HTML for simplicity
- Use modern web standards (HTML5, CSS3, ES6+)
- Make sure the app is fully functional and ready to use
- Use the write_file tool to create each file needed
- Ensure proper semantic HTML structure

Create a fully functional, professional-grade application that looks like it was designed by a professional UX/UI designer.".

Section CreateAppUploads.

Variable sharp : Sharp.
Variable client : Anthropic.

(** Lines 592-598. *)
Definition request_uploads (systemPrompt : string)
    (messages : list MessageParam) : Request :=
  {| model := "claude-sonnet-4-20250514";
     max_tokens := 16000;
     system := systemPrompt;
     tools := ["write_file"];
     messages := messages |}.

(** Lines 592-652: the body of the [for] loop. *)
Definition turn_uploads (systemPrompt : string) (st : LoopState)
  : TurnOutcome :=
  let req := request_uploads systemPrompt (conversation st) in
  let requests := requests st ++ [req] in
  match messages_create client req with
  | Rejected msg =>
      Leave (Thrown (UpstreamError msg))
            {| conversation := conversation st;
               generatedFiles := generatedFiles st;
               requests := requests |}
  | Answered response =>
      let hasToolUse := existsb is_tool_use (response_content response) in
      let messages := conversation st ++ [assistant_message response] in
      if hasToolUse then
        let '(generatedFiles, toolResults) :=
          handle_blocks (response_content response) (generatedFiles st) [] in
        Continue {| conversation := push_tool_results messages toolResults;
                    generatedFiles := generatedFiles;
                    requests := requests |}
      else
        Leave Break {| conversation := messages;
                       generatedFiles := generatedFiles st;
                       requests := requests |}
  end.

(** Lines 591-653: [for (let i = 0; i < 10; i++)], with [turns] the
    number of iterations still allowed. *)
Fixpoint agentic_loop_uploads (turns : nat) (systemPrompt : string)
    (st : LoopState) : LoopExit * LoopState :=
  match turns with
  | O => (TurnsExhausted, st)
  | S turns' =>
      match turn_uploads systemPrompt st with
      | Continue st' => agentic_loop_uploads turns' systemPrompt st'
      | Leave exit st' => (exit, st')
      end
  end.

(** Lines 448-499. *)
Definition systemPrompt_uploads (existingFiles : option (list GeneratedFile))
  : string :=
  if isUpdate existingFiles then updateSystemPrompt
  else createSystemPrompt_uploads.

(** Lines 437-445 and 581-588: the state in which the loop is entered. *)
Definition initial_state_uploads (prompt : string)
    (existingFiles : option (list GeneratedFile))
    (uploadedFiles : option (list UploadedFile)) : LoopState :=
  let processedContent :=
    fst (firstMessageContent sharp prompt existingFiles uploadedFiles) in
  {| conversation := [ {| role := user; msg_content := processedContent |} ];
     generatedFiles := prepopulate existingFiles;
     requests := [] |}.

(** [createApp(prompt, existingFiles, uploadedFiles)] of the later
    revision, with [apiKey] the value of
    [process.env.ANTHROPIC_API_KEY]; the second component is the log of
    the requests sent to the client. *)
Definition createApp_uploads (apiKey : option string) (prompt : string)
    (existingFiles : option (list GeneratedFile))
    (uploadedFiles : option (list UploadedFile))
  : Result AppGenerationResult * list Request :=
  if negb (truthy apiKey) then (Throw ApiKeyNotSet, [])
  else
    match agentic_loop_uploads maxTurns (systemPrompt_uploads existingFiles)
            (initial_state_uploads prompt existingFiles uploadedFiles) with
    | (Thrown e, st) => (Throw e, requests st)
    | (_, st) => (collect_files (generatedFiles st), requests st)
    end.

End CreateAppUploads.

(* ------------------------------------------------------------------ *)
(** ** The server: authentication and the project routes

    [src/auth/authMiddleware.ts] and the project routes of
    [src/server.ts].  A handler is a function from the request and the
    state of the server to the response and the new state.  The state is
    the [projects] map, the project files on disk and the log of the
    requests sent to the model.  [jsonwebtoken], the clock and the file
    system are parameters, next to [sharp] and the client. *)

(** A [Map] with string keys, in insertion order. *)
Fixpoint jsmap_set {V : Type} (k : string) (v : V) (m : list (string * V))
  : list (string * V) :=
  match m with
  | [] => [(k, v)]
  | (k', v') :: m' =>
      if k' =? k then (k', v) :: m' else (k', v') :: jsmap_set k v m'
  end.

Definition jsmap_delete {V : Type} (k : string) (m : list (string * V))
  : list (string * V) :=
  filter (fun entry => negb (fst entry =? k)) m.

Fixpoint jsmap_get {V : Type} (k : string) (m : list (string * V)) : option V :=
  match m with
  | [] => None
  | (k', v') :: m' => if k' =? k then Some v' else jsmap_get k m'
  end.

Definition jsmap_values {V : Type} (m : list (string * V)) : list V :=
  map snd m.

(** [interface Project]; [name] is [undefined] after a rename without a
    name. *)
Record Project : Type := mkProject {
  project_id : string;
  project_name : option string;
  project_prompt : string;
  project_files : list GeneratedFile;
  project_createdAt : string;
  project_userId : string
}.

(** The parts of a request the routes read: the token cookie, the
    Authorization header, [req.params.id] and the fields of the JSON
    body. *)
Record HttpRequest : Type := mkRequestHttp {
  cookie_token : option string;
  authorization : option string;
  param_id : string;
  body_prompt : option string;
  body_projectId : option string;
  body_name : option string
}.

Record ProjectSummary : Type := mkSummary {
  summary_id : string;
  summary_name : option string;
  summary_prompt : string;
  summary_createdAt : string
}.

(** The JSON bodies the routes answer with. *)
Inductive Body : Type :=
| ErrorBody (error : string)
| ErrorDetails (error details : string) (suggestion : option string)
| ProjectsBody (projects : list ProjectSummary)
| ProjectBody (project : Project)
| SuccessBody (id : string) (name : option string)
    (files : list GeneratedFile) (message : string)
| RenamedBody (id : string) (name : option string)
| MessageBody (message : string).

Record HttpResponse : Type := mkResponseHttp {
  status : nat;
  body : Body
}.

Record ServerState : Type := mkServer {
  projects : list (string * Project);
  disk : list (string * Project);
  sent : list Request
}.

(** What the server gets from outside: the libraries, the environment
    variables, [jwt.verify(token, secret)] (the [userId] of the payload,
    or [None] when it throws), [Date.now()] and
    [new Date().toISOString()], [path.join(PROJECTS_DIR, name)], and
    whether [fs.writeFile] and [fs.unlink] on a path throw, and with what
    message. *)
Record Env : Type := mkEnv {
  env_sharp : Sharp;
  env_client : Anthropic;
  env_apiKey : option string;
  env_jwtSecret : option string;
  jwt_verify : string -> string -> option string;
  now_ms : N;
  now_iso : string;
  projects_path : string -> string;
  write_error : string -> option string;
  unlink_error : string -> option string
}.

(** [s.replace(pattern, '')] for a string pattern: the first occurrence
    goes. *)
Fixpoint remove_first (pattern s : string) : string :=
  if String.prefix pattern s
  then String.substring (String.length pattern)
         (String.length s - String.length pattern) s
  else
    match s with
    | EmptyString => EmptyString
    | String c s' => String c (remove_first pattern s')
    end.

(** [process.env.JWT_SECRET || 'makeable-secret-key-change-in-production'] *)
Definition JWT_SECRET (env : Env) : string :=
  if truthy (env_jwtSecret env)
  then match env_jwtSecret env with Some secret => secret | None => "" end
  else "makeable-secret-key-change-in-production".

(** [req.cookies?.token || req.headers.authorization?.replace('Bearer ', '')] *)
Definition request_token (req : HttpRequest) : option string :=
  if truthy (cookie_token req) then cookie_token req
  else option_map (remove_first "Bearer ") (authorization req).

(** [authMiddleware]: the response that ends the request, or the
    [userId] handed to the route. *)
Definition authMiddleware (env : Env) (req : HttpRequest)
  : HttpResponse + string :=
  match request_token req with
  | Some token =>
      if negb (truthy_string token)
      then inl {| status := 401; body := ErrorBody "Not authenticated" |}
      else
        match jwt_verify env token (JWT_SECRET env) with
        | Some userId => inr userId
        | None => inl {| status := 401; body := ErrorBody "Invalid token" |}
        end
  | None => inl {| status := 401; body := ErrorBody "Not authenticated" |}
  end.

(** [error.message] *)
Definition message_of (e : Error) : string :=
  match e with
  | ApiKeyNotSet => "ANTHROPIC_API_KEY environment variable is not set"
  | NoFilesGenerated =>
      "No files were generated. Please try again with a more specific prompt."
  | FailedToCompress => "Failed to compress image"
  | OverSizeLimit => "Image could not be compressed below 5MB limit"
  | SharpError msg => msg
  | UpstreamError msg => msg
  end.

(** The [catch] of the generate and iterate routes, lines 275-302 and
    383-410; [failure] is the error of the last answer. *)
Definition failure_response (failure message : string) : HttpResponse :=
  if includes "image exceeds" message then
    {| status := 400;
       body :=
         ErrorDetails "Image too large"
           "The image you provided is too large. Please use an image smaller than 5MB or try a different image."
           (Some "You can compress your image using online tools or take a screenshot with lower quality.") |}
  else if includes "Failed to compress image" message then
    {| status := 400;
       body :=
         ErrorDetails "Image processing failed"
           "Unable to process the provided image. Please try with a different image format (JPEG, PNG, WebP)."
           (Some "Try using a simpler image or a different format.") |}
  else
    {| status := 500; body := ErrorDetails failure message None |}.

Definition ok (body : Body) : HttpResponse := {| status := 200; body := body |}.

(** [`${Date.now()}`] *)
Definition string_of_N (n : N) : string :=
  NilEmpty.string_of_uint (N.to_uint n).

(** [`${prompt}`] *)
Definition template (prompt : option string) : string :=
  match prompt with
  | Some p => p
  | None => "undefined"
  end.

Section Server.

Variable env : Env.

(** [createApp(prompt, existingFiles)] on a prompt that may be
    [undefined], as the iterate route may call it: in update mode the
    prompt only goes through a template literal; otherwise the
    [undefined] is the content of the first message. *)
Definition createApp_any (prompt : option string)
    (existingFiles : option (list GeneratedFile))
  : Result AppGenerationResult * list Request :=
  match prompt with
  | Some p =>
      createApp (env_sharp env) (env_client env) (env_apiKey env) p existingFiles
  | None =>
      if isUpdate existingFiles then
        createApp (env_sharp env) (env_client env) (env_apiKey env)
          "undefined" existingFiles
      else if negb (truthy (env_apiKey env)) then (Throw ApiKeyNotSet, [])
      else
        match agentic_loop (env_client env) maxTurns (systemPrompt existingFiles)
                {| conversation :=
                     [ {| role := user; msg_content := ContentOther |} ];
                   generatedFiles := prepopulate existingFiles;
                   requests := [] |} with
        | (Thrown e, st) => (Throw e, requests st)
        | (_, st) => (collect_files (generatedFiles st), requests st)
        end
  end.

(** [GET /api/projects], lines 196-209. *)
Definition list_projects (userId : string) (st : ServerState) : HttpResponse :=
  ok (ProjectsBody
        (map (fun p => {| summary_id := project_id p;
                          summary_name := project_name p;
                          summary_prompt := project_prompt p;
                          summary_createdAt := project_createdAt p |})
             (filter (fun p => project_userId p =? userId)
                     (jsmap_values (projects st))))).

(** [GET /api/projects/:id], lines 212-227. *)
Definition get_project (userId : string) (req : HttpRequest) (st : ServerState)
  : HttpResponse :=
  match jsmap_get (param_id req) (projects st) with
  | None => {| status := 404; body := ErrorBody "Project not found" |}
  | Some project =>
      if negb (project_userId project =? userId)
      then {| status := 403; body := ErrorBody "Access denied" |}
      else ok (ProjectBody project)
  end.

(** [fs.writeFile(path.join(PROJECTS_DIR, `${id}.json`),
    JSON.stringify(project, null, 2))]: the message of the error it
    throws, or the new disk. *)
Definition write_project (id : string) (project : Project)
    (disk : list (string * Project)) : string + list (string * Project) :=
  let file := projects_path env (id ++ ".json") in
  match write_error env file with
  | Some message => inl message
  | None => inr (jsmap_set file project disk)
  end.

(** [POST /api/generate], lines 230-303. *)
Definition generate (userId : string) (req : HttpRequest) (st : ServerState)
  : HttpResponse * ServerState :=
  match body_prompt req with
  | Some prompt =>
      if negb (truthy_string prompt)
      then ({| status := 400; body := ErrorBody "Prompt is required" |}, st)
      else
        let '(result, log) :=
          createApp (env_sharp env) (env_client env) (env_apiKey env)
            prompt None in
        let sent := sent st ++ log in
        match result with
        | Throw e =>
            (failure_response "Failed to generate app" (message_of e),
             {| projects := projects st; disk := disk st; sent := sent |})
        | Ok result =>
            let id :=
              if truthy (body_projectId req)
              then template (body_projectId req)
              else ("project_" ++ string_of_N (now_ms env))%string in
            let name := String.substring 0 50 prompt in
            let project :=
              {| project_id := id;
                 project_name := Some name;
                 project_prompt := prompt;
                 project_files := files result;
                 project_createdAt := now_iso env;
                 project_userId := userId |} in
            let projects := jsmap_set id project (projects st) in
            match write_project id project (disk st) with
            | inl message =>
                (failure_response "Failed to generate app" message,
                 {| projects := projects; disk := disk st; sent := sent |})
            | inr disk =>
                (ok (SuccessBody id (Some name) (files result)
                       "App generated successfully"),
                 {| projects := projects; disk := disk; sent := sent |})
            end
        end
  | None => ({| status := 400; body := ErrorBody "Prompt is required" |}, st)
  end.

(** [PATCH /api/projects/:id/rename], lines 306-339. *)
Definition rename (userId : string) (req : HttpRequest) (st : ServerState)
  : HttpResponse * ServerState :=
  let projectId := param_id req in
  match jsmap_get projectId (projects st) with
  | None => ({| status := 404; body := ErrorBody "Project not found" |}, st)
  | Some project =>
      if negb (project_userId project =? userId)
      then ({| status := 403; body := ErrorBody "Access denied" |}, st)
      else
        let project :=
          {| project_id := project_id project;
             project_name := body_name req;
             project_prompt := project_prompt project;
             project_files := project_files project;
             project_createdAt := project_createdAt project;
             project_userId := project_userId project |} in
        let projects := jsmap_set projectId project (projects st) in
        match write_project projectId project (disk st) with
        | inl message =>
            ({| status := 500;
                body := ErrorDetails "Failed to rename project" message None |},
             {| projects := projects; disk := disk st; sent := sent st |})
        | inr disk =>
            (ok (RenamedBody (project_id project) (project_name project)),
             {| projects := projects; disk := disk; sent := sent st |})
        end
  end.

(** [POST /api/projects/:id/iterate], lines 342-411. *)
Definition iterate (userId : string) (req : HttpRequest) (st : ServerState)
  : HttpResponse * ServerState :=
  let projectId := param_id req in
  match jsmap_get projectId (projects st) with
  | None => ({| status := 404; body := ErrorBody "Project not found" |}, st)
  | Some existingProject =>
      if negb (project_userId existingProject =? userId)
      then ({| status := 403; body := ErrorBody "Access denied" |}, st)
      else
        let '(result, log) :=
          createApp_any (body_prompt req)
            (Some (project_files existingProject)) in
        let sent := sent st ++ log in
        match result with
        | Throw e =>
            (failure_response "Failed to update project" (message_of e),
             {| projects := projects st; disk := disk st; sent := sent |})
        | Ok result =>
            let existingProject :=
              {| project_id := project_id existingProject;
                 project_name := project_name existingProject;
                 project_prompt :=
                   (project_prompt existingProject ++ nl ++ nl ++
                    "Iteration: " ++ template (body_prompt req))%string;
                 project_files := files result;
                 project_createdAt := project_createdAt existingProject;
                 project_userId := project_userId existingProject |} in
            let projects := jsmap_set projectId existingProject (projects st) in
            match write_project projectId existingProject (disk st) with
            | inl message =>
                (failure_response "Failed to update project" message,
                 {| projects := projects; disk := disk st; sent := sent |})
            | inr disk =>
                (ok (SuccessBody (project_id existingProject)
                       (project_name existingProject)
                       (project_files existingProject)
                       "Project updated successfully"),
                 {| projects := projects; disk := disk; sent := sent |})
            end
        end
  end.

(** A route behind [authMiddleware]. *)
Definition protected
    (handler : string -> HttpRequest -> ServerState -> HttpResponse * ServerState)
    (req : HttpRequest) (st : ServerState) : HttpResponse * ServerState :=
  match authMiddleware env req with
  | inl response => (response, st)
  | inr userId => handler userId req st
  end.

(** The five project routes of [server.ts]. *)
Inductive Route : Type :=
| GetProjects
| GetProject
| PostGenerate
| PatchRename
| PostIterate.

Definition handler_of (route : Route)
  : string -> HttpRequest -> ServerState -> HttpResponse * ServerState :=
  match route with
  | GetProjects => fun userId _ st => (list_projects userId st, st)
  | GetProject => fun userId req st => (get_project userId req st, st)
  | PostGenerate => generate
  | PatchRename => rename
  | PostIterate => iterate
  end.

Definition serve (route : Route) (req : HttpRequest) (st : ServerState)
  : HttpResponse * ServerState :=
  protected (handler_of route) req st.

End Server.

(** An environment for running the routes: the token is the user id
    behind "jwt:", the key is set and the disk never fails. *)
Definition stub_env (client : Anthropic) : Env :=
  {| env_sharp := stub_sharp;
     env_client := client;
     env_apiKey := Some "sk-test";
     env_jwtSecret := None;
     jwt_verify := fun token _ =>
       if String.prefix "jwt:" token
       then Some (String.substring 4 (String.length token - 4) token)
       else None;
     now_ms := 1700000000000%N;
     now_iso := "2023-11-14T22:13:20.000Z";
     projects_path := fun name => ("projects/" ++ name)%string;
     write_error := fun _ => None;
     unlink_error := fun _ => None |}.

(** What the routes keep true of the projects in memory: ids are not
    repeated, a project is stored under its own id, and it has at least
    one file and no two files with the same path. *)
Definition stored_well (st : ServerState) : Prop :=
  NoDup (map fst (projects st)) /\
  forall id project,
    In (id, project) (projects st) ->
    project_id project = id /\
    project_files project <> [] /\
    NoDup (map path (project_files project)).


(* ------------------------------------------------------------------ *)
(** ** The user storage

    The class [UserStorage]: the [users] map and the file it is saved
    to, which is modelled by the map it was last written from.  [bcrypt],
    [String.prototype.toLowerCase] and the file system are parameters;
    the clock and the salt [bcrypt.hash] draws are arguments of the
    methods that use them. *)

Inductive UserRole : Type := admin | student.

Inductive Course : Type := DesignThinking | WamslerProjekt.

(** [interface User] *)
Record User : Type := mkUser {
  user_id : string;
  user_email : string;
  user_passwordHash : string;
  user_name : string;
  user_profilePicture : option string;
  user_role : UserRole;
  user_course : option Course;
  user_createdAt : string
}.

(** [Partial<User>]: a field is [Some] when the object has the key. *)
Record UserUpdates : Type := mkUpdates {
  upd_id : option string;
  upd_email : option string;
  upd_passwordHash : option string;
  upd_name : option string;
  upd_profilePicture : option (option string);
  upd_role : option UserRole;
  upd_course : option (option Course);
  upd_createdAt : option string
}.

Record UserEnv : Type := mkUserEnv {
  toLowerCase : string -> string;
  bcrypt_hash : string -> string -> string;     (* password, salt *)
  bcrypt_compare : string -> string -> bool;    (* password, hash *)
  save_error : option string                    (* fs.writeFileSync throws *)
}.

Record UserStorage : Type := mkStorage {
  users : list (string * User);
  users_file : list (string * User)
}.

(** What a method call comes to: a value, or an [Error] with a message. *)
Inductive Outcome (A : Type) : Type :=
| Returned (a : A)
| Threw (message : string).

Arguments Returned {A} a.
Arguments Threw {A} message.

(** The arguments of a call of [createUser], with what the platform
    hands it once it resumes: [reg_salt] for the salt [bcrypt.hash]
    draws, [reg_now] for [Date.now()] and [reg_now_iso] for
    [new Date().toISOString()]. *)
Record Registration : Type := mkRegistration {
  reg_email : string;
  reg_password : string;
  reg_name : string;
  reg_role : UserRole;
  reg_course : option Course;
  reg_salt : string;
  reg_now : N;
  reg_now_iso : string
}.

Section UserStorageMethods.

Variable uenv : UserEnv.

(** [save()]: the error it throws, or the storage with the file written. *)
Definition save (users : list (string * User)) (store : UserStorage)
  : string + UserStorage :=
  match save_error uenv with
  | Some message => inl message
  | None => inr {| users := users; users_file := users |}
  end.

(** [findByEmail(email)] *)
Definition findByEmail (email : string) (store : UserStorage) : option User :=
  find (fun account => user_email account =? toLowerCase uenv email)
       (jsmap_values (users store)).

(** [findById(id)] *)
Definition findById (id : string) (store : UserStorage) : option User :=
  jsmap_get id (users store).

(** [getAllUsers()] *)
Definition getAllUsers (store : UserStorage) : list User :=
  jsmap_values (users store).

(** [createUser(email, password, name, role, course)] is an [async]
    method with one [await], on [bcrypt.hash] at line 58: the check of
    lines 54-56 runs when the method is called, and lines 59-71 run once
    the hash has resolved, on the storage as it is by then, which other
    calls may have changed in between.  The two halves are modelled
    apart.

    [createUser_check]: lines 54-56, the message of the error thrown, or
    [None] when the call goes on to [bcrypt.hash]. *)
Definition createUser_check (email : string) (store : UserStorage)
  : option string :=
  match findByEmail email store with
  | Some _ => Some "User with this email already exists"
  | None => None
  end.

(** [createUser_resume]: lines 58-71, with [salt] for the salt of
    [bcrypt.hash(password, 10)], [now] for [Date.now()] and [now_iso] for
    [new Date().toISOString()], on the storage the call finds when it
    resumes.  The email is not looked up again. *)
Definition createUser_resume (now : N) (now_iso salt : string)
    (email password name : string) (role : UserRole) (course : option Course)
    (store : UserStorage) : Outcome User * UserStorage :=
  let passwordHash := bcrypt_hash uenv password salt in
  let account :=
    {| user_id := string_of_N now;
       user_email := toLowerCase uenv email;
       user_passwordHash := passwordHash;
       user_name := name;
       user_profilePicture := None;
       user_role := role;
       user_course :=
         match role with student => course | admin => None end;
       user_createdAt := now_iso |} in
  let users := jsmap_set (user_id account) account (users store) in
  match save users store with
  | inl message =>
      (Threw message, {| users := users; users_file := users_file store |})
  | inr store' => (Returned account, store')
  end.

(** A call of [createUser] that nothing overlaps: the storage it resumes
    on is the storage it checked. *)
Definition createUser_uninterrupted (now : N) (now_iso salt : string)
    (email password name : string) (role : UserRole) (course : option Course)
    (store : UserStorage) : Outcome User * UserStorage :=
  match createUser_check email store with
  | Some message => (Threw message, store)
  | None =>
      createUser_resume now now_iso salt email password name role course store
  end.

(** Two calls of [createUser] that overlap, as two requests to register
    that arrive together make them: the second is called while the first
    awaits its hash, so both checks read the storage as the calls found
    it; then the first resumes, and then the second, on the storage the
    first has left. *)
Definition createUser_overlapping (first second : Registration)
    (store : UserStorage) : (Outcome User * Outcome User) * UserStorage :=
  let resume (r : Registration) :=
    createUser_resume (reg_now r) (reg_now_iso r) (reg_salt r) (reg_email r)
      (reg_password r) (reg_name r) (reg_role r) (reg_course r) in
  let check1 := createUser_check (reg_email first) store in
  let check2 := createUser_check (reg_email second) store in
  let '(outcome1, store1) :=
    match check1 with
    | Some message => (Threw message, store)
    | None => resume first store
    end in
  let '(outcome2, store2) :=
    match check2 with
    | Some message => (Threw message, store1)
    | None => resume second store1
    end in
  ((outcome1, outcome2), store2).

(** [verifyPassword(email, password)] *)
Definition verifyPassword (email password : string) (store : UserStorage)
  : option User :=
  match findByEmail email store with
  | None => None
  | Some account =>
      if bcrypt_compare uenv password (user_passwordHash account)
      then Some account else None
  end.

Definition override {A : Type} (update : option A) (current : A) : A :=
  match update with
  | Some a => a
  | None => current
  end.

(** [{ ...user, ...updates, id, email: user.email }] *)
Definition merge_updates (id : string) (account : User) (updates : UserUpdates)
  : User :=
  {| user_id := id;
     user_email := user_email account;
     user_passwordHash := override (upd_passwordHash updates) (user_passwordHash account);
     user_name := override (upd_name updates) (user_name account);
     user_profilePicture :=
       override (upd_profilePicture updates) (user_profilePicture account);
     user_role := override (upd_role updates) (user_role account);
     user_course := override (upd_course updates) (user_course account);
     user_createdAt := override (upd_createdAt updates) (user_createdAt account) |}.

(** [updateUser(id, updates)] *)
Definition updateUser (id : string) (updates : UserUpdates)
    (store : UserStorage) : Outcome (option User) * UserStorage :=
  match jsmap_get id (users store) with
  | None => (Returned None, store)
  | Some account =>
      let updatedUser := merge_updates id account updates in
      let users := jsmap_set id updatedUser (users store) in
      match save users store with
      | inl message =>
          (Threw message, {| users := users; users_file := users_file store |})
      | inr store' => (Returned (Some updatedUser), store')
      end
  end.


End UserStorageMethods.

(** No two stored users have the same email. *)
Definition emails_distinct (store : UserStorage) : Prop :=
  NoDup (map user_email (jsmap_values (users store))).

(** A platform for running the storage: lower-casing of the letters A
    to Z, and a toy [bcrypt] whose hash is the password behind its
    salt. *)
Definition lower_ascii (c : ascii) : ascii :=
  let n := nat_of_ascii c in
  if ((65 <=? n) && (n <=? 90))%nat then ascii_of_nat (n + 32) else c.

Fixpoint lower_string (s : string) : string :=
  match s with
  | EmptyString => EmptyString
  | String c s' => String (lower_ascii c) (lower_string s')
  end.

Definition stub_user_env : UserEnv :=
  {| toLowerCase := lower_string;
     bcrypt_hash := fun password salt => (salt ++ password)%string;
     bcrypt_compare := fun password hash =>
       String.substring (String.length hash - String.length password)
         (String.length password) hash =? password;
     save_error := None |}.

(** [DELETE /api/projects/:id] of the later revision of the server
    (lines 366-396 there): the owner of a project and any admin may delete
    it.  [fs.unlink] is followed by a [catch] that only logs, so the route
    goes on when the file cannot be removed. *)
Definition delete_project (env : Env) (store : UserStorage)
    (userId : string) (req : HttpRequest) (st : ServerState)
  : HttpResponse * ServerState :=
  let id := param_id req in
  match jsmap_get id (projects st) with
  | None => ({| status := 404; body := ErrorBody "Project not found" |}, st)
  | Some project =>
      let is_admin :=
        match findById userId store with
        | Some account =>
            match user_role account with admin => true | student => false end
        | None => false
        end in
      if negb (project_userId project =? userId) && negb is_admin
      then ({| status := 403; body := ErrorBody "Access denied" |}, st)
      else
        let projectPath := projects_path env (id ++ ".json") in
        (ok (MessageBody "Project deleted"),
         {| projects := jsmap_delete id (projects st);
            disk :=
              match unlink_error env projectPath with
              | Some _ => disk st
              | None => jsmap_delete projectPath (disk st)
              end;
            sent := sent st |})
  end.

(** A server with one project of two files, owned by alice, and a
    storage with alice, a student, and root, an admin. *)
Definition sample_project : Project :=
  {| project_id := "project_1";
     project_name := Some "a timer";
     project_prompt := "a timer";
     project_files :=
       [ {| path := "index.html"; content := "OLD" |};
         {| path := "app.js"; content := "tick()" |} ];
     project_createdAt := "2023-11-14T22:13:20.000Z";
     project_userId := "alice" |}.

Definition sample_state : ServerState :=
  {| projects := [("project_1", sample_project)];
     disk := [("projects/project_1.json", sample_project)];
     sent := [] |}.

Definition sample_request (token id : string) (prompt : option string)
  : HttpRequest :=
  {| cookie_token := Some token;
     authorization := None;
     param_id := id;
     body_prompt := prompt;
     body_projectId := None;
     body_name := None |}.

Definition sample_account (id email : string) (account_role : UserRole) : User :=
  {| user_id := id;
     user_email := email;
     user_passwordHash := "salt-secret";
     user_name := id;
     user_profilePicture := None;
     user_role := account_role;
     user_course := None;
     user_createdAt := "2023-11-14T22:13:20.000Z" |}.

Definition sample_store : UserStorage :=
  let accounts :=
    [ ("alice", sample_account "alice" "alice@example.com" student);
      ("root", sample_account "root" "root@example.com" admin) ] in
  {| users := accounts; users_file := accounts |}.

(** An uploaded image with a URL whose data is not a data URL. *)
Definition sample_upload : UploadedFile :=
  {| upload_name := "dog.jpg";
     upload_type := "image/jpeg";
     upload_data := "no separator here";
     upload_url := Some "https://cdn.example/dog.jpg" |}.

(** A client that rewrites app.js and then stops. *)
Definition script_client : Anthropic :=
  scripted_client
    [ [ToolUseBlock "toolu_1" "write_file"
         {| input_path := Some "app.js"; input_content := Some "tock()" |}] ].

(* ------------------------------------------------------------------ *)
(** ** Target dimensions *)

Section TargetDimensions.

Local Open Scope Z_scope.

Lemma Math_round_div_bounds (a b : Z) :
  0 < b ->
  2 * b * Math_round_div a b <= 2 * a + b < 2 * b * Math_round_div a b + 2 * b.
Proof.
  intros Hb. unfold Math_round_div.
  pose proof (Z.mul_div_le (2 * a + b) (2 * b) ltac:(lia)).
  pose proof (Z.mul_succ_div_gt (2 * a + b) (2 * b) ltac:(lia)).
  lia.
Qed.

Lemma Math_round_div_nonneg (a b : Z) :
  0 <= a -> 0 < b -> 0 <= Math_round_div a b.
Proof.
  intros Ha Hb. unfold Math_round_div. apply Z.div_pos; lia.
Qed.

(** C8.  For an image whose width and height are known (both positive),
    the dimensions [compressImage] hands to [resize] are each at most the
    corresponding input dimension (no upscaling), the longer side is the
    input's longer side capped at 1024, an image that already fits is left
    as it is, and the aspect ratio is kept up to the rounding of the
    shorter side: the cross product [w' * h - h' * w] is at most half of
    the longer input side. *)
Theorem target_dimensions_never_upscale (w h : Z) :
  0 < w -> 0 < h ->
  exists w' h',
    target_dimensions (Some w) (Some h) = (Some w', Some h') /\
    0 <= w' <= w /\ 0 <= h' <= h /\
    Z.max w' h' = Z.min (Z.max w h) maxDimension /\
    (Z.max w h <= maxDimension -> w' = w /\ h' = h) /\
    2 * Z.abs (w' * h - h' * w) <= Z.max w h.
Proof.
  intros Hw Hh. unfold target_dimensions, truthy_number, maxDimension.
  replace (w =? 0) with false by (symmetry; apply Z.eqb_neq; lia).
  replace (h =? 0) with false by (symmetry; apply Z.eqb_neq; lia).
  cbn [negb andb].
  destruct (Z.gtb_spec w h) as [Hwh | Hwh].
  - destruct (Z.gtb_spec w 1024) as [Hbig | Hsmall].
    + pose proof (Math_round_div_bounds (h * 1024) Hw) as Hr.
      pose proof (@Math_round_div_nonneg (h * 1024) w ltac:(lia) Hw) as Hn.
      exists 1024, (Math_round_div (h * 1024) w).
      repeat split; try lia; try nia.
    + exists w, h. repeat split; try lia.
  - destruct (Z.gtb_spec h 1024) as [Hbig | Hsmall].
    + pose proof (Math_round_div_bounds (w * 1024) Hh) as Hr.
      pose proof (@Math_round_div_nonneg (w * 1024) h ltac:(lia) Hh) as Hn.
      exists (Math_round_div (w * 1024) h), 1024.
      repeat split; try lia; try nia.
    + exists w, h. repeat split; try lia.
Qed.

Lemma target_dimensions_never_upscale_witness :
  0 < 4000 /\ 0 < 3000 /\
  exists w' h',
    target_dimensions (Some 4000) (Some 3000) = (Some w', Some h') /\
    0 <= w' <= 4000 /\ 0 <= h' <= 3000 /\
    Z.max w' h' = Z.min (Z.max 4000 3000) maxDimension /\
    (Z.max 4000 3000 <= maxDimension -> w' = 4000 /\ h' = 3000) /\
    2 * Z.abs (w' * 3000 - h' * 4000) <= Z.max 4000 3000.
Proof.
  split; [lia | split; [lia | apply (@target_dimensions_never_upscale 4000 3000); lia]].
Defined.

End TargetDimensions.

(* ------------------------------------------------------------------ *)
(** ** The normalizer *)

Section Normalizer.

Variable sharp : Sharp.

Local Open Scope Z_scope.

Lemma qualities_descending : qualities = 80 :: descending 7 80.
Proof. reflexivity. Qed.

Lemma reduce_quality_first_fitting (imageBuffer : Buffer sharp)
    (width height : option Z) (maxBytes : Z) :
  forall (n fuel : nat) (q : Z) (b : Buffer sharp),
    q = 10 + 10 * Z.of_nat n -> (n <= fuel)%nat ->
    exists r,
      reduce_quality sharp fuel imageBuffer width height maxBytes q b = Some r /\
      size_check sharp maxBytes r =
        if byteLength sharp b <=? maxBytes then Ok (q, b)
        else first_fitting sharp (resize_jpeg sharp imageBuffer width height)
               maxBytes (descending n q).
Proof.
  induction n as [| n IH]; intros fuel q b Hq Hfuel.
  - subst q. cbn [Z.of_nat descending first_fitting].
    destruct fuel; cbn [reduce_quality];
      replace (10 + 10 * 0 >? 10) with false by reflexivity;
      rewrite andb_false_r; eexists; (split; [reflexivity |]);
      cbn [size_check]; rewrite Z.gtb_ltb, Z.ltb_antisym;
      destruct (byteLength sharp b <=? maxBytes); reflexivity.
  - destruct fuel as [| fuel]; [lia |].
    cbn [reduce_quality descending first_fitting].
    assert (Hgt : (q >? 10) = true) by (apply Z.gtb_lt; lia).
    rewrite Hgt, andb_true_r, Z.gtb_ltb, Z.ltb_antisym.
    destruct (byteLength sharp b <=? maxBytes) eqn:Hfit; cbn [negb].
    + eexists; split; [reflexivity |]. cbn [size_check].
      rewrite Z.gtb_ltb, Z.ltb_antisym, Hfit. reflexivity.
    + destruct (resize_jpeg sharp imageBuffer width height (q - 10))
        as [b' | e] eqn:Henc.
      * apply IH; lia.
      * eexists; split; reflexivity.
Qed.

Lemma compressImage_body_spec (fuel : nat) (imageBuffer : Buffer sharp)
    (maxSizeMB : Z) :
  (7 <= fuel)%nat ->
  exists r,
    compressImage_body sharp fuel imageBuffer maxSizeMB = Some r /\
    match r with Ok x => Ok x | Throw _ => Throw FailedToCompress end =
      normalize_spec sharp imageBuffer (maxSizeMB * 1024 * 1024).
Proof.
  intros Hfuel. unfold compressImage_body, normalize_spec.
  destruct (metadata sharp imageBuffer) as [[width height] | e].
  2: { eexists; split; reflexivity. }
  destruct (target_dimensions width height) as [w' h'].
  rewrite qualities_descending. cbn [first_fitting].
  destruct (resize_jpeg sharp imageBuffer w' h' 80) as [b | e].
  2: { eexists; split; reflexivity. }
  destruct (@reduce_quality_first_fitting imageBuffer w' h'
              (maxSizeMB * 1024 * 1024) 7%nat fuel 80 b eq_refl Hfuel)
    as [r [Hr Hcheck]].
  rewrite Hr, <- Hcheck. destruct r as [[q b'] | e].
  - cbn [size_check].
    destruct (byteLength sharp b' >? maxSizeMB * 1024 * 1024);
      eexists; split; reflexivity.
  - eexists; split; reflexivity.
Qed.

Lemma compressImage_normalize_spec (imageBuffer : Buffer sharp) (maxSizeMB : Z) :
  compressImage sharp imageBuffer maxSizeMB =
    bind (normalize_spec sharp imageBuffer (maxSizeMB * 1024 * 1024))
         (fun r => Ok (snd r)).
Proof.
  unfold compressImage, quality_fuel.
  destruct (@compressImage_body_spec 7%nat imageBuffer maxSizeMB (le_n _))
    as [r [Hr Hspec]].
  rewrite Hr, <- Hspec. destruct r; reflexivity.
Qed.

(** What a successful [first_fitting] found, and when it fails. *)
Lemma first_fitting_ok (encode : Z -> Result (Buffer sharp)) (maxBytes : Z) :
  forall qs q b,
    first_fitting sharp encode maxBytes qs = Ok (q, b) ->
    exists tried rest,
      qs = tried ++ q :: rest /\
      encode q = Ok b /\ byteLength sharp b <= maxBytes /\
      forall q', In q' tried ->
        exists b', encode q' = Ok b' /\ maxBytes < byteLength sharp b'.
Proof.
  induction qs as [| q0 qs IH]; intros q b H; cbn [first_fitting] in H.
  - discriminate.
  - destruct (encode q0) as [b0 | e] eqn:Henc; [| discriminate].
    destruct (Z.leb_spec (byteLength sharp b0) maxBytes) as [Hfit | Hover].
    + injection H as <- <-. exists [], qs. repeat split; auto.
      intros q' [].
    + destruct (IH _ _ H) as (tried & rest & -> & Hq & Hb & Htried).
      exists (q0 :: tried), rest. repeat split; auto.
      intros q' [<- | Hin]; [exists b0; auto | auto].
Qed.

Lemma first_fitting_none (encode : Z -> Result (Buffer sharp)) (maxBytes : Z) :
  forall qs,
    (forall q, In q qs ->
       forall b, encode q = Ok b -> maxBytes < byteLength sharp b) ->
    first_fitting sharp encode maxBytes qs = Throw FailedToCompress.
Proof.
  induction qs as [| q0 qs IH]; intros Hall; cbn [first_fitting].
  - reflexivity.
  - destruct (encode q0) as [b0 | e] eqn:Henc; [| reflexivity].
    pose proof (Hall q0 (or_introl eq_refl) b0 Henc) as Hover.
    destruct (Z.leb_spec (byteLength sharp b0) maxBytes); [lia |].
    apply IH. intros q Hq. apply Hall. now right.
Qed.

(** C7.  [compressImage] is the normalizer of the specification: it
    re-encodes at the target dimensions at quality 80, 70, ..., 10 and
    returns the first encoding of at most [maxSizeMB * 1024 * 1024] bytes.
    The [while] loop needs at most seven iterations.  A buffer it returns
    is never over the ceiling; it is the encoding at some quality [q] of
    the list, every quality tried before [q] having given an encoding over
    the ceiling.  When every encoding down to quality 10 is over the
    ceiling (or sharp throws) it fails with 'Failed to compress image'. *)
Theorem compressImage_first_fitting (imageBuffer : Buffer sharp) (maxSizeMB : Z) :
  let maxBytes := maxSizeMB * 1024 * 1024 in
  (forall fuel, (quality_fuel <= fuel)%nat ->
     compressImage_body sharp fuel imageBuffer maxSizeMB <> None) /\
  compressImage sharp imageBuffer maxSizeMB =
    bind (normalize_spec sharp imageBuffer maxBytes) (fun r => Ok (snd r)) /\
  (forall b, compressImage sharp imageBuffer maxSizeMB = Ok b ->
     byteLength sharp b <= maxBytes /\
     exists width height q tried rest,
       metadata sharp imageBuffer = Ok (width, height) /\
       qualities = tried ++ q :: rest /\
       let '(w, h) := target_dimensions width height in
       resize_jpeg sharp imageBuffer w h q = Ok b /\
       forall q', In q' tried ->
         exists b', resize_jpeg sharp imageBuffer w h q' = Ok b' /\
                    maxBytes < byteLength sharp b') /\
  (forall width height,
     metadata sharp imageBuffer = Ok (width, height) ->
     (let '(w, h) := target_dimensions width height in
      forall q, In q qualities ->
        forall b, resize_jpeg sharp imageBuffer w h q = Ok b ->
                  maxBytes < byteLength sharp b) ->
     compressImage sharp imageBuffer maxSizeMB = Throw FailedToCompress) /\
  (forall e, compressImage sharp imageBuffer maxSizeMB = Throw e ->
     e = FailedToCompress).
Proof.
  intros maxBytes. repeat split.
  - intros fuel Hfuel.
    destruct (@compressImage_body_spec fuel imageBuffer maxSizeMB Hfuel)
      as [r [Hr _]].
    rewrite Hr. discriminate.
  - apply compressImage_normalize_spec.
  - rewrite compressImage_normalize_spec in H. unfold normalize_spec in H.
    destruct (metadata sharp imageBuffer) as [[width height] | e];
      [| discriminate].
    destruct (target_dimensions width height) as [w h].
    fold maxBytes in H.
    destruct (first_fitting sharp (resize_jpeg sharp imageBuffer w h) maxBytes
                qualities) as [[q b'] | e] eqn:Hfit; [| discriminate].
    cbn in H. injection H as ->.
    destruct (first_fitting_ok _ _ _ Hfit) as (tried & rest & _ & _ & Hb & _).
    exact Hb.
  - rewrite compressImage_normalize_spec in H. unfold normalize_spec in H.
    destruct (metadata sharp imageBuffer) as [[width height] | e] eqn:Hmeta;
      [| discriminate].
    exists width, height.
    destruct (target_dimensions width height) as [w h].
    fold maxBytes in H.
    destruct (first_fitting sharp (resize_jpeg sharp imageBuffer w h) maxBytes
                qualities) as [[q b'] | e] eqn:Hfit; [| discriminate].
    cbn in H. injection H as ->.
    destruct (first_fitting_ok _ _ _ Hfit) as (tried & rest & Hqs & Hq & _ & Ht).
    exists q, tried, rest. repeat split; auto.
  - intros width height Hmeta Hall.
    rewrite compressImage_normalize_spec. unfold normalize_spec.
    rewrite Hmeta. destruct (target_dimensions width height) as [w h].
    fold maxBytes. rewrite first_fitting_none; [reflexivity | exact Hall].
  - intros e He. unfold compressImage in He.
    destruct (compressImage_body sharp quality_fuel imageBuffer maxSizeMB)
      as [[r | e'] |]; cbn in He; congruence.
Qed.

End Normalizer.

(* ------------------------------------------------------------------ *)
(** ** The message-content pipeline *)

Section MessageContent.

Variable sharp : Sharp.

Lemma process_item_acc (item : ContentItem)
    (processedContent : list ContentItem) (calls : list (Buffer sharp)) :
  process_item sharp item processedContent calls =
    (processedContent ++ emitted sharp item, calls ++ normalized sharp item).
Proof.
  unfold emitted, normalized, process_item.
  destruct (item_source item) as [source |]; cbn [fst snd app];
    [| now rewrite app_nil_r].
  destruct ((item_type item =? "image") && (source_type source =? "base64"));
    cbn [fst snd app]; [| now rewrite app_nil_r].
  destruct (data source) as [encoded |]; cbn [fst snd app];
    [| now rewrite !app_nil_r].
  destruct (negb (validateImageSize sharp (from_base64 sharp encoded)
                    defaultMaxSizeMB)); cbn [fst snd app];
    [| now rewrite app_nil_r].
  destruct (compressImage sharp (from_base64 sharp encoded) defaultMaxSizeMB);
    cbn [fst snd app]; now rewrite ?app_nil_r.
Qed.

Lemma process_items_flat_map (items : list ContentItem) :
  forall (processedContent : list ContentItem) (calls : list (Buffer sharp)),
    process_items sharp items processedContent calls =
      (processedContent ++ flat_map (emitted sharp) items,
       calls ++ flat_map (normalized sharp) items).
Proof.
  induction items as [| item items IH]; intros processedContent calls;
    cbn [process_items flat_map].
  - now rewrite !app_nil_r.
  - rewrite process_item_acc, IH, <- !app_assoc. reflexivity.
Qed.

Lemma validateImageSize_iff (buffer : Buffer sharp) (maxSizeMB : Z) :
  validateImageSize sharp buffer maxSizeMB = true <->
  (byteLength sharp buffer <= maxSizeMB * 1024 * 1024)%Z.
Proof. unfold validateImageSize. apply Z.leb_le. Qed.

Lemma item_outcome (item : ContentItem) :
  match payload sharp item with
  | Some b =>
      if (byteLength sharp b <=? sizeCeiling)%Z
      then emitted sharp item = [item] /\ normalized sharp item = []
      else normalized sharp item = [b] /\
           emitted sharp item =
             match compressImage sharp b defaultMaxSizeMB with
             | Ok c => [with_data item (to_base64 sharp c)]
             | Throw _ => []
             end
  | None =>
      normalized sharp item = [] /\
      emitted sharp item = if is_inline_image item then [] else [item]
  end.
Proof.
  unfold payload, is_inline_image, emitted, normalized, process_item, with_data.
  destruct (item_source item) as [source |]; [| now split].
  destruct ((item_type item =? "image") && (source_type source =? "base64"));
    [| now split].
  destruct (data source) as [encoded |]; cbn [option_map]; [| now split].
  unfold validateImageSize. fold sizeCeiling.
  destruct (byteLength sharp (from_base64 sharp encoded) <=? sizeCeiling)%Z;
    cbn [negb]; [now split |].
  destruct (compressImage sharp (from_base64 sharp encoded) defaultMaxSizeMB);
    now split.
Qed.

(** C9.  [validateImageSize] holds exactly of the buffers of at most
    [maxSizeMB * 1024 * 1024] bytes.  On an array, [processMessageContent]
    treats the items one by one and emits what it keeps in the order of
    the input.  An inline (base64) image whose decoded payload is within
    the 5 MB ceiling is emitted unchanged and [compressImage] is not called
    for it.  An oversized one is handed to [compressImage]; it is emitted
    with its data replaced by the compressed payload when that succeeds
    and dropped when it fails, the items after it being treated all the
    same.  An item that is not an inline image is emitted unchanged (and
    an inline image without data, which cannot be decoded, is dropped).
    [compressImage] is only ever called on buffers over the ceiling. *)
Theorem processMessageContent_partial_degradation (items : list ContentItem) :
  (forall buffer maxSizeMB,
     validateImageSize sharp buffer maxSizeMB = true <->
     (byteLength sharp buffer <= maxSizeMB * 1024 * 1024)%Z) /\
  processMessageContent sharp (ContentArray items) =
    (ContentArray (flat_map (emitted sharp) items),
     flat_map (normalized sharp) items) /\
  (forall item,
     match payload sharp item with
     | Some b =>
         if (byteLength sharp b <=? sizeCeiling)%Z
         then emitted sharp item = [item] /\ normalized sharp item = []
         else normalized sharp item = [b] /\
              emitted sharp item =
                match compressImage sharp b defaultMaxSizeMB with
                | Ok c => [with_data item (to_base64 sharp c)]
                | Throw _ => []
                end
     | None =>
         normalized sharp item = [] /\
         emitted sharp item = if is_inline_image item then [] else [item]
     end) /\
  (forall b,
     In b (snd (processMessageContent sharp (ContentArray items))) ->
     (sizeCeiling < byteLength sharp b)%Z).
Proof.
  assert (Hrun :
    processMessageContent sharp (ContentArray items) =
      (ContentArray (flat_map (emitted sharp) items),
       flat_map (normalized sharp) items)).
  { unfold processMessageContent. now rewrite process_items_flat_map. }
  split; [apply validateImageSize_iff |].
  split; [exact Hrun |].
  split; [apply item_outcome |].
  intros b Hb. rewrite Hrun in Hb. cbn [snd] in Hb.
  apply in_flat_map in Hb. destruct Hb as (item & _ & Hb).
  pose proof (item_outcome item) as Hitem.
  destruct (payload sharp item) as [b0 |].
  - destruct (Z.leb_spec (byteLength sharp b0) sizeCeiling) as [_ | Hover].
    + destruct Hitem as [_ Hn]. rewrite Hn in Hb. destruct Hb.
    + destruct Hitem as [Hn _]. rewrite Hn in Hb.
      destruct Hb as [<- | []]. exact Hover.
  - destruct Hitem as [Hn _]. rewrite Hn in Hb. destruct Hb.
Qed.

End MessageContent.

(* ------------------------------------------------------------------ *)
(** ** The map of generated files *)

Module FileMapFacts.

Lemma get_set_same (k v : string) (m : FileMap) :
  map_get k (map_set k v m) = Some v.
Proof.
  induction m as [| [k' v'] m IH]; cbn.
  - now rewrite String.eqb_refl.
  - destruct (k' =? k) eqn:E; cbn; rewrite E; auto.
Qed.

Lemma get_set_other (k k' v : string) (m : FileMap) :
  k <> k' -> map_get k' (map_set k v m) = map_get k' m.
Proof.
  intros Hne. induction m as [| [k0 v0] m IH]; cbn.
  - destruct (String.eqb_spec k k'); [contradiction | reflexivity].
  - destruct (String.eqb_spec k0 k) as [-> | Hk0]; cbn.
    + destruct (String.eqb_spec k k'); [contradiction | reflexivity].
    + destruct (k0 =? k'); auto.
Qed.

Lemma keys_set_in (k v : string) (m : FileMap) :
  In k (map_keys m) -> map_keys (map_set k v m) = map_keys m.
Proof.
  induction m as [| [k0 v0] m IH]; cbn; intros Hin.
  - destruct Hin.
  - destruct (String.eqb_spec k0 k) as [-> | Hk0]; cbn; [reflexivity |].
    f_equal. apply IH. destruct Hin; [contradiction | assumption].
Qed.

Lemma set_fresh (k v : string) (m : FileMap) :
  ~ In k (map_keys m) -> map_set k v m = m ++ [(k, v)].
Proof.
  induction m as [| [k0 v0] m IH]; cbn; intros Hnin.
  - reflexivity.
  - destruct (String.eqb_spec k0 k) as [-> | Hk0].
    + exfalso. apply Hnin. now left.
    + f_equal. apply IH. intros Hin. apply Hnin. now right.
Qed.

Lemma keys_set_nodup (k v : string) (m : FileMap) :
  NoDup (map_keys m) -> NoDup (map_keys (map_set k v m)).
Proof.
  intros Hnd. destruct (in_dec string_dec k (map_keys m)) as [Hin | Hnin].
  - now rewrite keys_set_in.
  - rewrite set_fresh by assumption. unfold map_keys. rewrite map_app.
    cbn. apply NoDup_app; [exact Hnd | repeat constructor; auto | ].
    intros x Hx [<- | []]. now apply Hnin.
Qed.

Lemma in_set (k v : string) (m : FileMap) (e : string * string) :
  In e (map_set k v m) -> e = (k, v) \/ In e m.
Proof.
  induction m as [| [k0 v0] m IH]; cbn.
  - intros [<- | []]. now left.
  - destruct (String.eqb_spec k0 k) as [-> | Hk0]; cbn.
    + intros [<- | Hin]; auto.
    + intros [<- | Hin]; auto. destruct (IH Hin); auto.
Qed.



(** Committing writes. *)

Lemma commit_app (ws1 ws2 : list (string * string)) (m : FileMap) :
  commit (ws1 ++ ws2) m = commit ws2 (commit ws1 m).
Proof. unfold commit. apply fold_left_app. Qed.

Lemma commit_nodup (ws : list (string * string)) :
  forall m, NoDup (map_keys m) -> NoDup (map_keys (commit ws m)).
Proof.
  induction ws as [| [k v] ws IH]; cbn; intros m Hnd; [assumption |].
  apply IH. now apply keys_set_nodup.
Qed.

Lemma commit_in (ws : list (string * string)) (e : string * string) :
  forall m, In e (commit ws m) -> In e ws \/ In e m.
Proof.
  induction ws as [| [k v] ws IH]; cbn; intros m Hin; [now right |].
  destruct (IH _ Hin) as [H | H]; [now left; right |].
  destruct (in_set _ _ _ _ H) as [-> | H']; auto.
Qed.

Lemma commit_get_untouched (ws : list (string * string)) (k : string) :
  forall m, ~ In k (map fst ws) -> map_get k (commit ws m) = map_get k m.
Proof.
  induction ws as [| [k0 v0] ws IH]; cbn; intros m Hnin; [reflexivity |].
  rewrite IH by tauto. apply get_set_other. tauto.
Qed.

(** The last write to a path decides its content. *)
Lemma commit_last_write (pre post : list (string * string)) (p c : string)
    (m : FileMap) :
  ~ In p (map fst post) ->
  map_get p (commit (pre ++ (p, c) :: post) m) = Some c.
Proof.
  intros Hnin. rewrite commit_app. cbn.
  change (fold_left (fun m0 w => map_set (fst w) (snd w) m0) post ?x)
    with (commit post x).
  rewrite commit_get_untouched by assumption. apply get_set_same.
Qed.

Lemma collect_files_ok (m : FileMap) :
  m <> [] -> collect_files m = Ok {| files := map file_of m |}.
Proof.
  unfold collect_files, map_entries. intros Hm.
  destruct m as [| e m]; [contradiction |]. cbn [map List.length Nat.eqb].
  do 2 f_equal. f_equal; [now destruct e |].
  apply map_ext. now intros [p c].
Qed.

Lemma collect_files_empty : collect_files [] = Throw NoFilesGenerated.
Proof. reflexivity. Qed.

Lemma collect_files_throw (m : FileMap) (e : Error) :
  collect_files m = Throw e -> m = [] /\ e = NoFilesGenerated.
Proof.
  destruct m as [| x m]; cbn; [intros [= <-]; auto | discriminate].
Qed.

(** Pre-populating from a list of files with pairwise distinct paths
    gives back that list. *)
Lemma prepopulate_fold_distinct (fs : list GeneratedFile) :
  forall m,
    NoDup (map_keys m ++ map path fs) ->
    fold_left (fun generatedFiles file =>
                 map_set (path file) (content file) generatedFiles) fs m =
      m ++ map (fun f => (path f, content f)) fs.
Proof.
  induction fs as [| f fs IH]; cbn [fold_left map]; intros m Hnd.
  - now rewrite app_nil_r.
  - assert (Hfresh : ~ In (path f) (map_keys m)).
    { intros Hin. apply NoDup_remove_2 in Hnd. apply Hnd.
      apply in_or_app. now left. }
    rewrite set_fresh by assumption. rewrite IH.
    + now rewrite <- app_assoc.
    + unfold map_keys in *. rewrite map_app, <- app_assoc. exact Hnd.
Qed.

Lemma prepopulate_distinct (fs : list GeneratedFile) :
  NoDup (map path fs) ->
  prepopulate (Some fs) = map (fun f => (path f, content f)) fs.
Proof.
  intros Hnd. unfold prepopulate.
  destruct fs as [| f fs]; [reflexivity |].
  cbn [List.length Nat.ltb Nat.leb].
  now rewrite prepopulate_fold_distinct.
Qed.

Lemma prepopulate_nodup (existingFiles : option (list GeneratedFile)) :
  NoDup (map_keys (prepopulate existingFiles)).
Proof.
  unfold prepopulate. destruct existingFiles as [fs |]; [| constructor].
  destruct (0 <? List.length fs)%nat; [| constructor].
  assert (H : forall m, NoDup (map_keys m) ->
            NoDup (map_keys
              (fold_left (fun generatedFiles file =>
                 map_set (path file) (content file) generatedFiles) fs m))).
  { induction fs as [| f fs IH]; cbn; intros m Hm; [assumption |].
    apply IH. now apply keys_set_nodup. }
  apply H. constructor.
Qed.

End FileMapFacts.

(* ------------------------------------------------------------------ *)
(** ** Handling the blocks of a response *)

Section HandleBlocks.

Lemma handle_block_eq (block : ContentBlock) (generatedFiles : FileMap)
    (toolResults : list ToolResultBlockParam) :
  handle_block block generatedFiles toolResults =
    (commit (complete_writes [block]) generatedFiles,
     toolResults ++ results_for block).
Proof.
  unfold complete_writes, results_for.
  destruct block as [text | id name input |]; cbn;
    try (now rewrite app_nil_r).
  unfold write_file.
  destruct (name =? "write_file"); cbn; [| now rewrite app_nil_r].
  destruct (input_path input) as [p |], (input_content input) as [c |]; cbn;
    try reflexivity.
  destruct (truthy_string p && truthy_string c); reflexivity.
Qed.

Lemma complete_writes_app (bs1 bs2 : list ContentBlock) :
  complete_writes (bs1 ++ bs2) = complete_writes bs1 ++ complete_writes bs2.
Proof. unfold complete_writes. apply flat_map_app. Qed.

Lemma handle_blocks_eq (blocks : list ContentBlock) :
  forall (generatedFiles : FileMap) (toolResults : list ToolResultBlockParam),
    handle_blocks blocks generatedFiles toolResults =
      (commit (complete_writes blocks) generatedFiles,
       toolResults ++ flat_map results_for blocks).
Proof.
  induction blocks as [| block blocks IH]; intros generatedFiles toolResults;
    cbn [handle_blocks flat_map].
  - now rewrite app_nil_r.
  - rewrite handle_block_eq, IH, <- app_assoc.
    change (block :: blocks) with ([block] ++ blocks).
    now rewrite complete_writes_app, FileMapFacts.commit_app.
Qed.

Lemma results_for_ids (blocks : list ContentBlock) :
  map tool_use_id (flat_map results_for blocks) = write_file_ids blocks.
Proof.
  induction blocks as [| block blocks IH]; cbn [flat_map map write_file_ids];
    [reflexivity |].
  rewrite map_app, IH. f_equal.
  destruct block as [text | id name input |]; cbn; try reflexivity.
  destruct (name =? "write_file"); [| reflexivity].
  destruct (input_path input) as [p |], (input_content input) as [c |];
    try reflexivity.
  destruct (truthy_string p && truthy_string c); reflexivity.
Qed.

Lemma no_tool_use_no_writes (blocks : list ContentBlock) :
  existsb is_tool_use blocks = false -> complete_writes blocks = [].
Proof.
  unfold complete_writes.
  induction blocks as [| block blocks IH]; cbn [existsb flat_map];
    [reflexivity |].
  intros H. apply orb_false_iff in H. destruct H as [Hb Hbs].
  rewrite (IH Hbs). destruct block; cbn in *; congruence.
Qed.

Lemma complete_write_truthy (block : ContentBlock) (p c : string) :
  complete_write block = Some (p, c) -> p <> "" /\ c <> "".
Proof.
  destruct block as [text | id name input |]; cbn; try discriminate.
  destruct (name =? "write_file"); [| discriminate].
  destruct (input_path input) as [p0 |], (input_content input) as [c0 |];
    try discriminate.
  unfold truthy_string.
  destruct (String.eqb_spec p0 ""), (String.eqb_spec c0 ""); cbn;
    try discriminate.
  intros [= <- <-]. auto.
Qed.

Lemma complete_writes_truthy (blocks : list ContentBlock) (p c : string) :
  In (p, c) (complete_writes blocks) -> p <> "" /\ c <> "".
Proof.
  unfold complete_writes. intros H. apply in_flat_map in H.
  destruct H as (block & _ & Hw).
  destruct (complete_write block) as [[p0 c0] |] eqn:E; [| destruct Hw].
  destruct Hw as [[= <- <-] | []]. eapply complete_write_truthy; eauto.
Qed.

Lemma assistant_blocks_app (ms1 ms2 : list MessageParam) :
  assistant_blocks (ms1 ++ ms2) = assistant_blocks ms1 ++ assistant_blocks ms2.
Proof. unfold assistant_blocks. apply flat_map_app. Qed.

Lemma assistant_blocks_push (ms : list MessageParam)
    (toolResults : list ToolResultBlockParam) :
  assistant_blocks (push_tool_results ms toolResults) = assistant_blocks ms.
Proof.
  unfold push_tool_results. destruct (0 <? List.length toolResults)%nat;
    [| reflexivity].
  rewrite assistant_blocks_app. cbn. now rewrite app_nil_r.
Qed.

End HandleBlocks.

(* ------------------------------------------------------------------ *)
(** ** The loop *)

Section Loop.

Variable sharp : Sharp.
Variable client : Anthropic.

Lemma turn_answered (systemPrompt : string) (st : LoopState)
    (response : Response) :
  messages_create client (request systemPrompt (conversation st)) =
    Answered response ->
  turn client systemPrompt st =
    let messages := conversation st ++ [assistant_message response] in
    let requests := requests st ++ [request systemPrompt (conversation st)] in
    if existsb is_tool_use (response_content response) then
      Continue
        {| conversation :=
             push_tool_results messages
               (flat_map results_for (response_content response));
           generatedFiles :=
             commit (complete_writes (response_content response))
                    (generatedFiles st);
           requests := requests |}
    else
      Leave Break
        {| conversation := messages;
           generatedFiles := generatedFiles st;
           requests := requests |}.
Proof.
  intros Hreply. unfold turn. rewrite Hreply, handle_blocks_eq. reflexivity.
Qed.

(** One iteration sends one request, only appends to the conversation,
    and commits the complete writes of the blocks it appended. *)
Lemma turn_trace (systemPrompt : string) (st : LoopState) :
  let st' := outcome_state (turn client systemPrompt st) in
  exists new,
    conversation st' = conversation st ++ new /\
    generatedFiles st' =
      commit (complete_writes (assistant_blocks new)) (generatedFiles st) /\
    requests st' = requests st ++ [request systemPrompt (conversation st)].
Proof.
  cbv zeta.
  destruct (messages_create client (request systemPrompt (conversation st)))
    as [response | msg] eqn:Hreply.
  - rewrite (turn_answered _ _ Hreply). cbv zeta.
    destruct (existsb is_tool_use (response_content response)) eqn:Huse;
      cbn [outcome_state conversation generatedFiles requests].
    + unfold push_tool_results.
      destruct (0 <? List.length (flat_map results_for (response_content response)))%nat.
      * eexists. rewrite <- app_assoc. split; [reflexivity |].
        split; [| reflexivity].
        rewrite assistant_blocks_app. cbn. now rewrite !app_nil_r.
      * eexists. split; [reflexivity |]. split; [| reflexivity].
        cbn. now rewrite app_nil_r.
    + eexists. split; [reflexivity |]. split; [| reflexivity].
      cbn. rewrite app_nil_r. now rewrite no_tool_use_no_writes.
  - unfold turn. rewrite Hreply. cbn [outcome_state conversation generatedFiles requests].
    exists []. rewrite app_nil_r. repeat split.
Qed.

Lemma agentic_loop_trace (systemPrompt : string) :
  forall (turns : nat) (st : LoopState),
    let st' := snd (agentic_loop client turns systemPrompt st) in
    exists new reqs,
      conversation st' = conversation st ++ new /\
      generatedFiles st' =
        commit (complete_writes (assistant_blocks new)) (generatedFiles st) /\
      requests st' = requests st ++ reqs /\
      (List.length reqs <= turns)%nat.
Proof.
  induction turns as [| turns IH]; intros st; cbv zeta; cbn [agentic_loop snd].
  - exists [], []. rewrite !app_nil_r. repeat split. constructor.
  - destruct (turn_trace systemPrompt st) as (new & Hconv & Hfiles & Hreqs).
    destruct (turn client systemPrompt st) as [st1 | exit st1];
      cbn [outcome_state] in Hconv, Hfiles, Hreqs.
    + destruct (IH st1) as (new' & reqs' & Hconv' & Hfiles' & Hreqs' & Hlen).
      exists (new ++ new'), (request systemPrompt (conversation st) :: reqs').
      rewrite Hconv', Hfiles', Hreqs', Hconv, Hfiles, Hreqs.
      rewrite <- !app_assoc, assistant_blocks_app, complete_writes_app,
        FileMapFacts.commit_app.
      repeat split. cbn. lia.
    + exists new, [request systemPrompt (conversation st)]. cbn [snd].
      repeat split; auto. cbn. lia.
Qed.

(** The files of a run are the pre-populated ones with the complete
    writes of the conversation committed in order. *)
Lemma run_loop_files (prompt : string)
    (existingFiles : option (list GeneratedFile)) :
  let st := snd (run_loop sharp client prompt existingFiles) in
  generatedFiles st =
    commit (complete_writes (assistant_blocks (conversation st)))
           (prepopulate existingFiles) /\
  (List.length (requests st) <= maxTurns)%nat.
Proof.
  cbv zeta. unfold run_loop.
  destruct (agentic_loop_trace (systemPrompt existingFiles) maxTurns
              (initial_state sharp prompt existingFiles))
    as (new & reqs & Hconv & Hfiles & Hreqs & Hlen).
  rewrite Hconv, Hfiles, Hreqs, assistant_blocks_app. cbn. auto.
Qed.

Lemma createApp_requests (apiKey : option string) (prompt : string)
    (existingFiles : option (list GeneratedFile)) :
  snd (createApp sharp client apiKey prompt existingFiles) =
    if truthy apiKey
    then requests (snd (run_loop sharp client prompt existingFiles))
    else [].
Proof.
  unfold createApp. destruct (truthy apiKey); cbn [negb]; [| reflexivity].
  destruct (run_loop sharp client prompt existingFiles) as [[| | e] st];
    reflexivity.
Qed.

Lemma createApp_result (apiKey : option string) (prompt : string)
    (existingFiles : option (list GeneratedFile)) :
  fst (createApp sharp client apiKey prompt existingFiles) =
    if truthy apiKey then
      match fst (run_loop sharp client prompt existingFiles) with
      | Thrown e => Throw e
      | _ => collect_files
               (generatedFiles (snd (run_loop sharp client prompt existingFiles)))
      end
    else Throw ApiKeyNotSet.
Proof.
  unfold createApp. destruct (truthy apiKey); cbn [negb]; [| reflexivity].
  destruct (run_loop sharp client prompt existingFiles) as [[| | e] st];
    reflexivity.
Qed.

(** Only the client's own errors leave the loop as exceptions. *)
Lemma agentic_loop_thrown (systemPrompt : string) :
  forall (turns : nat) (st : LoopState) (e : Error),
    fst (agentic_loop client turns systemPrompt st) = Thrown e ->
    exists msg, e = UpstreamError msg.
Proof.
  induction turns as [| turns IH]; intros st e; cbn [agentic_loop fst].
  - discriminate.
  - unfold turn.
    destruct (messages_create client (request systemPrompt (conversation st)))
      as [response | msg].
    + destruct (existsb is_tool_use (response_content response)).
      * destruct (handle_blocks (response_content response) (generatedFiles st) [])
          as [files results]. apply IH.
      * cbn. discriminate.
    + cbn. intros [= <-]. now exists msg.
Qed.

(** What a run does when the answer to its first request calls no tool. *)
Lemma run_loop_no_tool_use (prompt : string)
    (existingFiles : option (list GeneratedFile)) (response : Response) :
  messages_create client (first_request sharp prompt existingFiles) =
    Answered response ->
  existsb is_tool_use (response_content response) = false ->
  run_loop sharp client prompt existingFiles =
    (Break,
     {| conversation :=
          conversation (initial_state sharp prompt existingFiles) ++
            [assistant_message response];
        generatedFiles := prepopulate existingFiles;
        requests := [first_request sharp prompt existingFiles] |}).
Proof.
  intros Hreply Huse. unfold run_loop, maxTurns. cbn [agentic_loop].
  rewrite (turn_answered _ _ Hreply). cbv zeta. rewrite Huse. reflexivity.
Qed.

End Loop.

(* ------------------------------------------------------------------ *)
(** ** Round trips and the result of [createApp] *)

Section RoundTrips.

Variable sharp : Sharp.
Variable client : Anthropic.

(** An iteration leaves the loop by [break] or by an exception. *)
Lemma turn_leave (systemPrompt : string) (st st' : LoopState) (exit : LoopExit) :
  turn client systemPrompt st = Leave exit st' ->
  exit = Break \/ exists msg, exit = Thrown (UpstreamError msg).
Proof.
  unfold turn.
  destruct (messages_create client (request systemPrompt (conversation st)))
    as [response | msg].
  - destruct (existsb is_tool_use (response_content response)).
    + destruct (handle_blocks (response_content response) (generatedFiles st) []);
        discriminate.
    + intros [= <- _]. now left.
  - intros [= <- _]. right. now exists msg.
Qed.

(** A loop that runs out of turns has sent one request per turn. *)
Lemma agentic_loop_exhausted (systemPrompt : string) :
  forall (turns : nat) (st : LoopState),
    fst (agentic_loop client turns systemPrompt st) = TurnsExhausted ->
    List.length (requests (snd (agentic_loop client turns systemPrompt st))) =
      (List.length (requests st) + turns)%nat.
Proof.
  induction turns as [| turns IH]; intros st; cbn [agentic_loop fst snd].
  - intros _. lia.
  - destruct (turn_trace client systemPrompt st) as (new & _ & _ & Hreqs).
    destruct (turn client systemPrompt st) as [st1 | exit st1] eqn:Hturn;
      cbn [outcome_state fst snd] in *.
    + intros Hex. rewrite (IH st1 Hex), Hreqs, length_app. cbn. lia.
    + intros ->. destruct (turn_leave _ _ Hturn) as [H | [msg H]];
        discriminate.
Qed.

(** C1.  Whatever the key, the prompt, the existing files and the
    client, [createApp] sends at most 10 requests to the model.  When the
    answer to the first request holds no tool-use block, the loop is left
    by [break] after exactly one request, with the map of files as it was
    pre-populated from the existing files, and [createApp] returns the
    entries of that map. *)
Theorem createApp_round_trips (apiKey : option string) (prompt : string)
    (existingFiles : option (list GeneratedFile)) :
  (List.length (snd (createApp sharp client apiKey prompt existingFiles))
     <= 10)%nat /\
  forall response,
    truthy apiKey = true ->
    messages_create client (first_request sharp prompt existingFiles) =
      Answered response ->
    existsb is_tool_use (response_content response) = false ->
    List.length (snd (createApp sharp client apiKey prompt existingFiles))
      = 1%nat /\
    fst (run_loop sharp client prompt existingFiles) = Break /\
    generatedFiles (snd (run_loop sharp client prompt existingFiles)) =
      prepopulate existingFiles /\
    fst (createApp sharp client apiKey prompt existingFiles) =
      collect_files (prepopulate existingFiles).
Proof.
  split.
  - rewrite createApp_requests. destruct (truthy apiKey); [| cbn; lia].
    apply (run_loop_files sharp client prompt existingFiles).
  - intros response Hkey Hreply Huse.
    rewrite createApp_requests, createApp_result, Hkey.
    rewrite (run_loop_no_tool_use _ _ _ _ Hreply Huse). cbn. auto.
Qed.

(** C2.  Once the key is set, [createApp] fails with 'No files were
    generated' exactly when the loop is over (left by [break] or by
    running out of turns) with an empty map of files.  When the loop is
    over with a non-empty map, [createApp] returns its entries: in
    particular running out of the 10 turns, which takes 10 requests, is no
    error by itself. *)
Theorem createApp_fails_iff_no_files (apiKey : option string) (prompt : string)
    (existingFiles : option (list GeneratedFile)) :
  let exit := fst (run_loop sharp client prompt existingFiles) in
  let st := snd (run_loop sharp client prompt existingFiles) in
  (fst (createApp sharp client apiKey prompt existingFiles)
     = Throw NoFilesGenerated <->
   truthy apiKey = true /\ loop_ended exit = true /\ generatedFiles st = []) /\
  (truthy apiKey = true -> loop_ended exit = true ->
   generatedFiles st <> [] ->
   fst (createApp sharp client apiKey prompt existingFiles) =
     Ok {| files := map file_of (generatedFiles st) |}) /\
  (exit = TurnsExhausted -> List.length (requests st) = 10%nat).
Proof.
  cbv zeta. rewrite createApp_result. split; [| split].
  - destruct (truthy apiKey).
    + destruct (fst (run_loop sharp client prompt existingFiles)) as [| | e] eqn:Hex;
        cbn [loop_ended].
      * split.
        -- intros H. apply FileMapFacts.collect_files_throw in H. tauto.
        -- intros (_ & _ & ->). reflexivity.
      * split.
        -- intros H. apply FileMapFacts.collect_files_throw in H. tauto.
        -- intros (_ & _ & ->). reflexivity.
      * split.
        -- intros [= ->]. unfold run_loop in Hex.
           apply agentic_loop_thrown in Hex. destruct Hex. discriminate.
        -- intros (_ & H & _). discriminate.
    + split; [discriminate | intros (H & _); discriminate].
  - intros -> Hended Hfiles.
    destruct (fst (run_loop sharp client prompt existingFiles));
      try discriminate; now apply FileMapFacts.collect_files_ok.
  - intros Hex. unfold run_loop in *.
    now rewrite (agentic_loop_exhausted _ _ _ Hex).
Qed.

End RoundTrips.

Lemma createApp_round_trips_witness :
  let existingFiles := Some [ {| path := "index.html"; content := "OLD" |} ] in
  List.length
    (snd (createApp stub_sharp silent_client (Some "sk-test")
            "make the title blue" existingFiles)) = 1%nat /\
  fst (createApp stub_sharp silent_client (Some "sk-test")
         "make the title blue" existingFiles) =
    Ok {| files := [ {| path := "index.html"; content := "OLD" |} ] |}.
Proof.
  cbv zeta.
  destruct (createApp_round_trips stub_sharp silent_client (Some "sk-test")
              "make the title blue"
              (Some [ {| path := "index.html"; content := "OLD" |} ]))
    as [_ H].
  destruct (H {| response_content := [TextBlock "Done."] |}
              eq_refl eq_refl eq_refl) as (H1 & _ & _ & H4).
  split; [exact H1 | exact H4].
Defined.

Lemma createApp_fails_iff_no_files_witness :
  fst (createApp stub_sharp eager_client (Some "sk-test") "a countdown timer" None)
    = Ok {| files := [ {| path := "index.html"; content := "<html></html>" |} ] |} /\
  fst (createApp stub_sharp silent_client (Some "sk-test") "a countdown timer" None)
    = Throw NoFilesGenerated.
Proof.
  split.
  - destruct (createApp_fails_iff_no_files stub_sharp eager_client
                (Some "sk-test") "a countdown timer" None) as (_ & H & _).
    apply H; [reflexivity | reflexivity | vm_compute; discriminate].
  - destruct (createApp_fails_iff_no_files stub_sharp silent_client
                (Some "sk-test") "a countdown timer" None) as (H & _).
    apply H. repeat split.
Defined.

(* ------------------------------------------------------------------ *)
(** ** Incomplete invocations *)

Section Incomplete.

Variable client : Anthropic.

Lemma rejected_complete_write (id : string) (input : WriteFileInput) :
  truthy (input_path input) && truthy (input_content input) = false ->
  complete_write (ToolUseBlock id "write_file" input) = None.
Proof.
  cbn. unfold truthy.
  destruct (input_path input) as [p |], (input_content input) as [c |];
    try reflexivity.
  now intros ->.
Qed.

Lemma rejected_handle_block (id : string) (input : WriteFileInput)
    (generatedFiles : FileMap) (toolResults : list ToolResultBlockParam) :
  truthy (input_path input) && truthy (input_content input) = false ->
  handle_block (ToolUseBlock id "write_file" input) generatedFiles toolResults =
    (generatedFiles, toolResults ++ [error_result id]).
Proof.
  intros Hrej. rewrite handle_block_eq. unfold complete_writes, results_for.
  cbn [flat_map]. rewrite (rejected_complete_write id input Hrej).
  reflexivity.
Qed.

(** A turn whose response holds a rejected [write_file] invocation. *)
Lemma rejected_write_file_turn (systemPrompt : string) (st : LoopState)
    (response : Response) (pre post : list ContentBlock) (id : string)
    (input : WriteFileInput) :
  messages_create client (request systemPrompt (conversation st)) =
    Answered response ->
  response_content response = pre ++ ToolUseBlock id "write_file" input :: post ->
  truthy (input_path input) && truthy (input_content input) = false ->
  exists st',
    turn client systemPrompt st = Continue st' /\
    conversation st' =
      conversation st ++
        [ assistant_message response;
          {| role := user;
             msg_content :=
               ContentToolResults
                 (flat_map results_for pre ++
                  error_result id :: flat_map results_for post) |} ] /\
    generatedFiles st' =
      commit (complete_writes (pre ++ post)) (generatedFiles st) /\
    forall turns,
      agentic_loop client (S turns) systemPrompt st =
        agentic_loop client turns systemPrompt st'.
Proof.
  intros Hreply Hcontent Hrej.
  pose proof (turn_answered client _ _ Hreply) as Hturn. cbv zeta in Hturn.
  assert (Huse : existsb is_tool_use (response_content response) = true).
  { rewrite Hcontent, existsb_app. cbn. apply orb_true_r. }
  assert (Hresults : flat_map results_for (response_content response) =
            flat_map results_for pre ++
              error_result id :: flat_map results_for post).
  { rewrite Hcontent, flat_map_app. cbn [flat_map]. f_equal.
    unfold results_for. cbn [String.eqb Ascii.eqb Bool.eqb].
    rewrite (rejected_complete_write id input Hrej). reflexivity. }
  assert (Hwrites : complete_writes (response_content response) =
            complete_writes (pre ++ post)).
  { rewrite Hcontent, !complete_writes_app. f_equal.
    unfold complete_writes at 1. cbn [flat_map].
    now rewrite (rejected_complete_write id input Hrej). }
  rewrite Huse, Hresults, Hwrites in Hturn.
  eexists. split; [exact Hturn |]. cbn [conversation generatedFiles].
  split; [| split; [reflexivity |]].
  - unfold push_tool_results. rewrite length_app. cbn [List.length].
    replace (0 <? _)%nat with true by (symmetry; apply Nat.ltb_lt; lia).
    now rewrite <- app_assoc.
  - intros turns. cbn [agentic_loop]. now rewrite Hturn.
Qed.

(** C5.  A [write_file] invocation whose path or content is missing is
    answered with an error tool result: a result that carries the id of
    the invocation, the text of line 249 and the flag [is_error: true].
    The map of files is left as it is; the turn the invocation belongs to
    sends that result back in its place among the results of the turn,
    commits what the other blocks of the response write, and goes on to
    the next iteration of the loop instead of throwing. *)
Theorem missing_field_gets_error_result (systemPrompt : string) (st : LoopState)
    (response : Response) (pre post : list ContentBlock) (id : string)
    (input : WriteFileInput) :
  messages_create client (request systemPrompt (conversation st)) =
    Answered response ->
  response_content response = pre ++ ToolUseBlock id "write_file" input :: post ->
  input_path input = None \/ input_content input = None ->
  let answer :=
    {| tool_use_id := id;
       result_content :=
         "Error: Incomplete file data. Please try again with a simpler request.";
       is_error := true |} in
  (forall generatedFiles toolResults,
     handle_block (ToolUseBlock id "write_file" input) generatedFiles toolResults =
       (generatedFiles, toolResults ++ [answer])) /\
  exists st',
    turn client systemPrompt st = Continue st' /\
    conversation st' =
      conversation st ++
        [ assistant_message response;
          {| role := user;
             msg_content :=
               ContentToolResults
                 (flat_map results_for pre ++
                  answer :: flat_map results_for post) |} ] /\
    generatedFiles st' =
      commit (complete_writes (pre ++ post)) (generatedFiles st) /\
    forall turns,
      agentic_loop client (S turns) systemPrompt st =
        agentic_loop client turns systemPrompt st'.
Proof.
  intros Hreply Hcontent Hmissing. cbv zeta. fold (error_result id).
  assert (Hrej : truthy (input_path input) && truthy (input_content input) = false).
  { destruct Hmissing as [-> | ->]; [reflexivity | apply andb_false_r]. }
  split.
  - intros generatedFiles toolResults. now apply rejected_handle_block.
  - eapply rejected_write_file_turn; eassumption.
Qed.

End Incomplete.

(* ------------------------------------------------------------------ *)
(** ** Empty fields *)

Section EmptyFields.

Variable sharp : Sharp.
Variable client : Anthropic.

(** Every file of a run was there from the start or was written with a
    non-empty path and a non-empty content. *)
Lemma run_loop_entries (prompt : string)
    (existingFiles : option (list GeneratedFile)) (e : string * string) :
  In e (generatedFiles (snd (run_loop sharp client prompt existingFiles))) ->
  In e (prepopulate existingFiles) \/ (fst e <> "" /\ snd e <> "").
Proof.
  destruct (run_loop_files sharp client prompt existingFiles) as [Hfiles _].
  rewrite Hfiles. intros Hin.
  apply FileMapFacts.commit_in in Hin. destruct Hin as [Hw | Hseed]; [| now left].
  right. destruct e as [p c]. eapply complete_writes_truthy; eassumption.
Qed.

(** C10.  A [write_file] invocation whose path or content is the empty
    string is handled as one with a missing field: it is answered with
    the error tool result (the id of the invocation, the text of line 249
    and the flag [is_error: true]), the map of files is left as it is, and
    the loop goes on.  Hence every entry of the map at the end of a run
    either was pre-populated from the existing files or has a non-empty
    path and a non-empty content. *)
Theorem empty_field_gets_error_result (systemPrompt : string) (st : LoopState)
    (response : Response) (pre post : list ContentBlock) (id : string)
    (input : WriteFileInput) :
  messages_create client (request systemPrompt (conversation st)) =
    Answered response ->
  response_content response = pre ++ ToolUseBlock id "write_file" input :: post ->
  input_path input = Some "" \/ input_content input = Some "" ->
  let answer :=
    {| tool_use_id := id;
       result_content :=
         "Error: Incomplete file data. Please try again with a simpler request.";
       is_error := true |} in
  (forall generatedFiles toolResults,
     handle_block (ToolUseBlock id "write_file" input) generatedFiles toolResults =
       (generatedFiles, toolResults ++ [answer])) /\
  (exists st',
     turn client systemPrompt st = Continue st' /\
     conversation st' =
       conversation st ++
         [ assistant_message response;
           {| role := user;
              msg_content :=
                ContentToolResults
                  (flat_map results_for pre ++
                   answer :: flat_map results_for post) |} ] /\
     generatedFiles st' =
       commit (complete_writes (pre ++ post)) (generatedFiles st) /\
     forall turns,
       agentic_loop client (S turns) systemPrompt st =
         agentic_loop client turns systemPrompt st') /\
  (forall prompt existingFiles e,
     In e (generatedFiles (snd (run_loop sharp client prompt existingFiles))) ->
     In e (prepopulate existingFiles) \/ (fst e <> "" /\ snd e <> "")).
Proof.
  intros Hreply Hcontent Hempty. cbv zeta. fold (error_result id).
  assert (Hrej : truthy (input_path input) && truthy (input_content input) = false).
  { destruct Hempty as [-> | ->]; [reflexivity | apply andb_false_r]. }
  split; [| split].
  - intros generatedFiles toolResults. now apply rejected_handle_block.
  - eapply rejected_write_file_turn; eassumption.
  - apply run_loop_entries.
Qed.

End EmptyFields.

(* ------------------------------------------------------------------ *)
(** ** Tool results *)

Section ToolResults.

Variable client : Anthropic.

(** C6, as the code has it.  When a response holds a tool-use block, the
    turn appends the response and then one tool result for each of its
    blocks that invokes [write_file], in the order of the blocks and with
    the ids of the blocks, as one user message; a tool-use block with any
    other name gets no result, and when no block invokes [write_file] no
    user message is appended.  The request of the next iteration carries
    that conversation. *)
Theorem write_file_invocations_get_one_result (systemPrompt : string)
    (st : LoopState) (response : Response) :
  messages_create client (request systemPrompt (conversation st)) =
    Answered response ->
  existsb is_tool_use (response_content response) = true ->
  let toolResults := flat_map results_for (response_content response) in
  exists st',
    turn client systemPrompt st = Continue st' /\
    map tool_use_id toolResults = write_file_ids (response_content response) /\
    (write_file_ids (response_content response) <> [] ->
     conversation st' =
       conversation st ++
         [ assistant_message response;
           {| role := user; msg_content := ContentToolResults toolResults |} ]) /\
    (write_file_ids (response_content response) = [] ->
     conversation st' = conversation st ++ [assistant_message response]) /\
    (forall turns,
       agentic_loop client (S turns) systemPrompt st =
         agentic_loop client turns systemPrompt st') /\
    requests (outcome_state (turn client systemPrompt st')) =
      requests st ++ [ request systemPrompt (conversation st);
                       request systemPrompt (conversation st') ].
Proof.
  intros Hreply Huse. cbv zeta.
  pose proof (turn_answered client _ _ Hreply) as Hturn. cbv zeta in Hturn.
  rewrite Huse in Hturn.
  pose proof (results_for_ids (response_content response)) as Hids.
  eexists. split; [exact Hturn |]. split; [exact Hids |].
  cbn [conversation]. unfold push_tool_results.
  repeat split.
  - intros Hne.
    destruct (flat_map results_for (response_content response)) as [| r rs].
    + cbn in Hids. congruence.
    + cbn [List.length Nat.ltb Nat.leb]. now rewrite <- app_assoc.
  - intros Hnone. rewrite Hnone in Hids.
    destruct (flat_map results_for (response_content response)); [reflexivity |].
    discriminate.
  - intros turns. cbn [agentic_loop]. now rewrite Hturn.
  - match goal with |- requests (outcome_state (turn client ?sp ?s)) = _ =>
      destruct (turn_trace client sp s) as (new & _ & _ & Hreqs) end.
    rewrite Hreqs. cbn [requests conversation]. now rewrite <- app_assoc.
Qed.

End ToolResults.

(* ------------------------------------------------------------------ *)
(** ** Last write wins, and update mode *)

Section LastWrite.

Variable sharp : Sharp.
Variable client : Anthropic.

Lemma complete_write_of_truthy (id p c : string) :
  p <> "" -> c <> "" ->
  complete_write
    (ToolUseBlock id "write_file"
       {| input_path := Some p; input_content := Some c |}) = Some (p, c).
Proof.
  intros Hp Hc. cbn. unfold truthy_string.
  apply String.eqb_neq in Hp, Hc. now rewrite Hp, Hc.
Qed.

(** C3, as the code has it.  Call a [write_file] invocation complete when
    its path and its content are both present and non-empty.  In every
    run, the content the map of files holds for a path at the end is the
    content of the last complete invocation for that path; an invocation
    that is not complete changes nothing.  So when two invocations
    target the same path, the later one is complete and no complete
    invocation for the path follows it, the final content is the later
    one's, whether the two came in one turn or in several.  The paths of
    the map are pairwise distinct, and so are the paths of the files
    [createApp] returns, which are the entries of the map. *)
Theorem last_complete_write_wins (apiKey : option string) (prompt : string)
    (existingFiles : option (list GeneratedFile)) :
  let st := snd (run_loop sharp client prompt existingFiles) in
  let writes := complete_writes (assistant_blocks (conversation st)) in
  generatedFiles st = commit writes (prepopulate existingFiles) /\
  (forall before after p c,
     writes = before ++ (p, c) :: after ->
     ~ In p (map fst after) ->
     map_get p (generatedFiles st) = Some c) /\
  (forall before between after id1 id2 p c1 c2,
     assistant_blocks (conversation st) =
       before ++
       ToolUseBlock id1 "write_file"
         {| input_path := Some p; input_content := c1 |} ::
       between ++
       ToolUseBlock id2 "write_file"
         {| input_path := Some p; input_content := Some c2 |} :: after ->
     p <> "" -> c2 <> "" ->
     ~ In p (map fst (complete_writes after)) ->
     map_get p (generatedFiles st) = Some c2) /\
  NoDup (map_keys (generatedFiles st)) /\
  (forall result,
     fst (createApp sharp client apiKey prompt existingFiles) = Ok result ->
     files result = map file_of (generatedFiles st) /\
     NoDup (map path (files result))).
Proof.
  cbv zeta.
  destruct (run_loop_files sharp client prompt existingFiles) as [Hfiles _].
  assert (Hnd : NoDup (map_keys
            (generatedFiles (snd (run_loop sharp client prompt existingFiles))))).
  { rewrite Hfiles. apply FileMapFacts.commit_nodup.
    apply FileMapFacts.prepopulate_nodup. }
  assert (Hlast : forall before after p c,
    complete_writes
      (assistant_blocks
         (conversation (snd (run_loop sharp client prompt existingFiles)))) =
      before ++ (p, c) :: after ->
    ~ In p (map fst after) ->
    map_get p (generatedFiles (snd (run_loop sharp client prompt existingFiles)))
      = Some c).
  { intros before after p c Hwrites Hnone. rewrite Hfiles, Hwrites.
    now apply FileMapFacts.commit_last_write. }
  split; [exact Hfiles |]. split; [exact Hlast |].
  split; [| split; [exact Hnd |]].
  - intros before between after id1 id2 p c1 c2 Hblocks Hp Hc Hnone.
    apply (Hlast
             (complete_writes
                (before ++
                 ToolUseBlock id1 "write_file"
                   {| input_path := Some p; input_content := c1 |} :: between))
             (complete_writes after)); [| exact Hnone].
    rewrite Hblocks.
    change (?x :: between ++ ?y :: after)
      with ((x :: between) ++ [y] ++ after).
    rewrite app_assoc, !complete_writes_app. f_equal.
    unfold complete_writes at 1. cbn [flat_map].
    rewrite (complete_write_of_truthy id2 Hp Hc). reflexivity.
  - intros result Hok. rewrite createApp_result in Hok.
    destruct (truthy apiKey); [| discriminate].
    assert (Hcollect :
      collect_files
        (generatedFiles (snd (run_loop sharp client prompt existingFiles))) =
        Ok result).
    { destruct (fst (run_loop sharp client prompt existingFiles));
        [exact Hok | exact Hok | discriminate]. }
    destruct (generatedFiles (snd (run_loop sharp client prompt existingFiles)))
      as [| e m] eqn:Hm; [discriminate |].
    rewrite FileMapFacts.collect_files_ok in Hcollect by discriminate.
    injection Hcollect as <-. cbn [files]. split; [reflexivity |].
    unfold map_keys in Hnd.
    change (file_of e :: map file_of m) with (map file_of (e :: m)).
    rewrite map_map. erewrite map_ext; [exact Hnd | reflexivity].
Qed.

(** C4.  In update mode, when the answer to the first request holds no
    tool-use block, [createApp] returns exactly the existing files it was
    given, in their order, with paths and contents unchanged.  The
    existing files are a set of files keyed by path, one file to a path,
    as the files of a stored project are: they are the entries of the
    map an earlier run of [createApp] returned. *)
Theorem update_mode_preserves_files (apiKey : option string) (prompt : string)
    (existingFiles : list GeneratedFile) (response : Response) :
  truthy apiKey = true ->
  existingFiles <> [] ->
  NoDup (map path existingFiles) ->
  messages_create client (first_request sharp prompt (Some existingFiles)) =
    Answered response ->
  existsb is_tool_use (response_content response) = false ->
  fst (createApp sharp client apiKey prompt (Some existingFiles)) =
    Ok {| files := existingFiles |}.
Proof.
  intros Hkey Hne Hnd Hreply Huse.
  rewrite createApp_result, Hkey.
  rewrite (run_loop_no_tool_use _ _ _ _ Hreply Huse). cbn [fst snd generatedFiles].
  rewrite FileMapFacts.prepopulate_distinct by assumption.
  rewrite FileMapFacts.collect_files_ok.
  - do 2 f_equal. rewrite map_map. rewrite <- (map_id existingFiles) at 2.
    apply map_ext. now intros [p c].
  - destruct existingFiles; [contradiction | discriminate].
Qed.

End LastWrite.

(* ------------------------------------------------------------------ *)
(** ** Runs on the stubs *)

(** C3 at a concrete run: the model writes "X" to a.html, then invokes
    [write_file] on a.html with the empty content, then stops.  The later
    invocation is answered with an error, and the final content of a.html
    is "X", not the content of the later invocation. *)
Lemma later_empty_write_counterexample :
  let client :=
    scripted_client
      [ [ToolUseBlock "toolu_1" "write_file"
           {| input_path := Some "a.html"; input_content := Some "X" |}];
        [ToolUseBlock "toolu_2" "write_file"
           {| input_path := Some "a.html"; input_content := Some "" |}] ] in
  let st := snd (run_loop stub_sharp client "a page" None) in
  assistant_blocks (conversation st) =
    [ ToolUseBlock "toolu_1" "write_file"
        {| input_path := Some "a.html"; input_content := Some "X" |};
      ToolUseBlock "toolu_2" "write_file"
        {| input_path := Some "a.html"; input_content := Some "" |};
      TextBlock "Done." ] /\
  map_get "a.html" (generatedFiles st) = Some "X" /\
  map_get "a.html" (generatedFiles st) <> Some "" /\
  fst (createApp stub_sharp client (Some "sk-test") "a page" None) =
    Ok {| files := [ {| path := "a.html"; content := "X" |} ] |}.
Proof.
  cbv zeta. repeat split; try reflexivity. vm_compute. discriminate.
Qed.

Lemma last_complete_write_wins_witness :
  let client :=
    scripted_client
      [ [ToolUseBlock "toolu_1" "write_file"
           {| input_path := Some "a.html"; input_content := Some "X" |}];
        [ToolUseBlock "toolu_2" "write_file"
           {| input_path := Some "a.html"; input_content := Some "Y" |}] ] in
  map_get "a.html"
    (generatedFiles (snd (run_loop stub_sharp client "a page" None))) =
    Some "Y".
Proof.
  intros client.
  destruct (last_complete_write_wins stub_sharp client (Some "sk-test")
              "a page" None) as (_ & _ & H & _).
  apply (H [] [] [TextBlock "Done."] "toolu_1" "toolu_2" "a.html"
           (Some "X") "Y").
  - reflexivity.
  - discriminate.
  - discriminate.
  - simpl. tauto.
Defined.

Lemma update_mode_preserves_files_witness :
  fst (createApp stub_sharp silent_client (Some "sk-test") "make it blue"
         (Some [ {| path := "index.html"; content := "OLD" |} ])) =
    Ok {| files := [ {| path := "index.html"; content := "OLD" |} ] |}.
Proof.
  apply (@update_mode_preserves_files stub_sharp silent_client (Some "sk-test")
           "make it blue" [ {| path := "index.html"; content := "OLD" |} ]
           {| response_content := [TextBlock "Done."] |}).
  - reflexivity.
  - discriminate.
  - constructor; [intros [] | constructor].
  - reflexivity.
  - reflexivity.
Defined.

(** C6 at a concrete run: the model invokes a tool named read_file.  The
    second request is sent with that invocation in the conversation and
    no tool result for it. *)
Lemma unknown_tool_counterexample :
  let client :=
    scripted_client
      [ [ToolUseBlock "toolu_1" "read_file"
           {| input_path := Some "index.html"; input_content := None |}] ] in
  let st := snd (run_loop stub_sharp client "a page" None) in
  map (fun req =>
         (tool_use_ids (assistant_blocks (messages req)),
          map tool_use_id (tool_results (messages req))))
      (requests st) =
    [ ([], []); (["toolu_1"], []) ] /\
  tool_use_ids (assistant_blocks (conversation st)) = ["toolu_1"] /\
  tool_results (conversation st) = [].
Proof.
  cbv zeta. repeat split.
Qed.

Lemma write_file_invocations_get_one_result_witness :
  let response :=
    {| response_content :=
         [ TextBlock "Writing the page.";
           ToolUseBlock "toolu_1" "write_file"
             {| input_path := Some "index.html"; input_content := Some "<p>" |};
           ToolUseBlock "toolu_2" "read_file"
             {| input_path := Some "index.html"; input_content := None |};
           ToolUseBlock "toolu_3" "write_file"
             {| input_path := Some "app.js"; input_content := None |} ] |} in
  let client := scripted_client [response_content response] in
  let st := initial_state stub_sharp "a page" None in
  exists st',
    turn client createSystemPrompt st = Continue st' /\
    map tool_use_id (tool_results (conversation st')) = ["toolu_1"; "toolu_3"].
Proof.
  intros response client st.
  destruct (@write_file_invocations_get_one_result client createSystemPrompt st
              response eq_refl eq_refl)
    as (st' & Hturn & Hids & Hconv & _).
  exists st'. split; [exact Hturn |].
  rewrite Hconv by discriminate. reflexivity.
Defined.

Lemma missing_field_gets_error_result_witness :
  let block :=
    ToolUseBlock "toolu_1" "write_file"
      {| input_path := Some "index.html"; input_content := None |} in
  let client := scripted_client [[block]] in
  let st := initial_state stub_sharp "a page" None in
  let answer :=
    {| tool_use_id := "toolu_1";
       result_content :=
         "Error: Incomplete file data. Please try again with a simpler request.";
       is_error := true |} in
  handle_block block [] [] = ([], [answer]) /\
  exists st',
    turn client createSystemPrompt st = Continue st' /\
    tool_results (conversation st') = [answer] /\
    generatedFiles st' = [].
Proof.
  intros block client st answer.
  destruct (@missing_field_gets_error_result client createSystemPrompt st
              {| response_content := [block] |} [] [] "toolu_1"
              {| input_path := Some "index.html"; input_content := None |}
              eq_refl eq_refl (or_intror eq_refl))
    as (Hblock & st' & Hturn & Hconv & Hfiles & _).
  split; [apply Hblock |].
  exists st'. split; [exact Hturn |]. split.
  - rewrite Hconv. reflexivity.
  - rewrite Hfiles. reflexivity.
Defined.

Lemma empty_field_gets_error_result_witness :
  let block :=
    ToolUseBlock "toolu_1" "write_file"
      {| input_path := Some "index.html"; input_content := Some "" |} in
  let client := scripted_client [[block]] in
  let st := initial_state stub_sharp "a page" None in
  let answer :=
    {| tool_use_id := "toolu_1";
       result_content :=
         "Error: Incomplete file data. Please try again with a simpler request.";
       is_error := true |} in
  handle_block block [] [] = ([], [answer]) /\
  exists st',
    turn client createSystemPrompt st = Continue st' /\
    tool_results (conversation st') = [answer] /\
    generatedFiles st' = [].
Proof.
  intros block client st answer.
  destruct (@empty_field_gets_error_result stub_sharp client createSystemPrompt
              st {| response_content := [block] |} [] [] "toolu_1"
              {| input_path := Some "index.html"; input_content := Some "" |}
              eq_refl eq_refl (or_intror eq_refl))
    as (Hblock & (st' & Hturn & Hconv & Hfiles & _) & _).
  split; [apply Hblock |].
  exists st'. split; [exact Hturn |]. split.
  - rewrite Hconv. reflexivity.
  - rewrite Hfiles. reflexivity.
Defined.

Lemma compressImage_first_fitting_witness :
  compressImage stub_sharp 9000000%Z 5 = Ok 4500000%Z /\
  (byteLength stub_sharp 4500000 <= 5 * 1024 * 1024)%Z.
Proof.
  split; [reflexivity |].
  destruct (compressImage_first_fitting stub_sharp 9000000%Z 5)
    as (_ & _ & H & _).
  apply (H 4500000%Z). reflexivity.
Defined.

Lemma processMessageContent_partial_degradation_witness :
  let image (encoded : option string) :=
    {| item_type := "image"; item_text := None;
       item_source := Some {| source_type := "base64";
                              media_type := "image/png";
                              data := encoded |} |} in
  let small := image (Some "a") in
  let large := image (Some "abc") in
  let hopeless := image (Some "abcdefghijklmnopqrstuvwxyz") in
  let text :=
    {| item_type := "text"; item_text := Some "a page"; item_source := None |} in
  processMessageContent stub_sharp (ContentArray [small; hopeless; large; text]) =
    (ContentArray [small; with_data large "compressed"; text],
     [78000000%Z; 9000000%Z]).
Proof.
  intros image small large hopeless text.
  destruct (processMessageContent_partial_degradation stub_sharp
              [small; hopeless; large; text]) as (_ & H & _).
  rewrite H. reflexivity.
Defined.

(** The scenarios of section 8 of the specification, run on the stubs. *)

Example countdown_timer_scenario :
  fst (createApp stub_sharp
         (scripted_client
            [ [ToolUseBlock "toolu_1" "write_file"
                 {| input_path := Some "index.html";
                    input_content := Some "<html>...</html>" |}] ])
         (Some "sk-test") "a countdown timer" None) =
    Ok {| files := [ {| path := "index.html"; content := "<html>...</html>" |} ] |}.
Proof. reflexivity. Qed.

Example turn_budget_scenario :
  let run := createApp stub_sharp eager_client (Some "sk-test") "a page" None in
  List.length (snd run) = 10%nat /\
  fst (run_loop stub_sharp eager_client "a page" None) = TurnsExhausted /\
  fst run =
    Ok {| files := [ {| path := "index.html"; content := "<html></html>" |} ] |}.
Proof. cbv zeta. repeat split. Qed.

Example upstream_failure_scenario :
  createApp stub_sharp failing_client (Some "sk-test") "a page" None =
    (Throw (UpstreamError "overloaded"),
     [first_request stub_sharp "a page" None]).
Proof. reflexivity. Qed.

Example missing_key_scenario :
  createApp stub_sharp eager_client None "a page" None = (Throw ApiKeyNotSet, []) /\
  createApp stub_sharp eager_client (Some "") "a page" None = (Throw ApiKeyNotSet, []).
Proof. split; reflexivity. Qed.

Example update_prompt_scenario :
  userMessage "make it blue"
    (Some [ {| path := "index.html"; content := "OLD" |};
            {| path := "app.js"; content := "NEW" |} ]) =
  "Here are the current files of the app:

File: index.html
```
OLD
```

File: app.js
```
NEW
```

User's modification request: make it blue".
Proof. reflexivity. Qed.

Example compression_scenarios :
  compressImage_body stub_sharp quality_fuel 9000000%Z 5
    = Some (Ok (50%Z, 4500000%Z)) /\
  compressImage stub_sharp 60000000%Z 5 = Throw FailedToCompress /\
  validateImageSize stub_sharp 5242880%Z 5 = true /\
  validateImageSize stub_sharp 5242881%Z 5 = false.
Proof. repeat split. Qed.

Example dimension_scenarios :
  target_dimensions (Some 4000%Z) (Some 3000%Z) = (Some 1024%Z, Some 768%Z) /\
  target_dimensions (Some 3000%Z) (Some 4000%Z) = (Some 768%Z, Some 1024%Z) /\
  target_dimensions (Some 800%Z) (Some 600%Z) = (Some 800%Z, Some 600%Z) /\
  target_dimensions (Some 2049%Z) (Some 3%Z) = (Some 1024%Z, Some 1%Z) /\
  target_dimensions (Some 2048%Z) (Some 3%Z) = (Some 1024%Z, Some 2%Z) /\
  target_dimensions None (Some 3000%Z) = (None, Some 3000%Z).
Proof. repeat split. Qed.

(* ------------------------------------------------------------------ *)
(** ** More on the image pipeline *)

Section TargetDimensionsAgain.

Local Open Scope Z_scope.

(** Capped dimensions are left alone by a second pass: computing the
    target dimensions of target dimensions changes nothing, whatever the
    input, dimensions that are unknown or zero included. *)
Theorem target_dimensions_idempotent (width height : option Z) :
  let '(w', h') := target_dimensions width height in
  target_dimensions w' h' = (w', h').
Proof.
  destruct width as [w |], height as [h |]; try reflexivity.
  unfold target_dimensions at 1. unfold truthy_number, maxDimension.
  destruct (Z.eqb_spec w 0) as [-> | Hw]; [reflexivity |].
  destruct (Z.eqb_spec h 0) as [-> | Hh]; cbn [negb andb].
  { unfold target_dimensions, truthy_number. cbn.
    now rewrite andb_false_r. }
  assert (Hkeep : forall a b, a <= 1024 -> b <= 1024 ->
            target_dimensions (Some a) (Some b) = (Some a, Some b)).
  { intros a b Ha Hb. unfold target_dimensions, maxDimension.
    destruct (truthy_number (Some a) && truthy_number (Some b));
      [| reflexivity].
    destruct (a >? b); [destruct (Z.gtb_spec a 1024) | destruct (Z.gtb_spec b 1024)];
      try reflexivity; lia. }
  destruct (Z.gtb_spec w h) as [Hwh | Hwh].
  - destruct (Z.gtb_spec w 1024) as [Hbig | Hsmall].
    + apply Hkeep; [lia |].
      pose proof (@Math_round_div_bounds (h * 1024) w ltac:(lia)). nia.
    + apply Hkeep; lia.
  - destruct (Z.gtb_spec h 1024) as [Hbig | Hsmall].
    + apply Hkeep; [| lia].
      pose proof (@Math_round_div_bounds (w * 1024) h ltac:(lia)). nia.
    + apply Hkeep; lia.
Qed.

End TargetDimensionsAgain.

Section PipelineAgain.

Variable sharp : Sharp.

Lemma compressImage_within (b c : Buffer sharp) (maxSizeMB : Z) :
  compressImage sharp b maxSizeMB = Ok c ->
  (byteLength sharp c <= maxSizeMB * 1024 * 1024)%Z.
Proof.
  rewrite compressImage_normalize_spec. unfold normalize_spec.
  destruct (metadata sharp b) as [[width height] | e]; [| discriminate].
  destruct (target_dimensions width height) as [w h].
  destruct (first_fitting sharp (resize_jpeg sharp b w h)
              (maxSizeMB * 1024 * 1024) qualities) as [[q c'] | e] eqn:Hfit;
    [| discriminate].
  cbn. intros [= <-].
  destruct (first_fitting_ok _ _ _ _ Hfit) as (_ & _ & _ & _ & Hc & _).
  exact Hc.
Qed.

Lemma inline_with_data (item : ContentItem) (encoded : string) :
  is_inline_image (with_data item encoded) = is_inline_image item.
Proof.
  unfold is_inline_image, with_data. cbn.
  destruct (item_source item); reflexivity.
Qed.

(** Where an emitted item comes from. *)
Lemma emitted_origin (item out : ContentItem) :
  In out (emitted sharp item) ->
  (out = item /\
   (is_inline_image item = false \/
    exists b, payload sharp item = Some b /\
              (byteLength sharp b <= sizeCeiling)%Z)) \/
  (is_inline_image item = true /\
   exists c, (byteLength sharp c <= sizeCeiling)%Z /\
             out = with_data item (to_base64 sharp c)).
Proof.
  pose proof (item_outcome sharp item) as H.
  assert (Hinl : payload sharp item <> None -> is_inline_image item = true).
  { unfold payload, is_inline_image. destruct (item_source item); [| congruence].
    destruct ((item_type item =? "image") && (source_type i =? "base64"));
      congruence. }
  destruct (payload sharp item) as [b |] eqn:Hp.
  - destruct (Z.leb_spec (byteLength sharp b) sizeCeiling) as [Hle | Hgt].
    + destruct H as [-> _]. intros [<- | []]. left. split; [reflexivity |].
      right. now exists b.
    + destruct H as [_ ->].
      destruct (compressImage sharp b defaultMaxSizeMB) as [c |] eqn:Hc;
        [| intros []].
      intros [<- | []]. right. split; [apply Hinl; discriminate |].
      exists c. split; [| reflexivity].
      apply (compressImage_within _ _ Hc).
  - destruct H as [_ ->]. destruct (is_inline_image item); [intros [] |].
    intros [<- | []]. left. split; [reflexivity | now left].
Qed.

(** No inline image leaves [processMessageContent] over the ceiling: an
    inline image of the output either is an item of the input whose
    decoded payload is within 5 MB, or carries the base64 text of a
    buffer within 5 MB in the place of the data of an item of the input. *)
Theorem processMessageContent_output_within_ceiling (items : list ContentItem)
    (out : ContentItem) :
  In out (flat_map (emitted sharp) items) ->
  is_inline_image out = true ->
  fst (processMessageContent sharp (ContentArray items)) =
    ContentArray (flat_map (emitted sharp) items) /\
  exists b,
    (byteLength sharp b <= sizeCeiling)%Z /\
    ((In out items /\ payload sharp out = Some b) \/
     (exists original,
        In original items /\ out = with_data original (to_base64 sharp b))).
Proof.
  intros Hin Hinline. split.
  { unfold processMessageContent. now rewrite process_items_flat_map. }
  apply in_flat_map in Hin. destruct Hin as (item & Hitem & Hout).
  destruct (emitted_origin _ _ Hout) as [[-> Hcase] | [_ (c & Hc & ->)]].
  - destruct Hcase as [Hno | (b & Hb & Hle)]; [congruence |].
    exists b. split; [exact Hle |]. left. now split.
  - exists c. split; [exact Hc |]. right. now exists item.
Qed.

(** The items that are not inline images all come out, in order and
    unchanged, and nothing is added. *)
Theorem processMessageContent_keeps_other_items (items : list ContentItem) :
  let output := flat_map (emitted sharp) items in
  fst (processMessageContent sharp (ContentArray items)) = ContentArray output /\
  filter (fun item => negb (is_inline_image item)) output =
    filter (fun item => negb (is_inline_image item)) items /\
  (List.length output <= List.length items)%nat.
Proof.
  cbv zeta. split.
  { unfold processMessageContent. now rewrite process_items_flat_map. }
  assert (Hitem : forall item,
    filter (fun i => negb (is_inline_image i)) (emitted sharp item) =
      (if is_inline_image item then [] else [item]) /\
    (List.length (emitted sharp item) <= 1)%nat).
  { intros item. pose proof (item_outcome sharp item) as H.
    assert (Hinl : payload sharp item <> None -> is_inline_image item = true).
    { unfold payload, is_inline_image.
      destruct (item_source item); [| congruence].
      destruct ((item_type item =? "image") && (source_type i =? "base64"));
        congruence. }
    destruct (payload sharp item) as [b |].
    - rewrite (Hinl ltac:(discriminate)).
      destruct (byteLength sharp b <=? sizeCeiling)%Z.
      + destruct H as [-> _]. cbn. rewrite (Hinl ltac:(discriminate)). auto.
      + destruct H as [_ ->].
        destruct (compressImage sharp b defaultMaxSizeMB); cbn; auto.
        rewrite inline_with_data, (Hinl ltac:(discriminate)). auto.
    - destruct H as [_ ->]. destruct (is_inline_image item) eqn:E; cbn; auto.
      rewrite E. auto. }
  induction items as [| item items [IH1 IH2]]; cbn [flat_map filter List.length].
  - auto.
  - destruct (Hitem item) as [Hf Hl]. split.
    + rewrite filter_app, Hf, IH1. now destruct (is_inline_image item).
    + rewrite length_app. lia.
Qed.

(** When decoding gives back what encoding was given, a second pass of
    [processMessageContent] over its own output changes nothing and calls
    [compressImage] on nothing. *)
Theorem processMessageContent_idempotent (content : MessageContent) :
  (forall b, from_base64 sharp (to_base64 sharp b) = b) ->
  processMessageContent sharp (fst (processMessageContent sharp content)) =
    (fst (processMessageContent sharp content), []).
Proof.
  intros Hround.
  destruct content as [s | items | blocks | results |]; try reflexivity.
  assert (Hrun : forall l,
    processMessageContent sharp (ContentArray l) =
      (ContentArray (flat_map (emitted sharp) l),
       flat_map (normalized sharp) l)).
  { intros l. unfold processMessageContent.
    now rewrite process_items_flat_map. }
  rewrite (Hrun items). cbn [fst]. rewrite Hrun.
  assert (Hsettled : forall out,
    In out (flat_map (emitted sharp) items) ->
    emitted sharp out = [out] /\ normalized sharp out = []).
  { intros out Hin. apply in_flat_map in Hin.
    destruct Hin as (item & _ & Hout).
    pose proof (item_outcome sharp out) as H.
    destruct (emitted_origin _ _ Hout) as [[-> Hcase] | [Hinl (c & Hc & ->)]].
    - destruct Hcase as [Hno | (b & Hb & Hle)].
      + assert (Hp : payload sharp item = None).
        { unfold payload, is_inline_image in *.
          destruct (item_source item); [| reflexivity].
          now rewrite Hno. }
        rewrite Hp, Hno in H. tauto.
      + rewrite Hb in H. apply Z.leb_le in Hle. rewrite Hle in H. exact H.
    - assert (Hp : payload sharp (with_data item (to_base64 sharp c)) = Some c).
      { unfold payload, with_data, is_inline_image in *. cbn.
        destruct (item_source item) as [source |]; [| discriminate].
        cbn. rewrite Hinl. cbn. now rewrite Hround. }
      rewrite Hp in H. apply Z.leb_le in Hc. rewrite Hc in H. exact H. }
  assert (Hall : forall outs,
    (forall out, In out outs ->
       emitted sharp out = [out] /\ normalized sharp out = []) ->
    flat_map (emitted sharp) outs = outs /\
    flat_map (normalized sharp) outs = []).
  { induction outs as [| out outs IH]; intros Hs; cbn [flat_map]; [auto |].
    destruct (Hs out (or_introl eq_refl)) as [-> ->].
    destruct (IH (fun o Ho => Hs o (or_intror Ho))) as [-> ->]. auto. }
  destruct (Hall _ Hsettled) as [-> ->]. reflexivity.
Qed.

End PipelineAgain.

(* ------------------------------------------------------------------ *)
(** ** The message built from the uploads *)

Section Uploads.

Lemma string_app_nil_r (s : string) : (s ++ "")%string = s.
Proof. induction s as [| c s IH]; cbn; [reflexivity | now rewrite IH]. Qed.

Lemma string_app_assoc (s1 s2 s3 : string) :
  ((s1 ++ s2) ++ s3)%string = (s1 ++ (s2 ++ s3))%string.
Proof. induction s1 as [| c s1 IH]; cbn; [reflexivity | now rewrite IH]. Qed.

Lemma concat_empty_cons (x : string) (xs : list string) :
  String.concat "" (x :: xs) = (x ++ String.concat "" xs)%string.
Proof.
  destruct xs as [| y ys]; cbn [String.concat].
  - now rewrite string_app_nil_r.
  - reflexivity.
Qed.

Lemma split_char_cons (sep : ascii) (s : string) :
  exists field fields, split_char sep s = field :: fields.
Proof.
  induction s as [| c s (field & fields & IH)]; cbn.
  - eauto.
  - destruct (Ascii.eqb c sep); [eauto |]. rewrite IH. eauto.
Qed.

Lemma prefix_comma (c : ascii) (s : string) :
  String.prefix "," (String c s) = Ascii.eqb c ",".
Proof.
  change (String.prefix "," (String c s))
    with (if ascii_dec "," c then String.prefix "" s else false).
  destruct (ascii_dec "," c) as [<- | Hne].
  - now destruct s.
  - symmetry. apply Ascii.eqb_neq. congruence.
Qed.

(** A text without a comma is a single field, and a comma between two
    such texts separates them. *)
Lemma split_char_no_comma (s : string) :
  includes "," s = false -> split_char "," s = [s].
Proof.
  induction s as [| c s IH]; [reflexivity |].
  cbn [includes split_char]. rewrite prefix_comma. intros H.
  apply orb_false_iff in H. destruct H as [Hc Hs].
  rewrite Hc, (IH Hs). reflexivity.
Qed.

Lemma split_char_data_url (header payload : string) :
  includes "," header = false ->
  includes "," payload = false ->
  split_char "," (header ++ "," ++ payload) = [header; payload].
Proof.
  intros Hh Hp. induction header as [| c header IH].
  - cbn. now rewrite (split_char_no_comma _ Hp).
  - cbn [includes] in Hh. rewrite prefix_comma in Hh.
    apply orb_false_iff in Hh. destruct Hh as [Hc Hh].
    cbn [append split_char]. rewrite Hc.
    change ("," ++ payload)%string with (String "," payload) in IH.
    cbn [append]. rewrite (IH Hh). reflexivity.
Qed.

Lemma split_char_with_comma (s : string) :
  includes "," s = true ->
  exists first second rest, split_char "," s = first :: second :: rest.
Proof.
  induction s as [| c s IH]; [discriminate |].
  cbn [includes split_char]. rewrite prefix_comma.
  destruct (Ascii.eqb c ",").
  - intros _. destruct (split_char_cons "," s) as (f & fs & ->). eauto.
  - cbn [orb]. intros Hs. destruct (IH Hs) as (f & g & r & ->). eauto.
Qed.

(** The base64 text is taken from behind the first comma of the data:
    it is there exactly when the data holds a comma, and for a data URL,
    a header and a payload joined by the only comma, it is the payload. *)
Theorem base64Data_of_data_url (file : UploadedFile) :
  (base64Data file = None <-> includes "," (upload_data file) = false) /\
  (forall header payload,
     upload_data file = (header ++ "," ++ payload)%string ->
     includes "," header = false ->
     includes "," payload = false ->
     base64Data file = Some payload).
Proof.
  split.
  - unfold base64Data. split.
    + intros Hnone. destruct (includes "," (upload_data file)) eqn:E;
        [| reflexivity].
      destruct (split_char_with_comma _ E) as (f & g & r & Hs).
      rewrite Hs in Hnone. discriminate.
    + intros Hno. now rewrite (split_char_no_comma _ Hno).
  - unfold base64Data. intros header payload -> Hh Hp.
    now rewrite (split_char_data_url _ _ Hh Hp).
Qed.

Lemma upload_notes_cons (file : UploadedFile) (files : list UploadedFile) :
  upload_notes (file :: files) =
    ((if is_image_upload file then ""
      else nl ++ nl ++ "[User provided file: " ++ upload_name file ++ "]") ++
     upload_notes files)%string.
Proof.
  unfold upload_notes. cbn [filter].
  destruct (is_image_upload file); cbn [negb map]; [reflexivity |].
  apply concat_empty_cons.
Qed.

Lemma add_uploads_closed (files : list UploadedFile) :
  forall (text : string) (blocks : list ContentItem) (urls : list string),
    add_uploads files (text_block text :: blocks, urls) =
      (text_block (text ++ upload_notes files) ::
         blocks ++ map image_block (filter is_image_upload files),
       urls ++ upload_urls files).
Proof.
  induction files as [| file files IH]; intros text blocks urls.
  - cbn. now rewrite string_app_nil_r, !app_nil_r.
  - cbn [add_uploads]. rewrite upload_notes_cons.
    change (upload_urls (file :: files))
      with ((if is_image_upload file && truthy (upload_url file)
             then match upload_url file with
                  | Some url => [url]
                  | None => []
                  end
             else []) ++ upload_urls files).
    unfold add_upload. fold (is_image_upload file). cbn [filter].
    destruct (is_image_upload file) eqn:Himg; cbn [andb map].
    + assert (Hstep : forall urls',
        add_uploads files
          ((text_block text :: blocks) ++ [image_block file], urls') =
        (text_block (text ++ "" ++ upload_notes files) ::
           blocks ++ image_block file ::
             map image_block (filter is_image_upload files),
         urls' ++ upload_urls files)).
      { intros urls'. cbn [app]. rewrite IH, <- app_assoc. reflexivity. }
      destruct (upload_url file) as [url |]; cbn [truthy].
      * destruct (truthy_string url); rewrite Hstep;
          now rewrite <- ?app_assoc, ?app_nil_r.
      * rewrite Hstep. reflexivity.
    + cbn [append_text text_block item_type item_text item_source].
      fold (text_block
              (text ++ nl ++ nl ++ "[User provided file: " ++
               upload_name file ++ "]")).
      rewrite IH, !string_app_assoc. reflexivity.
Qed.

Lemma buildMessageContent_closed (prompt : string)
    (existingFiles : option (list GeneratedFile))
    (uploadedFiles : option (list UploadedFile)) :
  let files := match uploadedFiles with Some files => files | None => [] end in
  buildMessageContent prompt existingFiles uploadedFiles =
    text_block
      (userMessage prompt existingFiles ++ upload_notes files ++
       match upload_urls files with
       | first :: _ => url_instruction (upload_urls files) first
       | [] => ""
       end) ::
    map image_block (filter is_image_upload files).
Proof.
  cbv zeta. unfold buildMessageContent.
  destruct uploadedFiles as [files |].
  2: { cbn. now rewrite string_app_nil_r. }
  destruct files as [| file files].
  { cbn. now rewrite string_app_nil_r. }
  cbn [List.length Nat.ltb Nat.leb].
  rewrite add_uploads_closed. cbn [app].
  destruct (upload_urls (file :: files)) as [| first urls].
  - now rewrite string_app_nil_r.
  - cbn [append_text text_block item_type item_text item_source].
    now rewrite string_app_assoc.
Qed.

Lemma base64Data_none_iff (file : UploadedFile) :
  base64Data file = None <-> includes "," (upload_data file) = false.
Proof.
  unfold base64Data. split.
  - intros Hnone. destruct (includes "," (upload_data file)) eqn:E;
      [| reflexivity].
    destruct (split_char_with_comma _ E) as (f & g & r & Hs).
    rewrite Hs in Hnone. discriminate.
  - intros Hno. now rewrite (split_char_no_comma _ Hno).
Qed.

(** The message built for the model is one text block followed by one
    image block for each uploaded file whose type starts with image/, in
    the order of the uploads, with or without a URL.  The text is the
    user message, then a note naming each other file, then, when some
    uploaded image has a non-empty URL, the instruction listing those
    URLs.  Without uploads it is the user message alone. *)
Theorem buildMessageContent_shape (prompt : string)
    (existingFiles : option (list GeneratedFile))
    (uploadedFiles : option (list UploadedFile)) :
  let files := match uploadedFiles with Some files => files | None => [] end in
  buildMessageContent prompt existingFiles uploadedFiles =
    text_block
      (userMessage prompt existingFiles ++ upload_notes files ++
       match upload_urls files with
       | first :: _ => url_instruction (upload_urls files) first
       | [] => ""
       end) ::
    map image_block (filter is_image_upload files).
Proof. apply buildMessageContent_closed. Qed.

Variable sharp : Sharp.
Variable client : Anthropic.

Lemma prefix_empty (s : string) : String.prefix "" s = true.
Proof. now destruct s. Qed.

Lemma prefix_app (n s : string) : String.prefix n (n ++ s) = true.
Proof.
  induction n as [| c n IH]; [apply prefix_empty |].
  change (String.prefix (String c n) (String c n ++ s))
    with (if ascii_dec c c then String.prefix n (n ++ s) else false).
  destruct (ascii_dec c c); [exact IH | contradiction].
Qed.

Lemma prefix_app_l (n : string) :
  forall s b, String.prefix n s = true -> String.prefix n (s ++ b) = true.
Proof.
  induction n as [| c n IH]; intros s b H; [apply prefix_empty |].
  destruct s as [| d s]; [discriminate |].
  change (String.prefix (String c n) (String d s))
    with (if ascii_dec c d then String.prefix n s else false) in H.
  change (String.prefix (String c n) (String d s ++ b))
    with (if ascii_dec c d then String.prefix n (s ++ b) else false).
  destruct (ascii_dec c d); [now apply IH | discriminate].
Qed.

Lemma includes_eq (n s : string) :
  includes n s =
    String.prefix n s ||
    match s with
    | EmptyString => false
    | String _ s' => includes n s'
    end.
Proof. destruct s; reflexivity. Qed.

Lemma includes_app_r (n a s : string) :
  includes n s = true -> includes n (a ++ s) = true.
Proof.
  intros H. induction a as [| c a IH]; [exact H |].
  change (String c a ++ s)%string with (String c (a ++ s)).
  rewrite includes_eq, IH. apply orb_true_r.
Qed.

Lemma includes_app_l (n s b : string) :
  includes n s = true -> includes n (s ++ b) = true.
Proof.
  induction s as [| c s IH]; rewrite includes_eq; intros H.
  - rewrite orb_false_r in H. destruct n; [| discriminate].
    now rewrite includes_eq, prefix_empty.
  - change (String c s ++ b)%string with (String c (s ++ b)).
    rewrite includes_eq. apply orb_true_iff in H. destruct H as [H | H].
    + change (String c (s ++ b)) with (String c s ++ b)%string.
      now rewrite (prefix_app_l _ _ b H).
    + rewrite (IH H). apply orb_true_r.
Qed.

Lemma includes_self_app (n s : string) : includes n (n ++ s) = true.
Proof. rewrite includes_eq, prefix_app. reflexivity. Qed.

Lemma includes_self (n : string) : includes n n = true.
Proof.
  rewrite <- (string_app_nil_r n) at 2. apply includes_self_app.
Qed.

(** Every URL is in the lines listing the URLs. *)
Lemma image_lines_include (url : string) (imageUrls : list string) :
  forall i, In url imageUrls ->
            includes url (String.concat nl (image_lines i imageUrls)) = true.
Proof.
  induction imageUrls as [| u rest IH]; intros i Hin; [destruct Hin |].
  cbn [image_lines String.concat].
  destruct Hin as [-> | Hin].
  - assert (Hline : includes url
                      ("Image " ++ string_of_nat (i + 1) ++ ": " ++ url) = true).
    { do 3 apply includes_app_r. apply includes_self. }
    destruct (image_lines (S i) rest); [exact Hline |].
    now apply includes_app_l.
  - specialize (IH (S i) Hin).
    destruct (image_lines (S i) rest) as [| line lines] eqn:E.
    + destruct rest; [destruct Hin | discriminate].
    + do 2 apply includes_app_r. exact IH.
Qed.

Lemma url_instruction_includes (url first : string) (imageUrls : list string) :
  In url imageUrls -> includes url (url_instruction imageUrls first) = true.
Proof.
  intros Hin. unfold url_instruction.
  pose proof (image_lines_include url imageUrls 0 Hin) as Hlines.
  repeat first [ apply includes_app_l; exact Hlines | apply includes_app_r ].
Qed.

Lemma upload_urls_in (file : UploadedFile) (files : list UploadedFile)
    (url : string) :
  In file files -> is_image_upload file = true ->
  upload_url file = Some url -> url <> "" ->
  In url (upload_urls files).
Proof.
  intros Hin Himage Hurl Hne. unfold upload_urls. apply in_flat_map.
  exists file. split; [exact Hin |].
  rewrite Himage, Hurl. unfold truthy, truthy_string.
  apply String.eqb_neq in Hne. rewrite Hne. now left.
Qed.

(** The first user message, in closed form. *)
Lemma firstMessageContent_closed (prompt : string)
    (existingFiles : option (list GeneratedFile))
    (uploadedFiles : option (list UploadedFile)) :
  let files := match uploadedFiles with Some files => files | None => [] end in
  let images := filter is_image_upload files in
  firstMessageContent sharp prompt existingFiles uploadedFiles =
    (ContentArray
       (text_block
          (userMessage prompt existingFiles ++ upload_notes files ++
           match upload_urls files with
           | first :: _ => url_instruction (upload_urls files) first
           | [] => ""
           end) ::
        flat_map (fun file => emitted sharp (image_block file)) images),
     flat_map (fun file => normalized sharp (image_block file)) images).
Proof.
  cbv zeta. unfold firstMessageContent, processMessageContent.
  rewrite buildMessageContent_closed, process_items_flat_map.
  cbn [flat_map app]. rewrite !flat_map_concat_map, !map_map.
  reflexivity.
Qed.

(** An image block without base64 text is dropped, and [compressImage]
    is not called on it. *)
Lemma image_block_without_data (file : UploadedFile) :
  includes "," (upload_data file) = false ->
  emitted sharp (image_block file) = [] /\
  normalized sharp (image_block file) = [].
Proof.
  intros Hno.
  assert (Hdata : base64Data file = None).
  { apply base64Data_none_iff. exact Hno. }
  pose proof (item_outcome sharp (image_block file)) as H.
  assert (Hp : payload sharp (image_block file) = None).
  { unfold payload, image_block. cbn [item_source data].
    rewrite Hdata. reflexivity. }
  rewrite Hp in H. destruct H as [Hn He]. split; [exact He | exact Hn].
Qed.

(** The log of the requests only grows, and a loop that is allowed a
    turn starts by sending the conversation it was entered with. *)
Lemma agentic_loop_uploads_grows (systemPrompt : string) :
  forall (turns : nat) (st : LoopState),
    exists later,
      requests (snd (agentic_loop_uploads client turns systemPrompt st)) =
        requests st ++ later.
Proof.
  induction turns as [| turns IH]; intros st; cbn [agentic_loop_uploads].
  - exists []. cbn [snd]. now rewrite app_nil_r.
  - unfold turn_uploads.
    destruct (messages_create client _) as [response | msg].
    + destruct (existsb is_tool_use (response_content response)).
      * destruct (handle_blocks _ _ _) as [files results].
        match goal with
        | |- context [agentic_loop_uploads client turns systemPrompt ?st'] =>
            destruct (IH st') as [later Hlater]
        end.
        rewrite Hlater. cbn [requests]. rewrite <- app_assoc. eauto.
      * cbn [snd requests]. eauto.
    + cbn [snd requests]. eauto.
Qed.

Lemma agentic_loop_uploads_first (systemPrompt : string) (turns : nat)
    (st : LoopState) :
  exists later,
    requests (snd (agentic_loop_uploads client (S turns) systemPrompt st)) =
      requests st ++
        request_uploads systemPrompt (conversation st) :: later.
Proof.
  cbn [agentic_loop_uploads]. unfold turn_uploads.
  destruct (messages_create client _) as [response | msg].
  - destruct (existsb is_tool_use (response_content response)).
    + destruct (handle_blocks _ _ _) as [files results].
      match goal with
      | |- context [agentic_loop_uploads client turns systemPrompt ?st'] =>
          destruct (agentic_loop_uploads_grows systemPrompt turns st')
            as [later Hlater]
      end.
      rewrite Hlater. cbn [requests]. rewrite <- app_assoc. cbn [app]. eauto.
    + cbn [snd requests]. eauto.
  - cbn [snd requests]. eauto.
Qed.

(** What the model receives of the uploads.  With the key set, the first
    request of the later [createApp] carries one user message: a text
    block, then, for each uploaded image in the order of the uploads,
    what [processMessageContent] emits for its image block.  The text is
    the user message, the notes on the files that are not images, and
    the instruction listing the URLs of the images.  An uploaded image
    whose data holds no comma has no base64 text to decode: no block is
    sent for it and [compressImage] is not called on it, while its URL,
    when it has one, is still in the text that is sent. *)
Theorem createApp_uploads_first_request (apiKey : option string)
    (prompt : string) (existingFiles : option (list GeneratedFile))
    (uploadedFiles : option (list UploadedFile)) :
  truthy apiKey = true ->
  let files := match uploadedFiles with Some files => files | None => [] end in
  let images := filter is_image_upload files in
  let text :=
    (userMessage prompt existingFiles ++ upload_notes files ++
     match upload_urls files with
     | first :: _ => url_instruction (upload_urls files) first
     | [] => ""
     end)%string in
  (exists later,
     snd (createApp_uploads sharp client apiKey prompt existingFiles
            uploadedFiles) =
       request_uploads (systemPrompt_uploads existingFiles)
         [ {| role := user;
              msg_content :=
                ContentArray
                  (text_block text ::
                   flat_map (fun file => emitted sharp (image_block file))
                            images) |} ]
       :: later) /\
  (forall file,
     In file files -> is_image_upload file = true ->
     includes "," (upload_data file) = false ->
     emitted sharp (image_block file) = [] /\
     normalized sharp (image_block file) = [] /\
     forall url, upload_url file = Some url -> url <> "" ->
                 includes url text = true).
Proof.
  intros Hkey. cbv zeta. split.
  - unfold createApp_uploads. rewrite Hkey. cbn [negb].
    destruct (agentic_loop_uploads_first
                (systemPrompt_uploads existingFiles) 9
                (initial_state_uploads sharp prompt existingFiles uploadedFiles))
      as [later Hlater].
    change (S 9) with maxTurns in Hlater.
    exists later.
    assert (Hrequests :
              requests (snd (agentic_loop_uploads client maxTurns
                               (systemPrompt_uploads existingFiles)
                               (initial_state_uploads sharp prompt existingFiles
                                  uploadedFiles))) =
              request_uploads (systemPrompt_uploads existingFiles)
                [ {| role := user;
                     msg_content :=
                       ContentArray
                         (text_block
                            (userMessage prompt existingFiles ++
                             upload_notes
                               match uploadedFiles with
                               | Some files => files
                               | None => []
                               end ++
                             match
                               upload_urls
                                 match uploadedFiles with
                                 | Some files => files
                                 | None => []
                                 end
                             with
                             | first :: _ =>
                                 url_instruction
                                   (upload_urls
                                      match uploadedFiles with
                                      | Some files => files
                                      | None => []
                                      end) first
                             | [] => ""
                             end) ::
                          flat_map
                            (fun file => emitted sharp (image_block file))
                            (filter is_image_upload
                               match uploadedFiles with
                               | Some files => files
                               | None => []
                               end)) |} ] :: later).
    { rewrite Hlater. unfold initial_state_uploads.
      cbn [requests conversation app].
      now rewrite firstMessageContent_closed. }
    destruct (agentic_loop_uploads client maxTurns _ _) as [[| | e] st];
      cbn [snd] in *; exact Hrequests.
  - intros file Hin Himage Hno.
    destruct (image_block_without_data file Hno) as [He Hn].
    split; [exact He |]. split; [exact Hn |].
    intros url Hurl Hne.
    pose proof (@upload_urls_in file _ url Hin Himage Hurl Hne) as Hurls.
    do 2 apply includes_app_r.
    destruct (upload_urls _) as [| first urls] eqn:E; [destruct Hurls |].
    now apply url_instruction_includes.
Qed.

End Uploads.

(* ------------------------------------------------------------------ *)
(** ** What [createApp] can throw and what it returns *)

Section CreateAppResults.

Variable sharp : Sharp.
Variable client : Anthropic.

Lemma collected_files_well (m : FileMap) (result : AppGenerationResult) :
  NoDup (map_keys m) ->
  collect_files m = Ok result ->
  files result = map file_of m /\
  files result <> [] /\ NoDup (map path (files result)).
Proof.
  intros Hnd Hok.
  assert (Hm : m <> []) by (intros ->; discriminate).
  rewrite (FileMapFacts.collect_files_ok Hm) in Hok.
  injection Hok as <-. cbn [files]. split; [reflexivity |].
  split; [destruct m; [contradiction | discriminate] |].
  rewrite map_map. unfold map_keys in Hnd.
  erewrite map_ext; [exact Hnd | reflexivity].
Qed.

Lemma agentic_loop_nodup (systemPrompt : string) (turns : nat) (st : LoopState) :
  NoDup (map_keys (generatedFiles st)) ->
  NoDup (map_keys
           (generatedFiles (snd (agentic_loop client turns systemPrompt st)))).
Proof.
  intros Hnd.
  destruct (agentic_loop_trace client systemPrompt turns st)
    as (new & reqs & _ & Hfiles & _).
  rewrite Hfiles. now apply FileMapFacts.commit_nodup.
Qed.

Lemma createApp_ok_files (apiKey : option string) (prompt : string)
    (existingFiles : option (list GeneratedFile)) (result : AppGenerationResult) :
  fst (createApp sharp client apiKey prompt existingFiles) = Ok result ->
  files result =
    map file_of (generatedFiles (snd (run_loop sharp client prompt existingFiles))) /\
  files result <> [] /\ NoDup (map path (files result)).
Proof.
  rewrite createApp_result. destruct (truthy apiKey); [| discriminate].
  intros Hok. apply collected_files_well.
  - unfold run_loop. apply agentic_loop_nodup.
    apply FileMapFacts.prepopulate_nodup.
  - destruct (fst (run_loop sharp client prompt existingFiles));
      [exact Hok | exact Hok | discriminate].
Qed.

Lemma createApp_throws (apiKey : option string) (prompt : string)
    (existingFiles : option (list GeneratedFile)) (e : Error) :
  fst (createApp sharp client apiKey prompt existingFiles) = Throw e ->
  e = ApiKeyNotSet \/ e = NoFilesGenerated \/ exists msg, e = UpstreamError msg.
Proof.
  rewrite createApp_result. destruct (truthy apiKey).
  - destruct (fst (run_loop sharp client prompt existingFiles)) as [| | e'] eqn:Hex.
    + intros H. apply FileMapFacts.collect_files_throw in H. tauto.
    + intros H. apply FileMapFacts.collect_files_throw in H. tauto.
    + intros [= <-]. right. right. unfold run_loop in Hex.
      now apply agentic_loop_thrown in Hex.
  - intros [= <-]. now left.
Qed.

(** A loop left by an exception sent the request the client rejected. *)
Lemma agentic_loop_rejected (systemPrompt : string) :
  forall (turns : nat) (st : LoopState) (msg : string),
    fst (agentic_loop client turns systemPrompt st) = Thrown (UpstreamError msg) ->
    exists req,
      In req (requests (snd (agentic_loop client turns systemPrompt st))) /\
      messages_create client req = Rejected msg.
Proof.
  induction turns as [| turns IH]; intros st msg;
    cbn [agentic_loop fst snd]; [discriminate |].
  destruct (turn_trace client systemPrompt st) as (new & _ & _ & Hreqs).
  destruct (turn client systemPrompt st) as [st1 | exit st1] eqn:Hturn;
    cbn [outcome_state fst snd] in *.
  - apply IH.
  - intros ->. exists (request systemPrompt (conversation st)).
    split; [rewrite Hreqs; apply in_or_app; right; now left |].
    unfold turn in Hturn.
    destruct (messages_create client (request systemPrompt (conversation st)))
      as [response | msg'].
    + destruct (existsb is_tool_use (response_content response));
        [destruct (handle_blocks (response_content response)
                     (generatedFiles st) []) |]; discriminate.
    + now injection Hturn as <- _.
Qed.

(** [createApp] fails in three ways only: the key is missing, no file
    was generated, or the client threw on a request that was sent; an
    error of the image pipeline never leaves it.  When it returns, it
    returns at least one file and no two files with the same path,
    whatever the existing files were. *)
Theorem createApp_errors_and_files (apiKey : option string) (prompt : string)
    (existingFiles : option (list GeneratedFile)) :
  match fst (createApp sharp client apiKey prompt existingFiles) with
  | Throw e =>
      e = ApiKeyNotSet \/ e = NoFilesGenerated \/
      exists msg req,
        e = UpstreamError msg /\
        In req (snd (createApp sharp client apiKey prompt existingFiles)) /\
        messages_create client req = Rejected msg
  | Ok result =>
      files result <> [] /\ NoDup (map path (files result))
  end.
Proof.
  destruct (fst (createApp sharp client apiKey prompt existingFiles))
    as [result | e] eqn:Hres.
  - now apply createApp_ok_files in Hres.
  - destruct (createApp_throws _ _ _ Hres) as [-> | [-> | [msg ->]]]; auto.
    right. right. exists msg.
    rewrite createApp_result in Hres. rewrite createApp_requests.
    destruct (truthy apiKey); [| discriminate].
    destruct (fst (run_loop sharp client prompt existingFiles)) as [| | e] eqn:Hex;
      try (apply FileMapFacts.collect_files_throw in Hres;
           destruct Hres; discriminate).
    injection Hres as ->. unfold run_loop in *.
    destruct (agentic_loop_rejected _ _ _ Hex) as (req & Hin & Hrej).
    exists req. auto.
Qed.

End CreateAppResults.

(* ------------------------------------------------------------------ *)
(** ** The project routes *)

Section JsMapFacts.

Context {V : Type}.

Lemma jsmap_get_set_same (k : string) (v : V) (m : list (string * V)) :
  jsmap_get k (jsmap_set k v m) = Some v.
Proof.
  induction m as [| [k' v'] m IH]; cbn.
  - now rewrite String.eqb_refl.
  - destruct (k' =? k) eqn:E; cbn; rewrite E; auto.
Qed.

Lemma jsmap_get_set_other (k k' : string) (v : V) (m : list (string * V)) :
  k <> k' -> jsmap_get k' (jsmap_set k v m) = jsmap_get k' m.
Proof.
  intros Hne. induction m as [| [k0 v0] m IH]; cbn.
  - destruct (String.eqb_spec k k'); [contradiction | reflexivity].
  - destruct (String.eqb_spec k0 k) as [-> | Hk0]; cbn.
    + destruct (String.eqb_spec k k'); [contradiction | reflexivity].
    + destruct (k0 =? k'); auto.
Qed.

Lemma jsmap_get_in (k : string) (v : V) (m : list (string * V)) :
  jsmap_get k m = Some v -> In (k, v) m.
Proof.
  induction m as [| [k0 v0] m IH]; cbn; [discriminate |].
  destruct (String.eqb_spec k0 k) as [-> | Hk0].
  - intros [= ->]. now left.
  - intros H. right. auto.
Qed.

Lemma jsmap_in_set (k : string) (v : V) (m : list (string * V))
    (e : string * V) :
  In e (jsmap_set k v m) -> e = (k, v) \/ In e m.
Proof.
  induction m as [| [k0 v0] m IH]; cbn.
  - intros [<- | []]. now left.
  - destruct (String.eqb_spec k0 k) as [-> | Hk0]; cbn.
    + intros [<- | Hin]; auto.
    + intros [<- | Hin]; auto. destruct (IH Hin); auto.
Qed.

(** Setting a key that is there keeps the keys; a new key goes last. *)
Lemma jsmap_keys_set (k : string) (v : V) (m : list (string * V)) :
  map fst (jsmap_set k v m) =
    if in_dec string_dec k (map fst m) then map fst m else map fst m ++ [k].
Proof.
  induction m as [| [k0 v0] m IH]; cbn [jsmap_set map fst].
  - now destruct (in_dec string_dec k []).
  - destruct (String.eqb_spec k0 k) as [-> | Hk0]; cbn [map fst].
    + destruct (in_dec string_dec k (k :: map fst m)) as [_ | Hn];
        [reflexivity | exfalso; apply Hn; now left].
    + rewrite IH.
      destruct (in_dec string_dec k (map fst m)) as [Hin | Hnin],
               (in_dec string_dec k (k0 :: map fst m)) as [Hin' | Hnin'];
        try reflexivity.
      * exfalso. apply Hnin'. now right.
      * destruct Hin' as [-> | Hin']; contradiction.
Qed.

Lemma jsmap_set_nodup (k : string) (v : V) (m : list (string * V)) :
  NoDup (map fst m) -> NoDup (map fst (jsmap_set k v m)).
Proof.
  intros Hnd. rewrite jsmap_keys_set.
  destruct (in_dec string_dec k (map fst m)) as [Hin | Hnin]; [exact Hnd |].
  apply NoDup_app; [exact Hnd | repeat constructor; auto |].
  intros x Hx [<- | []]. contradiction.
Qed.

End JsMapFacts.

Section Routes.

Variable env : Env.

Lemma failure_response_status (failure message : string) :
  status (failure_response failure message) = 400 \/
  status (failure_response failure message) = 500.
Proof.
  unfold failure_response.
  destruct (includes "image exceeds" message); [now left |].
  destruct (includes "Failed to compress image" message); [now left | now right].
Qed.

Lemma failure_response_not_ok (failure message : string) :
  status (failure_response failure message) <> 200.
Proof.
  destruct (failure_response_status failure message) as [-> | ->]; discriminate.
Qed.

(** The messages of [createApp]'s own errors go to the last answer. *)
Lemma failure_response_own (failure : string) (e : Error) :
  e = ApiKeyNotSet \/ e = NoFilesGenerated ->
  failure_response failure (message_of e) =
    {| status := 500; body := ErrorDetails failure (message_of e) None |}.
Proof. intros [-> | ->]; reflexivity. Qed.

Lemma createApp_any_ok_files (prompt : option string)
    (existingFiles : option (list GeneratedFile)) (result : AppGenerationResult) :
  fst (createApp_any env prompt existingFiles) = Ok result ->
  files result <> [] /\ NoDup (map path (files result)).
Proof.
  unfold createApp_any. destruct prompt as [p |].
  - intros H. now apply createApp_ok_files in H.
  - destruct (isUpdate existingFiles).
    + intros H. now apply createApp_ok_files in H.
    + destruct (truthy (env_apiKey env)); cbn [negb fst]; [| discriminate].
      pose proof (@agentic_loop_nodup (env_client env)
                    (systemPrompt existingFiles) maxTurns
                    {| conversation :=
                         [ {| role := user; msg_content := ContentOther |} ];
                       generatedFiles := prepopulate existingFiles;
                       requests := [] |}
                    (FileMapFacts.prepopulate_nodup existingFiles)) as Hnd.
      destruct (agentic_loop _ _ _ _) as [[| | e] st]; cbn [fst snd] in *;
        try discriminate; intros H;
        now apply collected_files_well in H.
Qed.

Lemma createApp_any_throws (prompt : option string)
    (existingFiles : option (list GeneratedFile)) (e : Error) :
  fst (createApp_any env prompt existingFiles) = Throw e ->
  e = ApiKeyNotSet \/ e = NoFilesGenerated \/ exists msg, e = UpstreamError msg.
Proof.
  unfold createApp_any. destruct prompt as [p |].
  - apply createApp_throws.
  - destruct (isUpdate existingFiles); [apply createApp_throws |].
    destruct (truthy (env_apiKey env)); cbn [negb fst];
      [| intros [= <-]; now left].
    pose proof (@agentic_loop_thrown (env_client env)
                  (systemPrompt existingFiles) maxTurns
                  {| conversation :=
                       [ {| role := user; msg_content := ContentOther |} ];
                     generatedFiles := prepopulate existingFiles;
                     requests := [] |}) as Hth.
    destruct (agentic_loop _ _ _ _) as [[| | e'] st]; cbn [fst snd] in *.
    + intros H. apply FileMapFacts.collect_files_throw in H. tauto.
    + intros H. apply FileMapFacts.collect_files_throw in H. tauto.
    + intros [= <-]. right. right. now apply Hth.
Qed.

(** A request without a token, with an empty one, or with one that
    [jwt.verify] rejects is answered 401 on every project route, and
    nothing happens: no project is read or changed, nothing is written and
    nothing is sent to the model. *)
Theorem unauthenticated_request_is_refused (route : Route) (req : HttpRequest)
    (st : ServerState) :
  (forall token,
     request_token req = Some token ->
     token = "" \/ jwt_verify env token (JWT_SECRET env) = None) ->
  snd (serve env route req st) = st /\
  exists message,
    fst (serve env route req st) = {| status := 401; body := ErrorBody message |}.
Proof.
  intros Hbad. unfold serve, protected, authMiddleware.
  destruct (request_token req) as [token |]; [| cbn; eauto].
  unfold truthy_string.
  destruct (String.eqb_spec token "") as [-> | Hne]; cbn [negb]; [cbn; eauto |].
  destruct (Hbad token eq_refl) as [-> | Hrej]; [contradiction |].
  rewrite Hrej. cbn. eauto.
Qed.

(** Reading, renaming and iterating on a project that belongs to
    someone else is answered 403, and on a project that does not exist
    404; in both cases the state of the server is left as it was and the
    model is not called. *)
Lemma foreign_project_is_denied (route : Route) (userId : string)
    (req : HttpRequest) (st : ServerState) :
  route = GetProject \/ route = PatchRename \/ route = PostIterate ->
  match jsmap_get (param_id req) (projects st) with
  | Some project =>
      project_userId project <> userId ->
      handler_of env route userId req st =
        ({| status := 403; body := ErrorBody "Access denied" |}, st)
  | None =>
      handler_of env route userId req st =
        ({| status := 404; body := ErrorBody "Project not found" |}, st)
  end.
Proof.
  intros Hroute.
  destruct (jsmap_get (param_id req) (projects st)) as [project |] eqn:Hget.
  - intros Hother. apply String.eqb_neq in Hother.
    destruct Hroute as [-> | [-> | ->]]; cbn [handler_of];
      unfold get_project, rename, iterate; rewrite Hget, Hother; reflexivity.
  - destruct Hroute as [-> | [-> | ->]]; cbn [handler_of];
      unfold get_project, rename, iterate; rewrite Hget; reflexivity.
Qed.

(** The project of someone else is out of reach of every route but
    [POST /api/generate].  Whatever an authenticated caller asks of the
    other four routes, and whatever the model answers, that project is in
    memory afterwards exactly as it was.  A request to read, rename or
    iterate that names it is answered 403 with the whole state left as it
    was.  And the list the caller gets is made of the caller's own
    projects and of nothing else: it is the list of the summaries of
    projects that are stored and belong to the caller, so the project of
    someone else is not among them. *)
Theorem foreign_projects_are_out_of_reach (route : Route) (userId : string)
    (req : HttpRequest) (st : ServerState) (id : string) (project : Project) :
  route <> PostGenerate ->
  authMiddleware env req = inr userId ->
  jsmap_get id (projects st) = Some project ->
  project_userId project <> userId ->
  jsmap_get id (projects (snd (serve env route req st))) = Some project /\
  (route <> GetProjects -> param_id req = id ->
   serve env route req st =
     ({| status := 403; body := ErrorBody "Access denied" |}, st)) /\
  (route = GetProjects ->
   exists listed,
     fst (serve env route req st) =
       ok (ProjectsBody
             (map (fun p => {| summary_id := project_id p;
                               summary_name := project_name p;
                               summary_prompt := project_prompt p;
                               summary_createdAt := project_createdAt p |})
                  listed)) /\
     ~ In project listed /\
     forall p, In p listed <->
               In p (jsmap_values (projects st)) /\ project_userId p = userId).
Proof.
  intros Hroute Hauth Hget Hother. unfold serve, protected. rewrite Hauth.
  assert (Hdenied :
            forall r, r = GetProject \/ r = PatchRename \/ r = PostIterate ->
                      param_id req = id ->
                      handler_of env r userId req st =
                        ({| status := 403; body := ErrorBody "Access denied" |},
                         st)).
  { intros r Hr Heq. pose proof (@foreign_project_is_denied r userId req st Hr) as H.
    rewrite Heq, Hget in H. exact (H Hother). }
  split; [| split].
  - destruct (string_dec (param_id req) id) as [Heq | Hne].
    + destruct route; try contradiction; try exact Hget.
      * rewrite (Hdenied PatchRename) by tauto. exact Hget.
      * rewrite (Hdenied PostIterate) by tauto. exact Hget.
    + destruct route; try contradiction; try exact Hget; cbn [handler_of].
      * unfold rename.
        destruct (jsmap_get (param_id req) (projects st)); [| exact Hget].
        destruct (negb _); [exact Hget |].
        destruct (write_project _ _ _ _); cbn [snd projects];
          rewrite jsmap_get_set_other by exact Hne; exact Hget.
      * unfold iterate.
        destruct (jsmap_get (param_id req) (projects st)); [| exact Hget].
        destruct (negb _); [exact Hget |].
        destruct (createApp_any _ _ _) as [[result | e] log]; [| exact Hget].
        destruct (write_project _ _ _ _); cbn [snd projects];
          rewrite jsmap_get_set_other by exact Hne; exact Hget.
  - intros Hlist Heq.
    destruct route; try contradiction; apply Hdenied; tauto.
  - intros ->. cbn [handler_of fst]. unfold list_projects.
    eexists. split; [reflexivity |].
    assert (Hlisted : forall p,
              In p (filter (fun p => project_userId p =? userId)
                      (jsmap_values (projects st))) <->
              In p (jsmap_values (projects st)) /\ project_userId p = userId).
    { intros p. rewrite filter_In. now rewrite String.eqb_eq. }
    split; [| exact Hlisted].
    intros Hin. apply Hlisted in Hin. now destruct Hin.
Qed.

End Routes.

Section StoredProjects.

Variable env : Env.

Lemma stored_well_set (st : ServerState) (id : string) (project : Project)
    (disk' : list (string * Project)) (sent' : list Request) :
  stored_well st ->
  project_id project = id ->
  project_files project <> [] ->
  NoDup (map path (project_files project)) ->
  stored_well {| projects := jsmap_set id project (projects st);
                 disk := disk'; sent := sent' |}.
Proof.
  intros [Hkeys Hall] Hid Hne Hnd. split; cbn [projects].
  - now apply jsmap_set_nodup.
  - intros id' project' Hin. apply jsmap_in_set in Hin.
    destruct Hin as [[= -> ->] | Hin]; auto.
Qed.

Lemma stored_well_projects (st : ServerState)
    (disk' : list (string * Project)) (sent' : list Request) :
  stored_well st ->
  stored_well {| projects := projects st; disk := disk'; sent := sent' |}.
Proof. intros H. exact H. Qed.

(** Whatever the route, the request and the model do, the projects in
    memory stay well stored: no id twice, each project under its own id,
    each with at least one file and no two files with the same path. *)
Theorem routes_keep_projects_well (route : Route) (req : HttpRequest)
    (st : ServerState) :
  stored_well st -> stored_well (snd (serve env route req st)).
Proof.
  intros Hwell. unfold serve, protected.
  destruct (authMiddleware env req) as [response | userId]; [exact Hwell |].
  destruct route; cbn [handler_of snd]; try exact Hwell.
  - (* generate *)
    unfold generate. destruct (body_prompt req) as [prompt |]; [| exact Hwell].
    destruct (negb (truthy_string prompt)); [exact Hwell |].
    destruct (createApp (env_sharp env) (env_client env) (env_apiKey env)
                prompt None) as [result log] eqn:Hcreate.
    pose proof (@createApp_ok_files (env_sharp env) (env_client env)
                  (env_apiKey env) prompt None) as Hfiles.
    rewrite Hcreate in Hfiles. cbn [fst] in Hfiles.
    destruct result as [result | e]; [| exact Hwell].
    destruct (Hfiles result eq_refl) as (_ & Hne & Hnd).
    destruct (write_project env _ _ (disk st)); cbn [snd];
      now apply stored_well_set.
  - (* rename *)
    unfold rename.
    destruct (jsmap_get (param_id req) (projects st)) as [project |] eqn:Hget;
      [| exact Hwell].
    destruct (negb (project_userId project =? userId)); [exact Hwell |].
    apply jsmap_get_in in Hget. destruct Hwell as [Hkeys Hall].
    destruct (Hall _ _ Hget) as (Hid & Hne & Hnd).
    destruct (write_project env _ _ (disk st)); cbn [snd];
      now apply stored_well_set.
  - (* iterate *)
    unfold iterate.
    destruct (jsmap_get (param_id req) (projects st)) as [project |] eqn:Hget;
      [| exact Hwell].
    destruct (negb (project_userId project =? userId)); [exact Hwell |].
    destruct (createApp_any env (body_prompt req) (Some (project_files project)))
      as [result log] eqn:Hcreate.
    pose proof (@createApp_any_ok_files env (body_prompt req)
                  (Some (project_files project))) as Hfiles.
    rewrite Hcreate in Hfiles. cbn [fst] in Hfiles.
    destruct result as [result | e]; [| exact Hwell].
    destruct (Hfiles result eq_refl) as (Hne & Hnd).
    apply jsmap_get_in in Hget.
    destruct (proj2 Hwell _ _ Hget) as (Hid & _ & _).
    destruct (write_project env _ _ (disk st)); cbn [snd];
      now apply stored_well_set.
Qed.

(** Generating when the disk does not fail: either the answer is 200 and
    the new project, owned by the caller and named by the first 50
    characters of the prompt, is stored in memory and on disk under the
    id of the answer; or the answer is an error and neither the projects
    nor the disk changed.  Without a prompt the answer is 400 and the
    model is not called. *)
Theorem generate_stores_or_leaves (userId : string) (req : HttpRequest)
    (st : ServerState) :
  (forall file, write_error env file = None) ->
  let response := fst (generate env userId req st) in
  let st' := snd (generate env userId req st) in
  (truthy (body_prompt req) = false ->
   response = {| status := 400; body := ErrorBody "Prompt is required" |} /\
   st' = st) /\
  ((exists id name files,
      response = ok (SuccessBody id (Some name) files "App generated successfully") /\
      Some name = option_map (String.substring 0 50) (body_prompt req) /\
      files <> [] /\
      (truthy (body_projectId req) = true -> body_projectId req = Some id) /\
      exists project,
        jsmap_get id (projects st') = Some project /\
        jsmap_get (projects_path env (id ++ ".json")) (disk st') = Some project /\
        project_id project = id /\ project_userId project = userId /\
        project_files project = files /\
        forall other, other <> id ->
          jsmap_get other (projects st') = jsmap_get other (projects st)) \/
   (status response <> 200 /\
    projects st' = projects st /\ disk st' = disk st)).
Proof.
  intros Hdisk. cbv zeta. unfold generate.
  destruct (body_prompt req) as [prompt |]; cbn [truthy].
  2: { split; [auto |]. right. cbn. repeat split. discriminate. }
  destruct (truthy_string prompt) eqn:Hprompt; cbn [negb].
  2: { split; [auto |]. right. cbn. repeat split. discriminate. }
  split; [discriminate |].
  destruct (createApp (env_sharp env) (env_client env) (env_apiKey env)
              prompt None) as [result log] eqn:Hcreate.
  pose proof (@createApp_ok_files (env_sharp env) (env_client env)
                (env_apiKey env) prompt None) as Hfiles.
  rewrite Hcreate in Hfiles. cbn [fst] in Hfiles.
  destruct result as [result | e].
  2: { right. cbn [fst snd projects disk]. repeat split.
       apply failure_response_not_ok. }
  destruct (Hfiles result eq_refl) as (_ & Hne & _).
  unfold write_project. rewrite Hdisk. cbn [fst snd projects disk].
  left. eexists _, _, (files result). split; [reflexivity |].
  split; [reflexivity |]. split; [exact Hne |]. split.
  { intros Hid. rewrite Hid. destruct (body_projectId req); [reflexivity |].
    discriminate. }
  eexists. split; [apply jsmap_get_set_same |].
  split; [apply jsmap_get_set_same |]. cbn. repeat split.
  intros other Hother. apply jsmap_get_set_other. congruence.
Qed.

(** Generating with the id of an existing project in the body replaces
    that project, whoever owns it: when [createApp] returns and the write
    succeeds, the project stored under that id afterwards is the new one
    and belongs to the caller. *)
Theorem generate_replaces_project (userId : string) (req : HttpRequest)
    (st : ServerState) (id prompt : string) (previous : Project)
    (result : AppGenerationResult) :
  body_prompt req = Some prompt -> prompt <> "" ->
  body_projectId req = Some id -> id <> "" ->
  jsmap_get id (projects st) = Some previous ->
  fst (createApp (env_sharp env) (env_client env) (env_apiKey env) prompt None)
    = Ok result ->
  write_error env (projects_path env (id ++ ".json")) = None ->
  let st' := snd (generate env userId req st) in
  status (fst (generate env userId req st)) = 200 /\
  jsmap_get id (projects st') =
    Some {| project_id := id;
            project_name := Some (String.substring 0 50 prompt);
            project_prompt := prompt;
            project_files := files result;
            project_createdAt := now_iso env;
            project_userId := userId |} /\
  map fst (projects st') = map fst (projects st).
Proof.
  intros Hprompt Hne Hid Hidne Hprev Hcreate Hwrite. cbv zeta.
  unfold generate. rewrite Hprompt, Hid. unfold truthy_string, truthy.
  apply String.eqb_neq in Hne, Hidne. unfold truthy_string.
  rewrite Hne, Hidne. cbn [negb template].
  destruct (createApp (env_sharp env) (env_client env) (env_apiKey env)
              prompt None) as [result' log].
  cbn [fst] in Hcreate. subst result'.
  unfold write_project. rewrite Hwrite. cbn [fst snd projects status ok].
  split; [reflexivity |]. split; [apply jsmap_get_set_same |].
  rewrite jsmap_keys_set.
  destruct (in_dec string_dec id (map fst (projects st))) as [_ | Hnin];
    [reflexivity |].
  exfalso. apply Hnin. apply jsmap_get_in in Hprev.
  change id with (fst (id, previous)). now apply in_map.
Qed.

End StoredProjects.

Section Iterating.

Variable env : Env.





(** Iterating when [createApp] throws: the projects and the disk are
    left as they were.  The answer is 500 with the message of the error
    when the key is missing or no file was generated; it can only be one
    of the two 400 answers about images when the client itself threw with
    a message holding the text the route looks for. *)
Theorem failed_iteration_changes_nothing (userId : string) (req : HttpRequest)
    (st : ServerState) (project : Project) (e : Error) :
  jsmap_get (param_id req) (projects st) = Some project ->
  project_userId project = userId ->
  fst (createApp_any env (body_prompt req) (Some (project_files project)))
    = Throw e ->
  let response := fst (iterate env userId req st) in
  let st' := snd (iterate env userId req st) in
  projects st' = projects st /\ disk st' = disk st /\
  response = failure_response "Failed to update project" (message_of e) /\
  (e = ApiKeyNotSet \/ e = NoFilesGenerated ->
   response =
     {| status := 500;
        body := ErrorDetails "Failed to update project" (message_of e) None |}) /\
  (status response = 400 ->
   exists msg,
     e = UpstreamError msg /\
     (includes "image exceeds" msg = true \/
      includes "Failed to compress image" msg = true)).
Proof.
  intros Hget Hown Hthrow. cbv zeta. unfold iterate.
  rewrite Hget, Hown, String.eqb_refl. cbn [negb].
  pose proof (@createApp_any_throws env (body_prompt req)
                (Some (project_files project)) e Hthrow) as Hkind.
  destruct (createApp_any env (body_prompt req) (Some (project_files project)))
    as [result log].
  cbn [fst] in Hthrow. subst result. cbn [fst snd projects disk].
  repeat split.
  - apply failure_response_own.
  - intros H400.
    destruct Hkind as [-> | [-> | [msg ->]]]; try discriminate.
    exists msg. split; [reflexivity |].
    cbn [message_of] in H400. unfold failure_response in H400.
    destruct (includes "image exceeds" msg); [now left |].
    destruct (includes "Failed to compress image" msg); [now right |].
    discriminate.
Qed.

(** Renaming one's own project: the project in memory takes the name of
    the body, or loses its name when the body has none, and nothing else
    of it changes, nor any other project.  When the write succeeds the
    answer is 200 and the file of the project holds the renamed project;
    when it throws the answer is 500 with the message and the disk is as
    before, the project in memory being renamed all the same. *)
Theorem rename_outcome (userId : string) (req : HttpRequest) (st : ServerState)
    (project : Project) :
  jsmap_get (param_id req) (projects st) = Some project ->
  project_userId project = userId ->
  let response := fst (rename env userId req st) in
  let st' := snd (rename env userId req st) in
  let renamed :=
    {| project_id := project_id project;
       project_name := body_name req;
       project_prompt := project_prompt project;
       project_files := project_files project;
       project_createdAt := project_createdAt project;
       project_userId := project_userId project |} in
  let file := projects_path env (param_id req ++ ".json") in
  jsmap_get (param_id req) (projects st') = Some renamed /\
  (forall other, other <> param_id req ->
     jsmap_get other (projects st') = jsmap_get other (projects st)) /\
  map fst (projects st') = map fst (projects st) /\
  sent st' = sent st /\
  match write_error env file with
  | None =>
      response = ok (RenamedBody (project_id project) (body_name req)) /\
      jsmap_get file (disk st') = Some renamed
  | Some message =>
      response =
        {| status := 500;
           body := ErrorDetails "Failed to rename project" message None |} /\
      disk st' = disk st
  end.
Proof.
  intros Hget Hown. cbv zeta. unfold rename, write_project.
  rewrite Hget, Hown, String.eqb_refl. cbn [negb].
  assert (Hkeys : forall v : Project,
    map fst (jsmap_set (param_id req) v (projects st)) = map fst (projects st)).
  { intros v. rewrite jsmap_keys_set.
    destruct (in_dec string_dec (param_id req) (map fst (projects st)))
      as [_ | Hnin]; [reflexivity |].
    exfalso. apply Hnin. apply jsmap_get_in in Hget.
    change (param_id req) with (fst (param_id req, project)). now apply in_map. }
  destruct (write_error env (projects_path env (param_id req ++ ".json")));
    cbn [fst snd projects disk sent].
  - split; [apply jsmap_get_set_same |]. split.
    { intros other Hother. apply jsmap_get_set_other. congruence. }
    split; [apply Hkeys |]. auto.
  - split; [apply jsmap_get_set_same |]. split.
    { intros other Hother. apply jsmap_get_set_other. congruence. }
    split; [apply Hkeys |]. split; [reflexivity |].
    split; [reflexivity | apply jsmap_get_set_same].
Qed.

End Iterating.

(* ------------------------------------------------------------------ *)
(** ** The user storage *)

Section ValuesFacts.

Context {V A : Type}.
Variable g : V -> A.

Lemma jsmap_values_set_in (k : string) (v x : V) (m : list (string * V)) :
  In x (jsmap_values (jsmap_set k v m)) -> x = v \/ In x (jsmap_values m).
Proof.
  unfold jsmap_values. intros H. apply in_map_iff in H.
  destruct H as (e & <- & He). apply jsmap_in_set in He.
  destruct He as [-> | He]; [now left | right; now apply in_map].
Qed.

Lemma jsmap_values_set_nodup (k : string) (v : V) (m : list (string * V)) :
  NoDup (map g (jsmap_values m)) ->
  ~ In (g v) (map g (jsmap_values m)) ->
  NoDup (map g (jsmap_values (jsmap_set k v m))).
Proof.
  induction m as [| [k0 v0] m IH]; cbn [jsmap_set jsmap_values map snd];
    intros Hnd Hfresh.
  - repeat constructor. intros [].
  - inversion Hnd as [| ? ? Hv0 Hnd']; subst.
    destruct (k0 =? k); cbn [map snd].
    + constructor; [| exact Hnd']. intros Hin. apply Hfresh. now right.
    + constructor.
      * intros Hin. apply in_map_iff in Hin. destruct Hin as (x & Hx & Hin).
        apply jsmap_values_set_in in Hin. destruct Hin as [-> | Hin].
        -- apply Hfresh. left. now symmetry.
        -- apply Hv0. rewrite <- Hx. now apply in_map.
      * apply IH; [exact Hnd' |]. intros Hin. apply Hfresh. now right.
Qed.

Lemma jsmap_values_set_same (k : string) (u v : V) (m : list (string * V)) :
  jsmap_get k m = Some u -> g v = g u ->
  map g (jsmap_values (jsmap_set k v m)) = map g (jsmap_values m).
Proof.
  intros Hget Hg. induction m as [| [k0 v0] m IH];
    cbn [jsmap_set jsmap_get jsmap_values map snd] in *; [discriminate |].
  destruct (k0 =? k); cbn [map snd].
  - injection Hget as ->. now rewrite Hg.
  - f_equal. now apply IH.
Qed.

End ValuesFacts.

Section UserStorageFacts.

Variable uenv : UserEnv.

Lemma find_email_new (e : string) (k : string) (v : User)
    (m : list (string * User)) :
  find (fun x => user_email x =? e) (jsmap_values m) = None ->
  user_email v = e ->
  find (fun x => user_email x =? e) (jsmap_values (jsmap_set k v m)) = Some v.
Proof.
  intros Hnone Hv. induction m as [| [k0 v0] m IH];
    cbn [jsmap_set jsmap_values map snd find] in *.
  - now rewrite Hv, String.eqb_refl.
  - destruct (user_email v0 =? e) eqn:E0; [discriminate |].
    destruct (k0 =? k); cbn [map snd find].
    + now rewrite Hv, String.eqb_refl.
    + rewrite E0. now apply IH.
Qed.


Lemma find_none_not_in (e : string) (l : list User) :
  find (fun x => user_email x =? e) l = None -> ~ In e (map user_email l).
Proof.
  intros Hnone Hin. apply in_map_iff in Hin. destruct Hin as (x & Hx & Hin).
  apply (find_none _ _ Hnone) in Hin. cbn in Hin.
  rewrite Hx, String.eqb_refl in Hin. discriminate.
Qed.

Lemma find_not_in_none (e : string) (l : list User) :
  ~ In e (map user_email l) -> find (fun x => user_email x =? e) l = None.
Proof.
  induction l as [| x l IH]; cbn [map find]; intros Hnot; [reflexivity |].
  destruct (String.eqb_spec (user_email x) e) as [Heq | _].
  - exfalso. apply Hnot. now left.
  - apply IH. intros Hin. apply Hnot. now right.
Qed.

Lemma find_app_none {A : Type} (f : A -> bool) (l l' : list A) :
  find f l = None -> find f (l ++ l') = find f l'.
Proof.
  induction l as [| x l IH]; cbn [app find]; [reflexivity |].
  destruct (f x); [discriminate | exact IH].
Qed.

(** A new key goes behind the others. *)
Lemma jsmap_values_set_fresh {V : Type} (k : string) (v : V)
    (m : list (string * V)) :
  jsmap_get k m = None -> jsmap_values (jsmap_set k v m) = jsmap_values m ++ [v].
Proof.
  unfold jsmap_values.
  induction m as [| [k0 v0] m IH]; cbn [jsmap_set jsmap_get map snd app];
    [reflexivity |].
  destruct (k0 =? k); [discriminate |]. intros Hget. cbn [map snd].
  now rewrite IH.
Qed.

Lemma NoDup_snoc {A : Type} (l : list A) (x : A) :
  NoDup (l ++ [x]) <-> NoDup l /\ ~ In x l.
Proof.
  split.
  - intros Hnd. split.
    + apply NoDup_remove_1 in Hnd. now rewrite app_nil_r in Hnd.
    + apply NoDup_remove_2 in Hnd. now rewrite app_nil_r in Hnd.
  - intros [Hnd Hnot]. induction l as [| y l IH]; cbn [app].
    + constructor; [intros [] | constructor].
    + inversion Hnd as [| ? ? Hy Hnd']; subst. constructor.
      * rewrite in_app_iff. intros [Hin | [-> | []]]; [now apply Hy |].
        apply Hnot. now left.
      * apply IH; [exact Hnd' |]. intros Hin. apply Hnot. now right.
Qed.

(** What [createUser_resume] leaves when the save succeeds. *)
Lemma createUser_resume_saved (now : N) (now_iso salt : string)
    (email password name : string) (role : UserRole) (course : option Course)
    (store : UserStorage) :
  save_error uenv = None ->
  let account :=
    {| user_id := string_of_N now;
       user_email := toLowerCase uenv email;
       user_passwordHash := bcrypt_hash uenv password salt;
       user_name := name;
       user_profilePicture := None;
       user_role := role;
       user_course := match role with student => course | admin => None end;
       user_createdAt := now_iso |} in
  createUser_resume uenv now now_iso salt email password name role course store =
    (Returned account,
     {| users := jsmap_set (string_of_N now) account (users store);
        users_file := jsmap_set (string_of_N now) account (users store) |}).
Proof.
  intros Hsave. cbv zeta. unfold createUser_resume, save. now rewrite Hsave.
Qed.

(** Registering, when no user with the email is stored by the time the
    hash has resolved and the save succeeds: the user is stored under the
    id made from the clock, with the email in lower case, the role asked
    for, and the course only if the role is student; the file holds what
    the map holds; the password just given logs in under the email just
    given (for a [bcrypt] that accepts a password against its own hash);
    and a later call with an email that lower-cases to the same is
    refused by the check.  A call that nothing overlaps and whose check
    passes is such a registration. *)
Theorem registered_user_can_log_in (now : N) (now_iso salt : string)
    (email password name : string) (role : UserRole) (course : option Course)
    (store : UserStorage) :
  findByEmail uenv email store = None ->
  save_error uenv = None ->
  (forall p s, bcrypt_compare uenv p (bcrypt_hash uenv p s) = true) ->
  let outcome :=
    createUser_resume uenv now now_iso salt email password name role course
      store in
  exists account,
    fst outcome = Returned account /\
    user_id account = string_of_N now /\
    user_email account = toLowerCase uenv email /\
    user_role account = role /\
    user_course account = match role with student => course | admin => None end /\
    findById (user_id account) (snd outcome) = Some account /\
    users_file (snd outcome) = users (snd outcome) /\
    verifyPassword uenv email password (snd outcome) = Some account /\
    (forall email',
       toLowerCase uenv email' = toLowerCase uenv email ->
       createUser_check uenv email' (snd outcome) =
         Some "User with this email already exists") /\
    createUser_uninterrupted uenv now now_iso salt email password name role
      course store = outcome.
Proof.
  intros Hfree Hsave Hbcrypt. cbv zeta.
  rewrite (createUser_resume_saved now now_iso salt email password name role
             course store Hsave).
  cbn [fst snd]. eexists. split; [reflexivity |].
  cbn [user_id user_email user_role user_course users users_file].
  assert (Hfind : forall email',
    toLowerCase uenv email' = toLowerCase uenv email ->
    findByEmail uenv email'
      {| users :=
           jsmap_set (string_of_N now)
             {| user_id := string_of_N now;
                user_email := toLowerCase uenv email;
                user_passwordHash := bcrypt_hash uenv password salt;
                user_name := name;
                user_profilePicture := None;
                user_role := role;
                user_course :=
                  match role with student => course | admin => None end;
                user_createdAt := now_iso |} (users store);
         users_file :=
           jsmap_set (string_of_N now)
             {| user_id := string_of_N now;
                user_email := toLowerCase uenv email;
                user_passwordHash := bcrypt_hash uenv password salt;
                user_name := name;
                user_profilePicture := None;
                user_role := role;
                user_course :=
                  match role with student => course | admin => None end;
                user_createdAt := now_iso |} (users store) |} =
    Some {| user_id := string_of_N now;
            user_email := toLowerCase uenv email;
            user_passwordHash := bcrypt_hash uenv password salt;
            user_name := name;
            user_profilePicture := None;
            user_role := role;
            user_course :=
              match role with student => course | admin => None end;
            user_createdAt := now_iso |}).
  { intros email' Hlow. unfold findByEmail. cbn [users]. rewrite Hlow.
    apply find_email_new; [exact Hfree | reflexivity]. }
  repeat split.
  - unfold findById. cbn [users]. apply jsmap_get_set_same.
  - unfold verifyPassword. rewrite (Hfind email eq_refl).
    cbn [user_passwordHash]. now rewrite Hbcrypt.
  - intros email' Hlow. unfold createUser_check.
    now rewrite (Hfind email' Hlow).
  - unfold createUser_uninterrupted, createUser_check. rewrite Hfree.
    apply createUser_resume_saved. exact Hsave.
Qed.

(** The emails of the stored users stay pairwise distinct under
    [updateUser] and under a call of [createUser] that nothing overlaps,
    whether the save succeeds or throws.  A call of [createUser] that
    resumes after other calls have run, with an id that is new, keeps
    them distinct exactly when no user with its email has been stored in
    the meantime: the email is checked before the [await] and not after
    it. *)
Theorem storage_keeps_emails_distinct (store : UserStorage) :
  emails_distinct store ->
  (forall id updates, emails_distinct (snd (updateUser uenv id updates store))) /\
  (forall now now_iso salt email password name role course,
     emails_distinct
       (snd (createUser_uninterrupted uenv now now_iso salt email password name
               role course store))) /\
  (forall now now_iso salt email password name role course,
     findById (string_of_N now) store = None ->
     (emails_distinct
        (snd (createUser_resume uenv now now_iso salt email password name role
                course store)) <->
      findByEmail uenv email store = None)).
Proof.
  unfold emails_distinct. intros Hnd. split; [| split].
  - intros id updates. unfold updateUser.
    destruct (jsmap_get id (users store)) as [account |] eqn:Hget;
      [| exact Hnd].
    assert (Hset : map user_email (jsmap_values
              (jsmap_set id (merge_updates id account updates) (users store))) =
            map user_email (jsmap_values (users store))).
    { apply (@jsmap_values_set_same _ _ user_email id account _ (users store) Hget).
      reflexivity. }
    unfold save. destruct (save_error uenv); cbn [snd users]; now rewrite Hset.
  - intros now now_iso salt email password name role course.
    unfold createUser_uninterrupted, createUser_check.
    destruct (findByEmail uenv email store) as [taken |] eqn:Hfind;
      [exact Hnd |].
    unfold createUser_resume.
    assert (Hset : NoDup (map user_email (jsmap_values
              (jsmap_set (string_of_N now)
                 {| user_id := string_of_N now;
                    user_email := toLowerCase uenv email;
                    user_passwordHash := bcrypt_hash uenv password salt;
                    user_name := name;
                    user_profilePicture := None;
                    user_role := role;
                    user_course :=
                      match role with student => course | admin => None end;
                    user_createdAt := now_iso |} (users store))))).
    { apply jsmap_values_set_nodup; [exact Hnd |].
      cbn [user_email]. now apply find_none_not_in. }
    unfold save. destruct (save_error uenv); exact Hset.
  - intros now now_iso salt email password name role course Hfresh.
    unfold findById in Hfresh. unfold createUser_resume, save.
    assert (Hvalues : forall account,
              map user_email
                (jsmap_values (jsmap_set (string_of_N now) account (users store))) =
              map user_email (jsmap_values (users store)) ++ [user_email account]).
    { intros account. rewrite (jsmap_values_set_fresh _ _ _ Hfresh).
      now rewrite map_app. }
    assert (Hiff :
              NoDup (map user_email (jsmap_values (users store)) ++
                     [toLowerCase uenv email]) <->
              findByEmail uenv email store = None).
    { rewrite NoDup_snoc. unfold findByEmail. split.
      - intros [_ Hnot]. now apply find_not_in_none.
      - intros Hnone. split; [exact Hnd | now apply find_none_not_in]. }
    destruct (save_error uenv); cbn [snd users user_id];
      rewrite Hvalues; exact Hiff.
Qed.

(** Two registrations that overlap, with emails that lower-case to the
    same email, which no stored user has, and with two different new
    ids: both calls return their user, both users are stored, under one
    email, so the emails of the storage are no longer distinct; and under
    that email the storage finds the first of the two, so the password of
    the second logs in only if [bcrypt] accepts it against the hash of the
    first, and then as the first user. *)
Theorem overlapping_registrations_share_an_email (first second : Registration)
    (store : UserStorage) :
  findByEmail uenv (reg_email first) store = None ->
  toLowerCase uenv (reg_email second) = toLowerCase uenv (reg_email first) ->
  findById (string_of_N (reg_now first)) store = None ->
  findById (string_of_N (reg_now second)) store = None ->
  string_of_N (reg_now first) <> string_of_N (reg_now second) ->
  save_error uenv = None ->
  let run := createUser_overlapping uenv first second store in
  exists account1 account2,
    fst run = (Returned account1, Returned account2) /\
    user_id account1 = string_of_N (reg_now first) /\
    user_id account2 = string_of_N (reg_now second) /\
    user_email account1 = toLowerCase uenv (reg_email first) /\
    user_email account2 = user_email account1 /\
    user_passwordHash account1 =
      bcrypt_hash uenv (reg_password first) (reg_salt first) /\
    findById (user_id account1) (snd run) = Some account1 /\
    findById (user_id account2) (snd run) = Some account2 /\
    ~ emails_distinct (snd run) /\
    findByEmail uenv (reg_email second) (snd run) = Some account1 /\
    verifyPassword uenv (reg_email second) (reg_password second) (snd run) =
      if bcrypt_compare uenv (reg_password second) (user_passwordHash account1)
      then Some account1 else None.
Proof.
  intros Hfree Hlow Hid1 Hid2 Hids Hsave. cbv zeta.
  assert (Hfree2 : findByEmail uenv (reg_email second) store = None).
  { unfold findByEmail in *. now rewrite Hlow. }
  unfold createUser_overlapping, createUser_check. rewrite Hfree, Hfree2.
  rewrite (createUser_resume_saved _ _ _ _ _ _ _ _ store Hsave).
  rewrite (createUser_resume_saved _ _ _ _ _ _ _ _ _ Hsave).
  cbn [fst snd users].
  unfold findById in Hid1, Hid2.
  set (account1 :=
         {| user_id := string_of_N (reg_now first);
            user_email := toLowerCase uenv (reg_email first);
            user_passwordHash :=
              bcrypt_hash uenv (reg_password first) (reg_salt first);
            user_name := reg_name first;
            user_profilePicture := None;
            user_role := reg_role first;
            user_course :=
              match reg_role first with
              | student => reg_course first
              | admin => None
              end;
            user_createdAt := reg_now_iso first |}).
  set (account2 :=
         {| user_id := string_of_N (reg_now second);
            user_email := toLowerCase uenv (reg_email second);
            user_passwordHash :=
              bcrypt_hash uenv (reg_password second) (reg_salt second);
            user_name := reg_name second;
            user_profilePicture := None;
            user_role := reg_role second;
            user_course :=
              match reg_role second with
              | student => reg_course second
              | admin => None
              end;
            user_createdAt := reg_now_iso second |}).
  assert (Hid2' : jsmap_get (string_of_N (reg_now second))
                    (jsmap_set (string_of_N (reg_now first)) account1
                       (users store)) = None).
  { rewrite jsmap_get_set_other by exact Hids. exact Hid2. }
  assert (Hvalues :
            jsmap_values
              (jsmap_set (string_of_N (reg_now second)) account2
                 (jsmap_set (string_of_N (reg_now first)) account1
                    (users store))) =
            jsmap_values (users store) ++ [account1; account2]).
  { rewrite (jsmap_values_set_fresh _ _ _ Hid2').
    rewrite (jsmap_values_set_fresh _ _ _ Hid1).
    now rewrite <- app_assoc. }
  assert (Hfind : findByEmail uenv (reg_email second)
                    {| users :=
                         jsmap_set (string_of_N (reg_now second)) account2
                           (jsmap_set (string_of_N (reg_now first)) account1
                              (users store));
                       users_file :=
                         jsmap_set (string_of_N (reg_now second)) account2
                           (jsmap_set (string_of_N (reg_now first)) account1
                              (users store)) |} = Some account1).
  { unfold findByEmail in *. cbn [users]. rewrite Hvalues.
    rewrite find_app_none by exact Hfree2.
    cbn [find account1 user_email]. now rewrite Hlow, String.eqb_refl. }
  exists account1, account2.
  split; [reflexivity |]. split; [reflexivity |]. split; [reflexivity |].
  split; [reflexivity |]. split; [exact Hlow |]. split; [reflexivity |].
  split.
  { unfold findById. cbn [users user_id account1].
    rewrite jsmap_get_set_other by (intros Heq; apply Hids; now symmetry).
    apply jsmap_get_set_same. }
  split; [unfold findById; cbn [users]; apply jsmap_get_set_same |].
  split.
  { unfold emails_distinct. cbn [users]. rewrite Hvalues, map_app.
    cbn [map account1 account2 user_email]. rewrite Hlow. intros Hnd.
    apply NoDup_remove_2 in Hnd. apply Hnd.
    rewrite in_app_iff. right. now left. }
  split; [exact Hfind |].
  unfold verifyPassword. now rewrite Hfind.
Qed.



End UserStorageFacts.

(* ------------------------------------------------------------------ *)
(** ** Deleting a project *)

Section Deleting.

Lemma jsmap_get_delete_same {V : Type} (k : string) (m : list (string * V)) :
  jsmap_get k (jsmap_delete k m) = None.
Proof.
  unfold jsmap_delete. induction m as [| [k0 v0] m IH]; cbn; [reflexivity |].
  destruct (k0 =? k) eqn:E; cbn; [exact IH |]. now rewrite E.
Qed.

Lemma jsmap_get_delete_other {V : Type} (k k' : string) (m : list (string * V)) :
  k <> k' -> jsmap_get k' (jsmap_delete k m) = jsmap_get k' m.
Proof.
  intros Hne. unfold jsmap_delete.
  induction m as [| [k0 v0] m IH]; cbn; [reflexivity |].
  destruct (String.eqb_spec k0 k) as [-> | Hk0]; cbn.
  - destruct (String.eqb_spec k k'); [contradiction | exact IH].
  - destruct (k0 =? k'); [reflexivity | exact IH].
Qed.

Variable env : Env.
Variable store : UserStorage.

(** A project is deleted for its owner and for an admin, and for nobody
    else: any other caller gets 403 and an unknown id 404, with the
    state left as it was.  When it is deleted the project is gone from
    memory and the other projects are untouched; its file is gone too
    unless [fs.unlink] fails, which does not fail the request. *)
Theorem delete_only_by_owner_or_admin (userId : string) (req : HttpRequest)
    (st : ServerState) :
  let response := fst (delete_project env store userId req st) in
  let st' := snd (delete_project env store userId req st) in
  let file := projects_path env (param_id req ++ ".json") in
  match jsmap_get (param_id req) (projects st) with
  | None =>
      response = {| status := 404; body := ErrorBody "Project not found" |} /\
      st' = st
  | Some project =>
      (project_userId project <> userId ->
       (forall account,
          findById userId store = Some account -> user_role account <> admin) ->
       response = {| status := 403; body := ErrorBody "Access denied" |} /\
       st' = st) /\
      (project_userId project = userId \/
       (exists account,
          findById userId store = Some account /\ user_role account = admin) ->
       response = ok (MessageBody "Project deleted") /\
       jsmap_get (param_id req) (projects st') = None /\
       (forall other, other <> param_id req ->
          jsmap_get other (projects st') = jsmap_get other (projects st)) /\
       match unlink_error env file with
       | None => jsmap_get file (disk st') = None
       | Some _ => disk st' = disk st
       end)
  end.
Proof.
  cbv zeta. unfold delete_project.
  destruct (jsmap_get (param_id req) (projects st)) as [project |];
    [| now split].
  split.
  - intros Hother Hrole. apply String.eqb_neq in Hother. rewrite Hother.
    cbn [negb andb].
    destruct (findById userId store) as [account |]; [| now split].
    pose proof (Hrole account eq_refl) as Hna.
    destruct (user_role account); [contradiction | now split].
  - intros Hmay.
    assert (Hpass :
      negb (project_userId project =? userId) &&
      negb match findById userId store with
           | Some account =>
               match user_role account with admin => true | student => false end
           | None => false
           end = false).
    { destruct Hmay as [-> | (account & -> & ->)].
      - now rewrite String.eqb_refl.
      - apply andb_false_r. }
    rewrite Hpass. cbn [fst snd projects disk].
    split; [reflexivity |]. split; [apply jsmap_get_delete_same |].
    split.
    + intros other Hother. apply jsmap_get_delete_other. congruence.
    + destruct (unlink_error env _); [reflexivity |].
      apply jsmap_get_delete_same.
Qed.

End Deleting.

(* ------------------------------------------------------------------ *)
(** ** More runs on the stubs *)

Lemma string_length_app (s1 s2 : string) :
  String.length (s1 ++ s2) = (String.length s1 + String.length s2)%nat.
Proof. induction s1 as [| c s1 IH]; cbn; [reflexivity | now rewrite IH]. Qed.

Lemma substring_suffix (s1 s2 : string) :
  String.substring (String.length s1) (String.length s2) (s1 ++ s2) = s2.
Proof.
  induction s1 as [| c s1 IH]; cbn [String.length append String.substring].
  - induction s2 as [| c s2 IH2]; cbn; [reflexivity | now rewrite IH2].
  - exact IH.
Qed.

Lemma toy_bcrypt_round_trip (p s : string) :
  bcrypt_compare stub_user_env p (bcrypt_hash stub_user_env p s) = true.
Proof.
  cbn [bcrypt_compare bcrypt_hash stub_user_env].
  rewrite string_length_app.
  replace (String.length s + String.length p - String.length p)%nat
    with (String.length s) by lia.
  rewrite substring_suffix. apply String.eqb_refl.
Qed.

Lemma processMessageContent_output_within_ceiling_witness :
  let image (encoded : string) :=
    {| item_type := "image"; item_text := None;
       item_source := Some {| source_type := "base64";
                              media_type := "image/png";
                              data := Some encoded |} |} in
  exists b : string,
    (byteLength text_sharp b <= sizeCeiling)%Z /\
    ((In (image "AAAAA") [image "AAAAAAA"] /\
      payload text_sharp (image "AAAAA") = Some b) \/
     (exists original,
        In original [image "AAAAAAA"] /\
        image "AAAAA" = with_data original (to_base64 text_sharp b))).
Proof.
  intros image.
  destruct (@processMessageContent_output_within_ceiling text_sharp
              [image "AAAAAAA"] (image "AAAAA")
              (or_introl eq_refl) eq_refl) as [_ H].
  exact H.
Defined.

Lemma processMessageContent_idempotent_witness :
  let content :=
    ContentArray
      [ text_block "a gallery";
        {| item_type := "image"; item_text := None;
           item_source := Some {| source_type := "base64";
                                  media_type := "image/png";
                                  data := Some "AAAAAAA" |} |} ] in
  processMessageContent text_sharp (fst (processMessageContent text_sharp content)) =
    (fst (processMessageContent text_sharp content), []).
Proof.
  intros content.
  apply (@processMessageContent_idempotent text_sharp content).
  intros b. reflexivity.
Defined.

Lemma base64Data_of_data_url_witness :
  base64Data
    {| upload_name := "cat.png"; upload_type := "image/png";
       upload_data := "data:image/png;base64,iVBORw0KGgo=";
       upload_url := None |} = Some "iVBORw0KGgo=".
Proof.
  apply (proj2 (base64Data_of_data_url
                  {| upload_name := "cat.png"; upload_type := "image/png";
                     upload_data := "data:image/png;base64,iVBORw0KGgo=";
                     upload_url := None |})
               "data:image/png;base64" "iVBORw0KGgo=");
    reflexivity.
Defined.

Lemma createApp_uploads_first_request_witness :
  exists text later,
    snd (createApp_uploads stub_sharp silent_client (Some "sk-test") "a page"
           None (Some [sample_upload])) =
      request_uploads createSystemPrompt_uploads
        [ {| role := user; msg_content := ContentArray [text_block text] |} ]
      :: later /\
    includes "https://cdn.example/dog.jpg" text = true.
Proof.
  destruct (@createApp_uploads_first_request stub_sharp silent_client
              (Some "sk-test") "a page" None (Some [sample_upload]) eq_refl)
    as [[later Hfirst] Hfile].
  destruct (Hfile sample_upload (or_introl eq_refl) eq_refl eq_refl)
    as (Hemitted & _ & Hurl).
  eexists. exists later. split.
  - rewrite Hfirst. cbn [filter is_image_upload flat_map].
    change (is_image_upload sample_upload) with true. cbn [flat_map].
    rewrite Hemitted. reflexivity.
  - apply (Hurl "https://cdn.example/dog.jpg"); [reflexivity | discriminate].
Defined.

Lemma unauthenticated_request_is_refused_witness :
  let req := sample_request "not-a-token" "project_1" (Some "make it blue") in
  snd (serve (stub_env eager_client) PostIterate req sample_state) = sample_state.
Proof.
  intros req.
  apply (@unauthenticated_request_is_refused (stub_env eager_client)
           PostIterate req sample_state).
  intros token [= <-]. right. reflexivity.
Defined.

Lemma foreign_projects_are_out_of_reach_witness :
  let req := sample_request "jwt:bob" "project_1" (Some "make it mine") in
  jsmap_get "project_1"
    (projects (snd (serve (stub_env eager_client) PostIterate req sample_state)))
    = Some sample_project /\
  serve (stub_env eager_client) PostIterate req sample_state =
    ({| status := 403; body := ErrorBody "Access denied" |}, sample_state) /\
  fst (serve (stub_env eager_client) GetProjects req sample_state) =
    ok (ProjectsBody []).
Proof.
  intros req.
  destruct (@foreign_projects_are_out_of_reach (stub_env eager_client)
              PostIterate "bob" req sample_state "project_1" sample_project)
    as (Hkept & Hdenied & _);
    [discriminate | reflexivity | reflexivity | discriminate |].
  split; [exact Hkept |].
  split; [apply Hdenied; [discriminate | reflexivity] |].
  destruct (@foreign_projects_are_out_of_reach (stub_env eager_client)
              GetProjects "bob" req sample_state "project_1" sample_project)
    as (_ & _ & Hlist);
    [discriminate | reflexivity | reflexivity | discriminate |].
  destruct (Hlist eq_refl) as (listed & Hbody & _ & Hown).
  rewrite Hbody. destruct listed as [| p listed]; [reflexivity |].
  exfalso. destruct (proj1 (Hown p) (or_introl eq_refl)) as [[<- | []] Hp].
  discriminate.
Defined.

Lemma sample_state_stored_well : stored_well sample_state.
Proof.
  split.
  - cbn. constructor; [intros [] | constructor].
  - intros id project [[= <- <-] | []]. split; [reflexivity |].
    split; [discriminate |]. cbn.
    constructor; [intros [H | []]; discriminate |].
    constructor; [intros [] | constructor].
Qed.

Lemma routes_keep_projects_well_witness :
  let req := sample_request "jwt:alice" "project_1" (Some "tock instead") in
  stored_well (snd (serve (stub_env script_client) PostIterate req sample_state)).
Proof.
  intros req.
  apply (@routes_keep_projects_well (stub_env script_client) PostIterate req
           sample_state).
  exact sample_state_stored_well.
Defined.

Lemma generate_stores_or_leaves_witness :
  let req := sample_request "jwt:alice" "" (Some "a clock") in
  let stored := generate (stub_env eager_client) "alice" req sample_state in
  let failed := generate (stub_env failing_client) "alice" req sample_state in
  let refused :=
    generate (stub_env eager_client) "alice"
      (sample_request "jwt:alice" "" None) sample_state in
  (exists id project,
     status (fst stored) = 200 /\
     jsmap_get id (projects (snd stored)) = Some project /\
     jsmap_get ("projects/" ++ id ++ ".json")%string (disk (snd stored))
       = Some project /\
     project_id project = id /\
     project_userId project = "alice" /\
     project_files project <> [] /\
     jsmap_get "project_1" (projects (snd stored)) = Some sample_project) /\
  (status (fst failed) <> 200 /\
   projects (snd failed) = projects sample_state /\
   disk (snd failed) = disk sample_state) /\
  (fst refused = {| status := 400; body := ErrorBody "Prompt is required" |} /\
   snd refused = sample_state).
Proof.
  intros req stored failed refused. split; [| split].
  - destruct (proj2 (@generate_stores_or_leaves (stub_env eager_client) "alice"
                       req sample_state (fun _ => eq_refl)))
      as [(id & name & files & Hresp & _ & Hfiles & _ & project & Hget & Hdisk
           & Hid & Hown & Hpf & Hothers) | (Hstatus & _)].
    + exists id, project. unfold stored.
      split; [rewrite Hresp; reflexivity |].
      split; [exact Hget |]. split; [exact Hdisk |]. split; [exact Hid |].
      split; [exact Hown |]. split; [rewrite Hpf; exact Hfiles |].
      rewrite Hothers; [reflexivity |].
      intros <-. vm_compute in Hresp. discriminate.
    + exfalso. apply Hstatus. reflexivity.
  - destruct (proj2 (@generate_stores_or_leaves (stub_env failing_client)
                       "alice" req sample_state (fun _ => eq_refl)))
      as [(id & name & files & Hresp & _) | Hleft].
    + vm_compute in Hresp. discriminate.
    + exact Hleft.
  - apply (proj1 (@generate_stores_or_leaves (stub_env eager_client) "alice"
                    (sample_request "jwt:alice" "" None) sample_state
                    (fun _ => eq_refl))).
    reflexivity.
Defined.

Lemma generate_replaces_project_witness :
  let req :=
    {| cookie_token := Some "jwt:bob"; authorization := None; param_id := "";
       body_prompt := Some "a clock"; body_projectId := Some "project_1";
       body_name := None |} in
  let st' := snd (generate (stub_env eager_client) "bob" req sample_state) in
  option_map project_userId (jsmap_get "project_1" (projects sample_state))
    = Some "alice" /\
  option_map project_userId (jsmap_get "project_1" (projects st')) = Some "bob".
Proof.
  intros req st'. split; [reflexivity |].
  destruct (@generate_replaces_project (stub_env eager_client) "bob" req
              sample_state "project_1" "a clock" sample_project
              {| files := [ {| path := "index.html";
                               content := "<html></html>" |} ] |})
    as (_ & H & _);
    [reflexivity | discriminate | reflexivity | discriminate | reflexivity
    | reflexivity | reflexivity |].
  unfold st'. rewrite H. reflexivity.
Defined.


Lemma failed_iteration_changes_nothing_witness :
  let req := sample_request "jwt:alice" "project_1" (Some "tock instead") in
  let outcome := iterate (stub_env failing_client) "alice" req sample_state in
  projects (snd outcome) = projects sample_state /\
  disk (snd outcome) = disk sample_state.
Proof.
  intros req outcome.
  destruct (@failed_iteration_changes_nothing (stub_env failing_client) "alice"
              req sample_state sample_project (UpstreamError "overloaded"))
    as (Hp & Hd & _); try reflexivity.
  split; [exact Hp | exact Hd].
Defined.

Lemma rename_outcome_witness :
  let req :=
    {| cookie_token := Some "jwt:alice"; authorization := None;
       param_id := "project_1"; body_prompt := None; body_projectId := None;
       body_name := None |} in
  option_map project_name
    (jsmap_get "project_1"
       (projects (snd (rename (stub_env eager_client) "alice" req sample_state))))
    = Some None.
Proof.
  intros req.
  destruct (@rename_outcome (stub_env eager_client) "alice" req sample_state
              sample_project eq_refl eq_refl) as (H & _).
  exact (f_equal (option_map project_name) H).
Defined.

Lemma registered_user_can_log_in_witness :
  let outcome :=
    createUser_resume stub_user_env 1700000000000%N "2023-11-14T22:13:20.000Z"
      "salt-" "Bob@Example.com" "hunter2" "Bob" student (Some DesignThinking)
      sample_store in
  exists account,
    fst outcome = Returned account /\
    user_email account = "bob@example.com" /\
    verifyPassword stub_user_env "Bob@Example.com" "hunter2" (snd outcome)
      = Some account /\
    createUser_check stub_user_env "BOB@example.com" (snd outcome) =
      Some "User with this email already exists".
Proof.
  intros outcome.
  destruct (@registered_user_can_log_in stub_user_env 1700000000000%N
              "2023-11-14T22:13:20.000Z" "salt-" "Bob@Example.com" "hunter2"
              "Bob" student (Some DesignThinking) sample_store
              eq_refl eq_refl toy_bcrypt_round_trip)
    as (account & Hout & _ & Hemail & _ & _ & _ & _ & Hlogin & Hagain & _).
  exists account. split; [exact Hout |]. split; [exact Hemail |].
  split; [exact Hlogin |]. apply Hagain. reflexivity.
Defined.

Lemma sample_store_emails_distinct : emails_distinct sample_store.
Proof.
  unfold emails_distinct. cbn.
  constructor; [intros [H | []]; discriminate |].
  constructor; [intros [] | constructor].
Qed.

Lemma storage_keeps_emails_distinct_witness :
  emails_distinct
    (snd (createUser_uninterrupted stub_user_env 1700000000000%N
            "2023-11-14T22:13:20.000Z" "salt-" "Bob@Example.com" "hunter2"
            "Bob" student None sample_store)) /\
  ~ emails_distinct
      (snd (createUser_resume stub_user_env 1700000000000%N
              "2023-11-14T22:13:20.000Z" "salt-" "Alice@Example.com" "hunter2"
              "Alice" student None sample_store)).
Proof.
  destruct (@storage_keeps_emails_distinct stub_user_env sample_store
              sample_store_emails_distinct) as (_ & Halone & Hresume).
  split; [apply Halone |].
  intros Hnd. apply Hresume in Hnd; [discriminate | reflexivity].
Defined.

Lemma overlapping_registrations_share_an_email_witness :
  let first :=
    {| reg_email := "bob@example.com"; reg_password := "hunter2";
       reg_name := "Bob"; reg_role := student; reg_course := None;
       reg_salt := "salt-"; reg_now := 1700000000001%N;
       reg_now_iso := "2023-11-14T22:13:20.001Z" |} in
  let second :=
    {| reg_email := "Bob@Example.com"; reg_password := "swordfish";
       reg_name := "Robert"; reg_role := student; reg_course := None;
       reg_salt := "pepper-"; reg_now := 1700000000002%N;
       reg_now_iso := "2023-11-14T22:13:20.002Z" |} in
  let run := createUser_overlapping stub_user_env first second sample_store in
  (exists account1 account2,
     fst run = (Returned account1, Returned account2) /\
     user_name account1 = "Bob" /\ user_name account2 = "Robert") /\
  ~ emails_distinct (snd run) /\
  verifyPassword stub_user_env "Bob@Example.com" "swordfish" (snd run) = None.
Proof.
  intros first second run.
  destruct (@overlapping_registrations_share_an_email stub_user_env first
              second sample_store)
    as (account1 & account2 & Hrun & _ & _ & _ & _ & Hhash & _ & _ & Hnd & _
        & Hlogin);
    [reflexivity | reflexivity | reflexivity | reflexivity | discriminate
    | reflexivity |].
  split; [| split; [exact Hnd |]].
  - exists account1, account2. split; [exact Hrun |].
    unfold run in Hrun. vm_compute in Hrun.
    injection Hrun as <- <-. split; reflexivity.
  - unfold run. etransitivity; [exact Hlogin |]. rewrite Hhash. reflexivity.
Defined.



Lemma delete_only_by_owner_or_admin_witness :
  let st := sample_state in
  fst (delete_project (stub_env eager_client) sample_store "bob"
         (sample_request "jwt:bob" "project_1" None) st) =
    {| status := 403; body := ErrorBody "Access denied" |} /\
  jsmap_get "project_1"
    (projects (snd (delete_project (stub_env eager_client) sample_store "root"
                      (sample_request "jwt:root" "project_1" None) st))) = None.
Proof.
  intros st. split.
  - pose proof (@delete_only_by_owner_or_admin (stub_env eager_client)
                  sample_store "bob"
                  (sample_request "jwt:bob" "project_1" None) st) as H.
    destruct H as [H _]. apply H; [discriminate |]. intros account [=].
  - pose proof (@delete_only_by_owner_or_admin (stub_env eager_client)
                  sample_store "root"
                  (sample_request "jwt:root" "project_1" None) st) as H.
    destruct H as [_ H]. apply H. right.
    exists (sample_account "root" "root@example.com" admin). now split.
Defined.
